(** * RasaModelData: a shallow embedding of [rasa/utils/tf_model_data.py]

    The table of aligned feature columns held by [RasaModelData], its
    container operations, the label grouping, the stratified splitter, the
    balancer and the batch generator, each translated from the Python
    source, followed by the theorems that settle the specification's
    claims about them. *)

From Stdlib Require Import ZArith Lia Ascii DecimalString DecimalPos DecimalZ.
From stdpp Require Import base list strings numbers sorting.

Open Scope string_scope.
Open Scope list_scope.
Open Scope nat_scope.

(** ** Exceptions and fallible computations

    Every size and key error of the source is a [ValueError] told apart by
    its message; the constructors carry the names the specification gives
    them.  The remaining constructors are the exceptions the Python runtime,
    numpy or scikit-learn raise on the paths the source does not guard. *)

Inductive exn : Type :=
| DuplicateKeyError       (* ValueError: Key '...' already exists in RasaModelData. *)
| MissingKeyError         (* ValueError: Key '...' not in RasaModelData. *)
| InconsistentSizeError   (* ValueError: Number of examples differs for keys ... *)
| TooManyExamplesError    (* ValueError: Test set of ... is too large. *)
| TooFewExamplesError     (* ValueError: Test set of ... is too small. *)
| UnsupportedShapeError   (* ValueError: Unsupported label_ids dimensions *)
| IndexError              (* list or tuple index out of range, mask of the wrong length *)
| KeyError                (* dict lookup of an absent key *)
| EmptySequenceError      (* ValueError: min() arg is an empty sequence *)
| ZeroDivisionError
| TypeError               (* an operand outside the annotated type *)
| ShapeMismatchError      (* ValueError of np.concatenate / scipy.sparse.vstack *)
| SklearnError.           (* ValueError raised inside train_test_split *)

Inductive result (A : Type) : Type :=
| Ok (a : A)
| Raise (e : exn).
Arguments Ok {A} a.
Arguments Raise {A} e.

Definition rbind {A B : Type} (m : result A) (k : A -> result B) : result B :=
  match m with
  | Ok a => k a
  | Raise e => Raise e
  end.

Notation "'let*' x := m 'in' k" := (rbind m (fun x => k))
  (at level 10, x name, m at level 100, k at level 200).

Definition of_option {A : Type} (e : exn) (o : option A) : result A :=
  match o with
  | Some a => Ok a
  | None => Raise e
  end.

(** [rmapM f l] runs [f] over [l] from left to right and stops at the first
    exception, as a Python comprehension does. *)
Fixpoint rmapM {A B : Type} (f : A -> result B) (l : list A) : result (list B) :=
  match l with
  | [] => Ok []
  | x :: r => let* y := f x in let* ys := rmapM f r in Ok (y :: ys)
  end.

(** ** Python dictionaries

    A [dict] keeps its keys in insertion order and holds each key once.
    Assigning to a present key replaces the value in place. *)

Definition dict (V : Type) : Type := list (string * V).

Fixpoint dict_get {V : Type} (d : dict V) (k : string) : option V :=
  match d with
  | [] => None
  | (k', v) :: r => if decide (k' = k) then Some v else dict_get r k
  end.

Definition dict_contains {V : Type} (d : dict V) (k : string) : bool :=
  match dict_get d k with
  | Some _ => true
  | None => false
  end.

Fixpoint dict_set {V : Type} (d : dict V) (k : string) (v : V) : dict V :=
  match d with
  | [] => [(k, v)]
  | (k', v') :: r =>
      if decide (k' = k) then (k, v) :: r else (k', v') :: dict_set r k v
  end.

Fixpoint dict_del {V : Type} (d : dict V) (k : string) : dict V :=
  match d with
  | [] => []
  | (k', v') :: r => if decide (k' = k) then r else (k', v') :: dict_del r k
  end.

Definition dict_keys {V : Type} (d : dict V) : list string := map fst d.
Definition dict_values {V : Type} (d : dict V) : list V := map snd d.

(** ** Arrays and columns

    A dense [ndarray] of at least one dimension is kept as its rows along
    the leading (example) axis: [tail] is the shape without the example
    dimension and every row holds the [prod tail] numbers of one example,
    flattened.  A scipy sparse matrix is kept as its rows of stored
    (column, value) entries. *)

Record ndarray : Type := NdArray {
  tail : list nat;
  rows : list (list Z)
}.

Record spmatrix : Type := SpMatrix {
  ncols : nat;
  sprows : list (list (nat * Z))
}.

Inductive column : Type :=
| Dense (a : ndarray)
| Sparse (m : spmatrix).

Definition prod_list (l : list nat) : nat := fold_right Nat.mul 1 l.

(** [v.shape[0]] *)
Definition nrows (c : column) : nat :=
  match c with
  | Dense a => length (rows a)
  | Sparse m => length (sprows m)
  end.

(** [v.size]: the number of elements of an array, the number of stored
    entries of a sparse matrix. *)
Definition size (c : column) : nat :=
  match c with
  | Dense a => length (rows a) * prod_list (tail a)
  | Sparse m => length (concat (sprows m))
  end.

(** [v.ndim] and [v.shape[-1]] of an array. *)
Definition ndim (a : ndarray) : nat := S (length (tail a)).
Definition last_dim (a : ndarray) : nat := List.last (tail a) (length (rows a)).

(** The rows of a column under a transformation of the row list. *)
Definition map_rows (f : forall A : Type, list A -> list A) (c : column) : column :=
  match c with
  | Dense a => Dense (NdArray (tail a) (f _ (rows a)))
  | Sparse m => Sparse (SpMatrix (ncols m) (f _ (sprows m)))
  end.

(** [v[start:stop]]: a negative bound counts from the end, and both bounds
    are clipped to the array, so a slice never raises. *)
Definition slice_bound (i : Z) (len : nat) : nat :=
  if (i <? 0)%Z then Z.to_nat (Z.max 0 (i + Z.of_nat len))
  else Nat.min (Z.to_nat i) len.
Definition slice_list (start stop : Z) (A : Type) (l : list A) : list A :=
  let a := slice_bound start (length l) in
  let b := slice_bound stop (length l) in
  take (b - a) (drop a l).
Definition col_slice (start stop : Z) (c : column) : column :=
  map_rows (slice_list start stop) c.

(** [v[mask]] for a boolean mask; numpy and scipy raise [IndexError] when
    the mask is not as long as the leading axis. *)
Fixpoint mask_filter (mask : list bool) (A : Type) (l : list A) : list A :=
  match mask, l with
  | b :: mask', x :: l' =>
      if b then x :: mask_filter mask' A l' else mask_filter mask' A l'
  | _, _ => []
  end.
Definition col_mask (mask : list bool) (c : column) : result column :=
  if decide (length mask = nrows c) then Ok (map_rows (mask_filter mask) c)
  else Raise IndexError.

(** [v[ids]] for an array of row indices; an index past the end raises. *)
Definition take_ids {A : Type} (ids : list nat) (l : list A) : result (list A) :=
  rmapM (fun i => of_option IndexError (l !! i)) ids.
Definition col_take (ids : list nat) (c : column) : result column :=
  match c with
  | Dense a => let* rs := take_ids ids (rows a) in Ok (Dense (NdArray (tail a) rs))
  | Sparse m => let* rs := take_ids ids (sprows m) in Ok (Sparse (SpMatrix (ncols m) rs))
  end.

(** The two kinds of index the source passes to [v[...]]. *)
Inductive index : Type :=
| Mask (mask : list bool)
| Ids (ids : list nat).

Definition col_index (ix : index) (c : column) : result column :=
  match ix with
  | Mask mask => col_mask mask c
  | Ids ids => col_take ids c
  end.

(** [np.concatenate] along the leading axis of columns of one kind and one
    trailing shape; anything else is refused by numpy. *)
Definition col_concat2 (c1 c2 : column) : result column :=
  match c1, c2 with
  | Dense a1, Dense a2 =>
      if decide (tail a1 = tail a2)
      then Ok (Dense (NdArray (tail a1) (rows a1 ++ rows a2)))
      else Raise ShapeMismatchError
  | _, _ => Raise ShapeMismatchError
  end.

(** ** The table *)

Definition table : Type := dict (list column).

(** The columns of a table in the order
    [for values in self.data.values() for v in values]. *)
Definition columns (t : table) : list column := concat (dict_values t).

(** ** Container operations *)

(** [self.data[key].append(v)] *)
Definition dict_append {V : Type} (d : dict (list V)) (k : string) (v : V)
  : dict (list V) :=
  match dict_get d k with
  | Some l => dict_set d k (l ++ [v])
  | None => d
  end.

(** [add_features]: a mutating method; the pair is the table it leaves
    behind and how the call ended. *)
Definition add_features (key : string) (features : list column) (t : table)
  : table * result unit :=
  match features with
  | [] => (t, Ok tt)
  | _ :: _ =>
      if dict_contains t key then (t, Raise DuplicateKeyError)
      else
        let t1 := dict_set t key [] in
        let t2 :=
          fold_left
            (fun acc data => if 0 <? size data then dict_append acc key data else acc)
            features t1 in
        match dict_get t2 key with
        | Some (_ :: _) => (t2, Ok tt)
        | _ => (dict_del t2 key, Ok tt)
        end
  end.

(** [x.shape[0]] of the rows [x] of a column, evaluated once per row. *)
Definition row_shape0 (c : column) : result nat :=
  match c with
  | Dense a => of_option IndexError (head (tail a))
  | Sparse _ => Ok 1
  end.

(** [np.array([np.ones((x.shape[0], 1)) for x in data])]; the ones are
    kept as the integer 1. *)
Definition mask_of (c : column) : result column :=
  let* ms := rmapM (fun _ : nat => row_shape0 c) (seq 0 (nrows c)) in
  Ok (Dense (NdArray (match ms with m :: _ => [m; 1] | [] => [] end)
                     (map (fun m => repeat 1%Z m) ms))).

(** [add_mask]: the key is reset before the source columns are read, and
    the loop stops at the first column with elements. *)
Definition add_mask (key from_key : string) (t : table) : table * result unit :=
  match dict_get t from_key with
  | None | Some [] => (t, Ok tt)
  | Some (_ :: _) =>
      let t1 := dict_set t key [] in
      match dict_get t1 from_key with
      | None => (t1, Raise KeyError)
      | Some cols =>
          match List.find (fun data => 0 <? size data) cols with
          | None => (t1, Ok tt)
          | Some data =>
              match mask_of data with
              | Ok mask => (dict_append t1 key mask, Ok tt)
              | Raise e => (t1, Raise e)
              end
          end
      end
  end.

(** [get_number_of_examples] *)
Definition example_lengths (t : table) : list nat := map nrows (columns t).

Definition get_number_of_examples (t : table) : result nat :=
  let lens := example_lengths t in
  if negb (forallb (fun len => len =? hd 0 lens) lens)
  then Raise InconsistentSizeError
  else of_option IndexError (head lens).


(** ** Label grouping *)

(** A derived label id: the value itself, or the string joined from a row. *)
Inductive label : Type :=
| LNum (z : Z)
| LStr (s : string).

Global Instance label_eq_dec : EqDecision label.
Proof. solve_decision. Defined.

(** [row.astype("str")] on integers and [" ".join(...)]. *)
Definition str_of_Z (z : Z) : string := NilZero.string_of_int (Z.to_int z).
Definition join_row (row : list Z) : string := String.concat " " (map str_of_Z row).

(** [_create_label_ids]; the cases are tried in the order of the source.
    A row of a 1-D array is a single number, and so is a row of a 2-D
    array whose last dimension is 1. *)
Definition _create_label_ids (label_ids : ndarray) : result (list label) :=
  if decide (ndim label_ids = 1) then
    Ok (map (fun row => LNum (hd 0%Z row)) (rows label_ids))
  else if decide (ndim label_ids = 2 /\ last_dim label_ids = 1) then
    Ok (map (fun row => LNum (hd 0%Z row)) (rows label_ids))
  else if decide (ndim label_ids = 2) then
    Ok (map (fun row => LStr (join_row row)) (rows label_ids))
  else if decide (ndim label_ids = 3 /\ last_dim label_ids = 1) then
    Ok (map (fun row => LStr (join_row row)) (rows label_ids))
  else Raise UnsupportedShapeError.

(** The order [np.unique] sorts by: numbers by value, strings
    lexicographically. *)
Definition label_leb (a b : label) : bool :=
  match a, b with
  | LNum x, LNum y => (x <=? y)%Z
  | LNum _, LStr _ => true
  | LStr _, LNum _ => false
  | LStr x, LStr y => String.leb x y
  end.
Definition label_le (a b : label) : Prop := label_leb a b = true.
Global Instance label_le_dec : RelDecision label_le.
Proof. intros a b. unfold label_le. apply _. Defined.

(** [np.unique(label_ids, return_counts=True, axis=0)]: the distinct ids in
    sorted order, and how often each occurs. *)
Definition count_label (ids : list label) (u : label) : nat :=
  length (filter (fun l => l = u) ids).
Definition unique_labels (ids : list label) : list label :=
  merge_sort label_le (remove_dups ids).
Definition np_unique (ids : list label) : list label * list nat :=
  let us := unique_labels ids in (us, map (count_label ids) us).

(** [dict(zip(unique, counts))] and its lookup. *)
Definition label_counts_of (ids : list label) : list (label * nat) :=
  let '(us, cs) := np_unique ids in zip us cs.
Fixpoint label_counts_get (d : list (label * nat)) (l : label) : option nat :=
  match d with
  | [] => None
  | (l', c) :: r => if decide (l' = l) then Some c else label_counts_get r l
  end.

(** [_check_label_key] *)
Definition _check_label_key (label_key : string) (t : table) : result unit :=
  match dict_get t label_key with
  | None => Raise MissingKeyError
  | Some cols => if 1 <? length cols then Raise MissingKeyError else Ok tt
  end.

(** [self._create_label_ids(self.data[label_key][0])]; the annotated type
    of a label column is an array. *)
Definition label_ids_of (label_key : string) (t : table) : result (list label) :=
  let* cols := of_option KeyError (dict_get t label_key) in
  let* col0 := of_option IndexError (head cols) in
  match col0 with
  | Dense a => _create_label_ids a
  | Sparse _ => Raise TypeError
  end.

(** [_check_train_test_sizes] *)
Definition _check_train_test_sizes
    (number_of_test_examples : Z) (label_counts : list (label * nat)) (t : table)
  : result unit :=
  let* number_of_total_examples := get_number_of_examples t in
  if (number_of_test_examples >=?
        Z.of_nat number_of_total_examples - Z.of_nat (length label_counts))%Z
  then Raise TooManyExamplesError
  else if (number_of_test_examples <? Z.of_nat (length label_counts))%Z
  then Raise TooFewExamplesError
  else Ok tt.

(** [_data_for_ids]: [new_data] is a [defaultdict], so a key appears in it
    only once a column has been appended under it. *)
Definition drop_empty_keys {V : Type} (d : dict (list V)) : dict (list V) :=
  List.filter (fun kv => match snd kv with [] => false | _ :: _ => true end) d.

Definition _data_for_ids (ix : index) (t : table) : result table :=
  let* entries :=
    rmapM (fun kv : string * list column =>
             let* vs := rmapM (col_index ix) (snd kv) in Ok (fst kv, vs)) t in
  Ok (drop_empty_keys entries).

(** [_split_by_label_ids] *)
Definition _split_by_label_ids (label_ids unique_label_ids : list label) (t : table)
  : result (list table) :=
  rmapM (fun label_id =>
           _data_for_ids (Mask (map (fun l => bool_decide (l = label_id)) label_ids)) t)
        unique_label_ids.

(** ** The process-wide random source

    [np.random] is a stream of draws: the [k]-th call of
    [np.random.permutation(n)] returns [draw k n]. *)
Record rng : Type := Rng {
  draw : nat -> nat -> list nat;
  used : nat
}.

Definition permutation (g : rng) (n : nat) : list nat * rng :=
  (draw g (used g) n, Rng (draw g) (S (used g))).

(** [shuffle] *)
Definition shuffle (t : table) (g : rng) : result (table * rng) :=
  let* data_points := get_number_of_examples t in
  let '(ids, g') := permutation g data_points in
  let* t' := _data_for_ids (Ids ids) t in
  Ok (t', g').

(** ** Splitter *)

(** scikit-learn's stratified sampler, an external library: from the number
    of samples, the requested test size, the seed passed as [random_state]
    and the stratification labels it chooses the train and the test row
    indices, or refuses ([None]) with a ValueError of its own. *)
Record sklearn : Type := Sklearn {
  stratified_indices : nat -> Z -> Z -> list label -> option (list nat * list nat)
}.

(** [train_test_split] applied to the unpacked list of arrays: every
    array is indexed by the same two index lists and the results are
    returned flat, train before test. *)
Definition train_test_split
    (sk : sklearn) (arrays : list column) (test_size random_state : Z)
    (stratify : list label) : result (list column) :=
  match arrays with
  | [] => Raise SklearnError
  | a0 :: _ =>
      if forallb (fun a => nrows a =? nrows a0) arrays then
        let* ids :=
          of_option SklearnError
            (stratified_indices sk (nrows a0) test_size random_state stratify) in
        let* parts :=
          rmapM (fun a => let* tr := col_take (fst ids) a in
                          let* te := col_take (snd ids) a in
                          Ok [tr; te]) arrays in
        Ok (concat parts)
      else Raise SklearnError
  end.

(** [_combine_features] *)
Definition _combine_features (feature_1 feature_2 : column) : result column :=
  match feature_1, feature_2 with
  | Sparse m1, Sparse m2 =>
      if nrows feature_2 =? 0 then Ok feature_1
      else if nrows feature_1 =? 0 then Ok feature_2
      else if decide (ncols m1 = ncols m2)
      then Ok (Sparse (SpMatrix (ncols m1) (sprows m1 ++ sprows m2)))
      else Raise ShapeMismatchError
  | _, _ => col_concat2 feature_1 feature_2
  end.

(** [_convert_train_test_split]: two passes over the items of the table,
    each with its running [index]. *)
Fixpoint train_columns (n index : nat) (output_values solo_values : list column)
  : result (list column) :=
  match n with
  | 0 => Ok []
  | S n' =>
      let* o := of_option IndexError (output_values !! (index * 2)) in
      let* s := of_option IndexError (solo_values !! index) in
      let* c := _combine_features o s in
      let* r := train_columns n' (S index) output_values solo_values in
      Ok (c :: r)
  end.

Fixpoint val_columns (n index : nat) (output_values : list column)
  : result (list column) :=
  match n with
  | 0 => Ok []
  | S n' =>
      let* o := of_option IndexError (output_values !! (index * 2 + 1)) in
      let* r := val_columns n' (S index) output_values in
      Ok (o :: r)
  end.

Fixpoint convert_items
    (per_key : nat -> nat -> result (list column))
    (items : table) (index : nat) : result table :=
  match items with
  | [] => Ok []
  | (key, values) :: rest =>
      let* cs := per_key (length values) index in
      let* r := convert_items per_key rest (index + length values) in
      Ok (match cs with [] => r | _ :: _ => (key, cs) :: r end)
  end.

Definition _convert_train_test_split
    (t : table) (output_values solo_values : list column) : result (table * table) :=
  let* data_train :=
    convert_items (fun n i => train_columns n i output_values solo_values) t 0 in
  let* data_val := convert_items (fun n i => val_columns n i output_values) t 0 in
  Ok (data_train, data_val).

(** [split] *)
Definition split
    (sk : sklearn) (number_of_test_examples random_seed : Z) (label_key : string)
    (t : table) : result (table * table) :=
  let* _ := _check_label_key label_key t in
  let* label_ids := label_ids_of label_key t in
  let label_counts := label_counts_of label_ids in
  let* _ := _check_train_test_sizes number_of_test_examples label_counts t in
  let* counts :=
    rmapM (fun l => of_option KeyError (label_counts_get label_counts l)) label_ids in
  let* multi_values := rmapM (col_mask (map (fun c => 1 <? c) counts)) (columns t) in
  let* solo_values := rmapM (col_mask (map (fun c => c =? 1) counts)) (columns t) in
  let* output_values :=
    train_test_split sk multi_values number_of_test_examples random_seed
      (mask_filter (map (fun c => 1 <? c) counts) _ label_ids) in
  _convert_train_test_split t output_values solo_values.

(** ** Balancer *)

(** What the round loop of [balance] mutates. *)
Record bal_state : Type := BalState {
  data_idx : list Z;
  num_data_cycles : list nat;
  skipped : list bool;
  new_data : dict (list (list column))
}.

(** [min(num_data_cycles)]; of an empty list it raises. *)
Definition min_cycles (l : list nat) : result nat :=
  match l with
  | [] => Raise EmptySequenceError
  | x :: r => Ok (fold_left Nat.min r x)
  end.

(** One pass of [for i, v in enumerate(values)] under a key [k]:
    [new_data[k]] grows by an empty list when it is too short, and the
    slice is appended to its [i]-th list. *)
Fixpoint append_slices_key
    (start stop : Z) (values : list column) (i : nat) (cur : list (list column))
  : result (list (list column)) :=
  match values with
  | [] => Ok cur
  | v :: rest =>
      let cur1 := if length cur <? i + 1 then cur ++ [[]] else cur in
      let* at_i := of_option IndexError (cur1 !! i) in
      append_slices_key start stop rest (S i)
        (<[i := at_i ++ [col_slice start stop v]]> cur1)
  end.

(** [for k, values in label_data[index].items(): ...]; reading
    [new_data[k]] creates the key. *)
Fixpoint append_slices
    (start stop : Z) (class_data : table) (nd : dict (list (list column)))
  : result (dict (list (list column))) :=
  match class_data with
  | [] => Ok nd
  | (k, []) :: rest => append_slices start stop rest nd
  | (k, values) :: rest =>
      let cur := match dict_get nd k with Some c => c | None => [] end in
      let* cur' := append_slices_key start stop values 0 cur in
      append_slices start stop rest (dict_set nd k cur')
  end.

(** The parts of [balance] that stay fixed while it loops.  [scale c n b]
    is [int(c / n * b)], a double-precision quotient and product truncated
    towards zero. *)
Record bal_env : Type := BalEnv {
  scale : nat -> nat -> Z -> Z;
  batch_size : Z;
  do_shuffle : bool;
  counts_label_ids : list nat;
  label_data : list table;
  num_examples : nat
}.

(** The body of [for index in indices_of_labels]; the boolean tells whether
    the loop is left by [break]. *)
Definition visit (env : bal_env) (index : nat) (st : bal_state)
  : result (bal_state * bool) :=
  let* cycles := of_option IndexError (num_data_cycles st !! index) in
  let* skip := of_option IndexError (skipped st !! index) in
  if (0 <? cycles) && negb skip then
    Ok (BalState (data_idx st) (num_data_cycles st)
                 (<[index := true]> (skipped st)) (new_data st), false)
  else
    let skipped' := <[index := false]> (skipped st) in
    let* count := of_option IndexError (counts_label_ids env !! index) in
    let index_batch_size :=
      (scale env count (num_examples env) (batch_size env) + 1)%Z in
    let* class_data := of_option IndexError (label_data env !! index) in
    let* idx := of_option IndexError (data_idx st !! index) in
    let* new_data' :=
      append_slices idx (idx + index_batch_size)%Z class_data (new_data st) in
    let idx' := (idx + index_batch_size)%Z in
    let wrapped := (idx' >=? Z.of_nat count)%Z in
    let num_data_cycles' :=
      if wrapped then <[index := S cycles]> (num_data_cycles st)
      else num_data_cycles st in
    let data_idx' :=
      if wrapped then <[index := 0%Z]> (data_idx st)
      else <[index := idx']> (data_idx st) in
    let* m := min_cycles num_data_cycles' in
    Ok (BalState data_idx' num_data_cycles' skipped' new_data', 0 <? m).

Fixpoint for_indices (env : bal_env) (indices : list nat) (st : bal_state)
  : result bal_state :=
  match indices with
  | [] => Ok st
  | index :: rest =>
      let* r := visit env index st in
      if snd r then Ok (fst r) else for_indices env rest (fst r)
  end.

(** [while min(num_data_cycles) == 0]; [None] when the fuel runs out
    before the loop ends. *)
Fixpoint while_rounds (fuel : nat) (env : bal_env) (st : bal_state) (g : rng)
  : option (result (bal_state * rng)) :=
  match min_cycles (num_data_cycles st) with
  | Raise e => Some (Raise e)
  | Ok m =>
      if m =? 0 then
        match fuel with
        | 0 => None
        | S fuel' =>
            let num_label_ids := length (counts_label_ids env) in
            let '(indices_of_labels, g') :=
              if do_shuffle env then permutation g num_label_ids
              else (seq 0 num_label_ids, g) in
            match for_indices env indices_of_labels st with
            | Raise e => Some (Raise e)
            | Ok st' => while_rounds fuel' env st' g'
            end
        end
      else Some (Ok (st, g))
  end.

(** [np.concatenate(np.array(v))] over the slices gathered for a column. *)
Fixpoint col_concat (slices : list column) : result column :=
  match slices with
  | [] => Raise ShapeMismatchError
  | [c] => match c with Dense _ => Ok c | Sparse _ => Raise ShapeMismatchError end
  | c :: rest => let* r := col_concat rest in col_concat2 c r
  end.

Definition final_data (nd : dict (list (list column))) : result table :=
  let* entries :=
    rmapM (fun kv : string * list (list column) =>
             let* vs := rmapM col_concat (snd kv) in Ok (fst kv, vs)) nd in
  Ok (drop_empty_keys entries).

(** [balance]; the table and the random source it leaves behind. *)
Definition balance
    (fuel : nat) (scale : nat -> nat -> Z -> Z) (batch_size : Z) (shuffle : bool)
    (label_key : string) (t : table) (g : rng) : option (result (table * rng)) :=
  match _check_label_key label_key t with
  | Raise e => Some (Raise e)
  | Ok _ =>
  match label_ids_of label_key t with
  | Raise e => Some (Raise e)
  | Ok label_ids =>
      let '(unique_label_ids, counts) := np_unique label_ids in
      let num_label_ids := length unique_label_ids in
      match _split_by_label_ids label_ids unique_label_ids t with
      | Raise e => Some (Raise e)
      | Ok label_data =>
      match get_number_of_examples t with
      | Raise e => Some (Raise e)
      | Ok num_examples =>
          let env := BalEnv scale batch_size shuffle counts label_data num_examples in
          let st0 := BalState (replicate num_label_ids 0%Z) (replicate num_label_ids 0)
                              (replicate num_label_ids false) [] in
          match while_rounds fuel env st0 g with
          | None => None
          | Some (Raise e) => Some (Raise e)
          | Some (Ok (st, g')) =>
              Some (let* t' := final_data (new_data st) in Ok (t', g'))
          end
      end
      end
  end
  end.

(** ** Batch generator *)

(** Modelled from the spec: [train_utils.prepare_batch], which is not part
    of the sources at hand.  A batch is the row range [start:end] of every
    column, in the order of the table, converted to the representation the
    consumer expects: a dense slice passes through as one element, a
    sparse slice is decomposed into three elements, its indices, its
    values and its dense shape.  An index has the three coordinates, and
    the shape the three dimensions, that [_get_shapes_types] declares for
    them: the example within the batch, the row within the example, which
    is 0 for the 1 x ncols rows of a scipy matrix, and the column. *)
Inductive tensor : Type :=
| TDense (a : ndarray)
| TIndices (ix : list (list nat))
| TValues (vs : list Z)
| TShape (dims : list nat).

(** The stored entries of the rows from example [i] on, each with its
    index. *)
Fixpoint sparse_entries (i : nat) (rs : list (list (nat * Z)))
  : list (list nat * Z) :=
  match rs with
  | [] => []
  | r :: rest => map (fun e => ([i; 0; fst e], snd e)) r ++ sparse_entries (S i) rest
  end.

Definition to_tensors (c : column) : list tensor :=
  match c with
  | Dense a => [TDense a]
  | Sparse m =>
      [TIndices (map fst (sparse_entries 0 (sprows m)));
       TValues (map snd (sparse_entries 0 (sprows m)));
       TShape [length (sprows m); 1; ncols m]]
  end.

Definition prepare_batch (data : table) (start stop : Z) : list tensor :=
  concat (map (fun c => to_tensors (col_slice start stop c)) (columns data)).

(** The batches [_gen_batch] yields until it is exhausted, together with
    the table and the random source it leaves behind.  The generator body
    runs as a whole here; the consumer sees the same batches one by one. *)
Definition _gen_batch
    (fuel : nat) (scale : nat -> nat -> Z -> Z) (batch_size : Z) (label_key : string)
    (batch_strategy : string) (do_shuffle : bool) (t : table) (g : rng)
  : option (result (list (list tensor) * table * rng)) :=
  let shuffled := if do_shuffle then shuffle t g else Ok (t, g) in
  match shuffled with
  | Raise e => Some (Raise e)
  | Ok (t1, g1) =>
      let balanced :=
        if decide (batch_strategy = "balanced")
        then balance fuel scale batch_size do_shuffle label_key t1 g1
        else Some (Ok (t1, g1)) in
      match balanced with
      | None => None
      | Some (Raise e) => Some (Raise e)
      | Some (Ok (t2, g2)) =>
          Some (let* num_examples := get_number_of_examples t2 in
                if (batch_size =? 0)%Z then Raise ZeroDivisionError
                else
                  let n := Z.of_nat num_examples in
                  let num_batches :=
                    (n / batch_size + (if 0 <? n mod batch_size then 1 else 0))%Z in
                  Ok (map (fun batch_num =>
                             let start := (Z.of_nat batch_num * batch_size)%Z in
                             let stop := (start + batch_size)%Z in
                             prepare_batch t2 start stop)
                          (seq 0 (Z.to_nat num_batches)),
                      t2, g2))
      end
  end.

(** * Vocabulary of the statements

    Sample inputs, the predicates the theorems are stated with, and the
    bookkeeping of the proofs about [split] and [balance]. *)

Definition sample_dense : column := Dense (NdArray [2] [[1; 2]; [3; 4]; [5; 6]]%Z).

Definition sample_table : table := [("text_features", [sample_dense])].

(** Inputs for the examples: a table of ten rows, the scaling computed
    exactly, and a random source that always draws the identity. *)
Definition ten_rows : table :=
  [("text_features",
    [Dense (NdArray [1] (map (fun i => [Z.of_nat i]) (seq 0 10)))]);
   ("label_ids", [Dense (NdArray [] (map (fun i => [Z.of_nat (i mod 3)]) (seq 0 10)))])].

(** [int(count / num_examples * batch_size)] where the quotient and the
    product are exact in double precision. *)
Definition exact_scale (count num_examples : nat) (batch_size : Z) : Z :=
  (Z.of_nat count * batch_size ÷ Z.of_nat num_examples)%Z.

Definition identity_rng : rng := Rng (fun _ n => seq 0 n) 0.

(** Two columns of the table differ in their number of rows. *)
Definition columns_disagree (t : table) : Prop :=
  exists c1 c2, In c1 (columns t) /\ In c2 (columns t) /\ nrows c1 <> nrows c2.

(** An array of shape (0, 3). *)
Definition empty_dense : column := Dense (NdArray [3] []).

(** A result that is not one of the two size errors. *)
Definition no_size_error {A : Type} (r : result A) : Prop :=
  r <> Raise TooManyExamplesError /\ r <> Raise TooFewExamplesError.

(** A sampler for the examples: it holds out the first [test_size] rows. *)
Definition first_rows_sampler : sklearn :=
  Sklearn (fun n_samples test_size _ _ =>
             if (0 <=? test_size)%Z && (Z.to_nat test_size <=? n_samples)
             then Some (seq (Z.to_nat test_size) (n_samples - Z.to_nat test_size),
                        seq 0 (Z.to_nat test_size))
             else None).

(** A table that holds nothing but a 1-D label column. *)
Definition labelled (ids : list Z) : table :=
  [("label_ids", [Dense (NdArray [] (map (fun z => [z]) ids))])].

(** A second sampler: it agrees with [first_rows_sampler] for seed 42 and
    holds out the last rows for any other seed. *)
Definition seed_sensitive_sampler : sklearn :=
  Sklearn (fun n_samples test_size random_state strat =>
             if (random_state =? 42)%Z
             then stratified_indices first_rows_sampler n_samples test_size
                                     random_state strat
             else if (0 <=? test_size)%Z && (Z.to_nat test_size <=? n_samples)
             then Some (seq 0 (n_samples - Z.to_nat test_size),
                        seq (n_samples - Z.to_nat test_size) (Z.to_nat test_size))
             else None).

(** [regroup items vs] deals the columns [vs] out to the keys of [items],
    as many to each key as it holds columns. *)
Fixpoint regroup {V W : Type} (items : dict (list V)) (vs : list W) : dict (list W) :=
  match items with
  | [] => []
  | (key, values) :: rest =>
      (key, take (length values) vs) :: regroup rest (drop (length values) vs)
  end.

(** The id [_create_label_ids] gives to a row, by the trailing shape. *)
Definition row_label (tl : list nat) : option (list Z -> label) :=
  match tl with
  | [] => Some (fun row => LNum (hd 0%Z row))
  | [w] => if decide (w = 1) then Some (fun row => LNum (hd 0%Z row))
           else Some (fun row => LStr (join_row row))
  | [_; w] => if decide (w = 1) then Some (fun row => LStr (join_row row)) else None
  | _ => None
  end.

(** The masks [counts > 1] and [counts == 1] over the label ids. *)
Definition is_multi (ids : list label) (l : label) : bool := 1 <? count_label ids l.

Definition is_solo (ids : list label) (l : label) : bool := count_label ids l =? 1.

(** How the columns of the two tables returned by [split] are made. *)
Definition test_column_of (ids : list label) (teI : list nat) (c c' : column) : Prop :=
  exists m, col_mask (map (is_multi ids) ids) c = Ok m /\ col_take teI m = Ok c'.

Definition train_column_of (ids : list label) (trI : list nat) (c c' : column) : Prop :=
  exists m s tr,
    col_mask (map (is_multi ids) ids) c = Ok m /\
    col_mask (map (is_solo ids) ids) c = Ok s /\
    col_take trI m = Ok tr /\ _combine_features tr s = Ok c'.

(** The slice length of a class with [count] rows. *)
Definition index_batch_size (env : bal_env) (count : nat) : Z :=
  (scale env count (num_examples env) (batch_size env) + 1)%Z.

(** The state after a class has been skipped, and after a slice of it has
    been taken. *)
Definition skip_state (index : nat) (st : bal_state) : bal_state :=
  BalState (data_idx st) (num_data_cycles st) (<[index := true]> (skipped st))
           (new_data st).

Definition advance_state (env : bal_env) (index cycles count : nat) (idx : Z)
    (nd : dict (list (list column))) (st : bal_state) : bal_state :=
  let idx' := (idx + index_batch_size env count)%Z in
  let wrapped := (idx' >=? Z.of_nat count)%Z in
  BalState
    (if wrapped then <[index := 0%Z]> (data_idx st) else <[index := idx']> (data_idx st))
    (if wrapped then <[index := S cycles]> (num_data_cycles st) else num_data_cycles st)
    (<[index := false]> (skipped st)) nd.

(** A class that has not completed a pass still owes the rows from its
    cursor to its end; a class that has completed one owes nothing. *)
Definition owed (env : bal_env) (st : bal_state) (i : nat) : nat :=
  match num_data_cycles st !! i, data_idx st !! i, counts_label_ids env !! i with
  | Some 0, Some idx, Some count => Z.to_nat (Z.of_nat count - idx)
  | _, _, _ => 0
  end.

Definition total_owed (env : bal_env) (st : bal_state) : nat :=
  list_sum (map (owed env st) (seq 0 (length (counts_label_ids env)))).

(** The cursors stay inside their classes. *)
Definition cursors_ok (env : bal_env) (st : bal_state) : Prop :=
  forall i idx count,
    data_idx st !! i = Some idx -> counts_label_ids env !! i = Some count ->
    (0 <= idx < Z.of_nat count)%Z.

(** The environment of a run with a batch size that is not negative. *)
Definition env_ok (env : bal_env) : Prop :=
  (forall c, (0 <= scale env c (num_examples env) (batch_size env))%Z) /\
  (forall i count, counts_label_ids env !! i = Some count -> 0 < count).

(** The random source hands out permutations. *)
Definition rng_ok (g : rng) : Prop := forall k n, draw g k n ≡ₚ seq 0 n.

(** The state [balance] starts its rounds from. *)
Definition initial_state (num_label_ids : nat) : bal_state :=
  BalState (replicate num_label_ids 0%Z) (replicate num_label_ids 0)
           (replicate num_label_ids false) [].

(** A table with every column replaced by [f] of it. *)
Definition map_cols {V W : Type} (f : V -> W) (d : dict (list V)) : dict (list W) :=
  map (fun kv => (fst kv, map f (snd kv))) d.

(** No key of the table is bound to an empty list. *)
Definition no_empty_keys {V : Type} (d : dict (list V)) : Prop :=
  forall kv, In kv d -> snd kv <> [].

(** One slice taken from a class: the class index and the bounds of the
    slice within the rows of that class. *)
Record step : Type := Step {
  s_class : nat;
  s_start : Z;
  s_stop : Z
}.

Section Steps.

Variable ids : list label.
Variable t0 : table.
Variable env : bal_env.

(** The mask [label_ids == label_id] of the [i]-th class. *)
Definition class_mask (i : nat) : list bool :=
  match unique_labels ids !! i with
  | Some u => map (fun l => bool_decide (l = u)) ids
  | None => []
  end.

(** What a step selects from the rows of a column. *)
Definition apply_step (s : step) (A : Type) (l : list A) : list A :=
  slice_list (s_start s) (s_stop s) A (mask_filter (class_mask (s_class s)) A l).

Definition step_col (s : step) (c : column) : column := map_rows (apply_step s) c.

(** [new_data] after the given steps. *)
Definition stacked (steps : list step) : dict (list (list column)) :=
  match steps with
  | [] => []
  | _ :: _ => map_cols (fun c => map (fun s => step_col s c) steps) t0
  end.

(** Every position of a class before its cursor, and every position of a
    class with a completed pass, is inside one of the steps. *)
Definition covered (st : bal_state) (steps : list step) : Prop :=
  forall i count p,
    counts_label_ids env !! i = Some count -> p < count ->
    (exists cyc, num_data_cycles st !! i = Some cyc /\ 0 < cyc) \/
    (exists idx, data_idx st !! i = Some idx /\ (Z.of_nat p < idx)%Z) ->
    exists s, In s steps /\ s_class s = i /\
              (0 <= s_start s <= Z.of_nat p)%Z /\ (Z.of_nat p < s_stop s)%Z.

(** What holds of the state of [balance] after the given steps. *)
Definition rows_inv (st : bal_state) (steps : list step) : Prop :=
  new_data st = stacked steps /\ covered st steps /\ cursors_ok env st /\
  length (num_data_cycles st) = length (counts_label_ids env).

End Steps.

(** The row indices the steps select, in the order of the output. *)
Definition selection (ids : list label) (steps : list step) (N : nat) : list nat :=
  concat (map (fun s => apply_step ids s nat (seq 0 N)) steps).



(** The rows of a column, by kind. *)
Definition dense_rows (c : column) : list (list Z) :=
  match c with Dense a => rows a | Sparse _ => [] end.

Definition sparse_rows (c : column) : list (list (nat * Z)) :=
  match c with Dense _ => [] | Sparse m => sprows m end.

(** * Further operations of the table *)

(** [get_signature]: per key, for every column, whether its first entry is
    a sparse matrix and the shape of that entry.  The columns of this
    development are regular: a column is one array, whose examples all
    have the shape [tail], or one scipy matrix, whose examples are its
    rows.  So the first entry of an array is its first row, of shape
    [tail], and the first entry of a sparse matrix is its first row as a
    1 x ncols matrix.  A column without rows has no first entry.  A
    column kept as an object array of per-example arrays of different
    shapes is outside these types; for such a column the shape the source
    reports is that of whichever example comes first. *)
Definition entry_signature (v : column) : result (bool * list nat) :=
  match v with
  | Dense a =>
      match rows a with
      | [] => Raise IndexError
      | _ :: _ => Ok (false, tail a)
      end
  | Sparse m =>
      match sprows m with
      | [] => Raise IndexError
      | _ :: _ => Ok (true, [1; ncols m])
      end
  end.

Definition get_signature (t : table) : result (dict (list (bool * list nat))) :=
  rmapM (fun kv : string * list column =>
           let* sigs := rmapM entry_signature (snd kv) in Ok (fst kv, sigs)) t.

(** [get_feature_dimension]: [data[0].shape[-1]] summed over the columns
    with elements; a 1-D array has scalar entries, whose shape is empty. *)
Definition entry_last_dim (data : column) : result nat :=
  match data with
  | Dense a =>
      match rows a with
      | [] => Raise IndexError
      | _ :: _ =>
          match tail a with
          | [] => Raise IndexError
          | d :: ds => Ok (List.last ds d)
          end
      end
  | Sparse m =>
      match sprows m with
      | [] => Raise IndexError
      | _ :: _ => Ok (ncols m)
      end
  end.

Fixpoint feature_dimension_loop (cols : list column) (number_of_features : nat)
  : result nat :=
  match cols with
  | [] => Ok number_of_features
  | data :: rest =>
      if 0 <? size data then
        let* d := entry_last_dim data in
        feature_dimension_loop rest (number_of_features + d)
      else feature_dimension_loop rest number_of_features
  end.

(** The mapping that holds the table.  [__init__] keeps the dictionary it
    is given, [{}] by default; [_data_for_ids], [balance] and
    [_convert_train_test_split] build a [defaultdict(list)], so that is
    what [shuffle] and [balance] leave behind and what the two tables
    returned by [split] hold.  [self.data[key]] on an absent key raises a
    KeyError in a plain dictionary; in a [defaultdict(list)] it binds the
    key to a new empty list and returns that list. *)
Inductive mapping : Type :=
| PlainDict
| DefaultDict.

Definition getitem (kind : mapping) (t : table) (key : string)
  : table * result (list column) :=
  match dict_get t key with
  | Some cols => (t, Ok cols)
  | None =>
      match kind with
      | PlainDict => (t, Raise KeyError)
      | DefaultDict => (dict_set t key [], Ok [])
      end
  end.

(** The pair is the table the call leaves behind and how it ended. *)
Definition get_feature_dimension (kind : mapping) (key : string) (t : table)
  : table * result nat :=
  let '(t1, read) := getitem kind t key in
  (t1, let* cols := read in feature_dimension_loop cols 0).

(** [_get_shapes_types]: the shapes and types handed to the tensor
    framework.  A shape is a tuple with unknown ([None]) and known
    dimensions; the third shape of a sparse column is written
    [(v[0].ndim + 1)] in the source, which is a number, not a tuple. *)
Inductive tf_type : Type :=
| tf_int64
| tf_float32.

Inductive tf_shape : Type :=
| ShapeTuple (dims : list (option nat))
| ShapeNumber (n : nat).

Definition append_shape (v : column) : result (list tf_shape) :=
  match v with
  | Sparse m =>
      match sprows m with
      | [] => Raise IndexError
      | _ :: _ => Ok [ShapeTuple [None; Some 3]; ShapeTuple [None]; ShapeNumber 3]
      end
  | Dense a =>
      match rows a with
      | [] => Raise IndexError
      | _ :: _ =>
          match tail a with
          | [] => Ok [ShapeTuple [None]]
          | [d] => Ok [ShapeTuple [None; Some d]]
          | d :: ds => Ok [ShapeTuple [None; None; Some (List.last ds d)]]
          end
      end
  end.

Definition append_type (v : column) : result (list tf_type) :=
  match v with
  | Sparse m =>
      match sprows m with
      | [] => Raise IndexError
      | _ :: _ => Ok [tf_int64; tf_float32; tf_int64]
      end
  | Dense a =>
      match rows a with
      | [] => Raise IndexError
      | _ :: _ => Ok [tf_float32]
      end
  end.

(** The two lists grow together, column by column. *)
Fixpoint shapes_types_loop (cols : list column)
    (shapes : list tf_shape) (types : list tf_type)
  : result (list tf_shape * list tf_type) :=
  match cols with
  | [] => Ok (shapes, types)
  | v :: rest =>
      let* s := append_shape v in
      let* ty := append_type v in
      shapes_types_loop rest (shapes ++ s) (types ++ ty)
  end.

Definition _get_shapes_types (t : table) : result (list tf_shape * list tf_type) :=
  shapes_types_loop (columns t) [] [].

(** ** Vocabulary of the further statements *)

(** The column whose rows are those of [c] at the indices [ids], where an
    index past the end yields an empty row. *)
Definition rows_at {A : Type} (d : A) (ids : list nat) (l : list A) : list A :=
  map (fun j => nth j l d) ids.
Definition permute_col (ids : list nat) (c : column) : column :=
  match c with
  | Dense a => Dense (NdArray (tail a) (rows_at [] ids (rows a)))
  | Sparse m => Sparse (SpMatrix (ncols m) (rows_at [] ids (sprows m)))
  end.

(** A string without a blank. *)
Fixpoint no_blank (s : string) : bool :=
  match s with
  | EmptyString => true
  | String c r => negb (Ascii.eqb c " "%char) && no_blank r
  end.

(** How many tensors a column with the given signature entry is handed
    over as: three for a sparse column, one for an array. *)
Definition tensors_of (entry : bool * list nat) : nat := if fst entry then 3 else 1.

(** A column that is an array. *)
Definition is_dense (c : column) : bool :=
  match c with Dense _ => true | Sparse _ => false end.

(** The outcome of a run, with the random source it hands back replaced. *)
Definition with_source {A : Type} (g : rng) (r : option (result (A * rng)))
  : option (result (A * rng)) :=
  match r with
  | Some (Ok (x, _)) => Some (Ok (x, g))
  | other => other
  end.

(** The state of [balance] on a table with a single class: during the
    first pass the steps taken so far select the rows before the cursor,
    in order; once the pass is complete they select every row once. *)
Definition in_first_pass (ids : list label) (t0 : table) (st : bal_state)
    (steps : list step) : Prop :=
  new_data st = stacked ids t0 steps /\
  num_data_cycles st = [0] /\
  exists idx : nat,
    data_idx st = [Z.of_nat idx] /\ idx < length ids /\
    selection ids steps (length ids) = seq 0 idx.

Definition pass_done (ids : list label) (t0 : table) (st : bal_state)
    (steps : list step) : Prop :=
  new_data st = stacked ids t0 steps /\
  num_data_cycles st = [1] /\
  selection ids steps (length ids) = seq 0 (length ids).
(** * Properties of the container operations *)

Section DictFacts.
Context {V : Type}.
Implicit Types (d : dict V) (k : string) (v : V).

Lemma dict_get_set_eq d k v : dict_get (dict_set d k v) k = Some v.
Proof.
  induction d as [|[k' v'] d IH]; simpl.
  - by rewrite decide_True.
  - destruct (decide (k' = k)) as [->|Hne]; simpl.
    + by rewrite decide_True.
    + by rewrite decide_False.
Qed.

Lemma dict_get_set_ne d k k' v :
  k <> k' -> dict_get (dict_set d k v) k' = dict_get d k'.
Proof.
  intros Hne. induction d as [|[k0 v0] d IH]; simpl.
  - by rewrite decide_False.
  - destruct (decide (k0 = k)) as [->|Hk]; simpl.
    + by rewrite !decide_False.
    + destruct (decide (k0 = k')); [done | apply IH].
Qed.

Lemma dict_set_set d k v v' : dict_set (dict_set d k v) k v' = dict_set d k v'.
Proof.
  induction d as [|[k0 v0] d IH]; simpl.
  - by rewrite decide_True.
  - destruct (decide (k0 = k)) as [->|Hk]; simpl.
    + by rewrite decide_True.
    + rewrite decide_False by done. by rewrite IH.
Qed.

Lemma dict_contains_true d k : dict_contains d k = true <-> is_Some (dict_get d k).
Proof.
  unfold dict_contains. destruct (dict_get d k); split; intros H; try done.
Qed.
End DictFacts.

Lemma dict_append_set {V : Type} (d : dict (list V)) k l x :
  dict_append (dict_set d k l) k x = dict_set d k (l ++ [x]).
Proof. unfold dict_append. by rewrite dict_get_set_eq, dict_set_set. Qed.

(** ** add_features on a key that is already there *)

(** C7, as stated, fails: with an empty column list the call returns
    before the key is looked at and raises nothing. *)
Lemma add_features_existing_key_empty_list :
  dict_contains sample_table "text_features" = true /\
  add_features "text_features" [] sample_table = (sample_table, Ok tt).
Proof. split; reflexivity. Qed.

(** C7, amended: for a key already in the table, [add_features] fails with
    DuplicateKeyError when the column list is not empty and returns
    normally when it is empty; in both cases the table is left unchanged. *)
Theorem add_features_existing_key (key : string) (features : list column) (t : table) :
  dict_contains t key = true ->
  add_features key features t =
    (t, match features with [] => Ok tt | _ :: _ => Raise DuplicateKeyError end).
Proof.
  intros Hin. unfold add_features.
  destruct features as [|c cs]; [done|]. by rewrite Hin.
Qed.

Lemma add_features_existing_key_witness :
  add_features "text_features" [sample_dense] sample_table =
    (sample_table, Raise DuplicateKeyError).
Proof. apply (add_features_existing_key "text_features" [sample_dense] sample_table). reflexivity. Defined.

(** ** get_number_of_examples *)

Lemma forallb_eq_hd (lens : list nat) :
  forallb (fun len => len =? hd 0 lens) lens = true <->
  (forall a b, In a lens -> In b lens -> a = b).
Proof.
  rewrite forallb_forall. split.
  - intros H a b Ha Hb.
    apply H in Ha, Hb. apply Nat.eqb_eq in Ha, Hb. congruence.
  - intros H x Hx. apply Nat.eqb_eq. apply H; [done|].
    destruct lens; [done | by left].
Qed.

Lemma forallb_false_inv {A : Type} (f : A -> bool) (l : list A) :
  forallb f l = false -> exists x, In x l /\ f x = false.
Proof.
  induction l as [|a l IH]; simpl; [done|].
  destruct (f a) eqn:Ha; simpl.
  - intros H. destruct (IH H) as (x & Hx & Hfx). exists x. auto.
  - intros _. exists a. auto.
Qed.

(** C4, as stated, fails on a table without columns, the table a fresh
    [RasaModelData()] holds: no two columns disagree, and yet nothing is
    returned, since [example_lengths[0]] raises an IndexError. *)
Lemma get_number_of_examples_no_columns :
  ~ columns_disagree [] /\
  get_number_of_examples [] = Raise IndexError /\
  (forall n, get_number_of_examples [] <> Ok n).
Proof.
  split; [|split].
  - intros (c1 & c2 & H1 & _). destruct H1.
  - reflexivity.
  - intros n H. discriminate H.
Qed.

(** C4, amended: [get_number_of_examples] raises InconsistentSizeError if
    and only if two columns disagree on their number of rows; on a table
    with at least one column and no disagreement it returns the number of
    rows that all columns share; on a table without any column it raises
    an IndexError. *)
Theorem get_number_of_examples_spec (t : table) :
  (get_number_of_examples t = Raise InconsistentSizeError <-> columns_disagree t) /\
  (columns t <> [] -> ~ columns_disagree t ->
     exists n, get_number_of_examples t = Ok n /\
               forall c, In c (columns t) -> nrows c = n) /\
  (columns t = [] -> get_number_of_examples t = Raise IndexError).
Proof.
  unfold get_number_of_examples, columns_disagree, example_lengths.
  set (lens := map nrows (columns t)).
  assert (Hall : forallb (fun len => len =? hd 0 lens) lens = true <->
                 forall c1 c2, In c1 (columns t) -> In c2 (columns t) ->
                               nrows c1 = nrows c2).
  { rewrite forallb_eq_hd. subst lens. split.
    - intros H c1 c2 H1 H2. apply H; by apply in_map.
    - intros H a b Ha Hb. apply in_map_iff in Ha as (c1 & <- & H1).
      apply in_map_iff in Hb as (c2 & <- & H2). by apply H. }
  split; [|split].
  - destruct (forallb _ lens) eqn:Hf; simpl.
    + split.
      * intros H. destruct lens; discriminate H.
      * intros (c1 & c2 & H1 & H2 & Hne). exfalso. apply Hne.
        by apply (proj1 Hall).
    + split; [|done]. intros _.
      destruct (columns t) as [|c0 cs] eqn:Hc.
      { subst lens. discriminate Hf. }
      apply forallb_false_inv in Hf as (len & Hin & Hlen).
      subst lens. simpl in Hlen.
      apply in_map_iff in Hin as (c & <- & Hin).
      apply Nat.eqb_neq in Hlen.
      exists c, c0. split; [done|]. split; [by left | done].
  - intros Hne Hagree.
    assert (Hf : forallb (fun len => len =? hd 0 lens) lens = true).
    { apply Hall. intros c1 c2 H1 H2.
      destruct (decide (nrows c1 = nrows c2)) as [|Hd]; [done|].
      exfalso. apply Hagree. by exists c1, c2. }
    rewrite Hf. simpl. subst lens.
    destruct (columns t) as [|c0 cs]; [done|]. simpl.
    exists (nrows c0). split; [done|]. intros c Hin.
    apply (proj1 Hall Hf); [done | by left].
  - intros Hnil. subst lens. by rewrite Hnil.
Qed.

Lemma get_number_of_examples_spec_witness :
  get_number_of_examples sample_table = Ok 3 /\
  forall c, In c (columns sample_table) -> nrows c = 3.
Proof.
  destruct (get_number_of_examples_spec sample_table) as (_ & H & _).
  destruct H as (n & Hn & Hall).
  - discriminate.
  - intros (c1 & c2 & [<-|[]] & [<-|[]] & Hne). by apply Hne.
  - assert (n = 3) as -> by (vm_compute in Hn; congruence). by split.
Defined.

(** ** add_mask *)

(** C9, as stated, fails: a source key that holds only a column without
    elements is not a no-op, the key is bound to an empty list. *)
Lemma add_mask_empty_column_binds_key :
  let t := [("text_features", [empty_dense])] in
  List.find (fun data => 0 <? size data) [empty_dense] = None /\
  add_mask "text_mask" "text_features" t =
    ([("text_features", [empty_dense]); ("text_mask", [])], Ok tt) /\
  fst (add_mask "text_mask" "text_features" t) <> t.
Proof. repeat split. discriminate. Qed.

(** C9, amended: [add_mask] leaves the table unchanged when the source key
    is absent or bound to an empty list of columns.  Otherwise the table it
    leaves behind is the old one with [key], and no other key, (re)bound:
    to the one-element list holding the mask of the first column with
    elements that is read under the source key, and to the empty list when
    no such column is read or the mask cannot be built. *)
Theorem add_mask_frame (key from_key : string) (t : table) :
  (dict_get t from_key = None \/ dict_get t from_key = Some [] ->
     add_mask key from_key t = (t, Ok tt)) /\
  (forall c cols, dict_get t from_key = Some (c :: cols) ->
     let read := if decide (key = from_key) then [] else c :: cols in
     let bound :=
       match List.find (fun data => 0 <? size data) read with
       | Some data => match mask_of data with Ok m => [m] | Raise _ => [] end
       | None => []
       end in
     fst (add_mask key from_key t) = dict_set t key bound /\
     dict_get (fst (add_mask key from_key t)) key = Some bound /\
     forall k, k <> key ->
       dict_get (fst (add_mask key from_key t)) k = dict_get t k).
Proof.
  split.
  - unfold add_mask. by intros [-> | ->].
  - intros c cols Hget read bound.
    assert (Hfst : fst (add_mask key from_key t) = dict_set t key bound).
    { unfold add_mask. rewrite Hget.
      assert (Hread : dict_get (dict_set t key []) from_key = Some read).
      { subst read. destruct (decide (key = from_key)) as [->|Hne].
        - apply dict_get_set_eq.
        - by rewrite dict_get_set_ne. }
      rewrite Hread. subst bound.
      destruct (List.find _ read) as [data|]; [|done].
      destruct (mask_of data) as [m|e]; [|done].
      simpl. by rewrite dict_append_set. }
    split; [done|]. rewrite Hfst. split.
    + apply dict_get_set_eq.
    + intros k Hk. by apply dict_get_set_ne.
Qed.

Lemma add_mask_frame_witness :
  fst (add_mask "text_mask" "text_features" sample_table) =
    [("text_features", [sample_dense]);
     ("text_mask", [Dense (NdArray [2; 1] [[1; 1]; [1; 1]; [1; 1]]%Z)])].
Proof.
  destruct (add_mask_frame "text_mask" "text_features" sample_table) as [_ H].
  destruct (H sample_dense [] eq_refl) as [Hfst _].
  rewrite Hfst. reflexivity.
Defined.

(** ** Label grouping *)

(** C5, as stated, fails: a 3-D column whose rows hold several values in
    the last dimension is refused, not joined. *)
Lemma create_label_ids_3d_multi_valued :
  let a := NdArray [2; 2] [[1; 2; 3; 4]; [5; 6; 7; 8]]%Z in
  ndim a = 3 /\ last_dim a = 2 /\
  _create_label_ids a = Raise UnsupportedShapeError.
Proof. repeat split. Qed.

(** C5, amended: [_create_label_ids] is a function of the column alone; it
    maps a 1-D column to its values, a 2-D column with last dimension 1 to
    the squeezed values, a 2-D column with any other last dimension and a
    3-D column with last dimension 1 to the strings that join the
    stringified components of each row with a blank, and raises
    UnsupportedShapeError for every other shape, among them the 3-D
    columns whose last dimension is not 1. *)
Theorem create_label_ids_spec (a : ndarray) :
  let values := map (fun row => LNum (hd 0%Z row)) (rows a) in
  let joined := map (fun row => LStr (join_row row)) (rows a) in
  (ndim a = 1 -> _create_label_ids a = Ok values) /\
  (ndim a = 2 -> last_dim a = 1 -> _create_label_ids a = Ok values) /\
  (ndim a = 2 -> last_dim a <> 1 -> _create_label_ids a = Ok joined) /\
  (ndim a = 3 -> last_dim a = 1 -> _create_label_ids a = Ok joined) /\
  (ndim a <> 1 -> ndim a <> 2 -> ~ (ndim a = 3 /\ last_dim a = 1) ->
     _create_label_ids a = Raise UnsupportedShapeError).
Proof.
  intros values joined. unfold _create_label_ids.
  repeat split; intros; repeat case_decide; try done; try lia; naive_solver.
Qed.

Lemma create_label_ids_spec_witness :
  _create_label_ids (NdArray [3] [[0; 1; 0]; [-1; 12; 7]]%Z) =
    Ok [LStr "0 1 0"; LStr "-1 12 7"] /\
  _create_label_ids (NdArray [2; 3; 4] []) = Raise UnsupportedShapeError.
Proof.
  split.
  - destruct (create_label_ids_spec (NdArray [3] [[0; 1; 0]; [-1; 12; 7]]%Z))
      as (_ & _ & H & _).
    rewrite H; [reflexivity | reflexivity | discriminate].
  - destruct (create_label_ids_spec (NdArray [2; 3; 4] [])) as (_ & _ & _ & _ & H).
    apply H; [discriminate | discriminate |]. intros [H1 _]. discriminate H1.
Defined.

Example create_label_ids_1d :
  _create_label_ids (NdArray [] [[3]; [1]; [3]]%Z) = Ok [LNum 3; LNum 1; LNum 3].
Proof. reflexivity. Qed.

Example create_label_ids_2d_squeeze :
  _create_label_ids (NdArray [1] [[3]; [1]]%Z) = Ok [LNum 3; LNum 1].
Proof. reflexivity. Qed.

Example create_label_ids_2d_join :
  _create_label_ids (NdArray [3] [[0; 1; 0]; [-1; 12; 7]]%Z) =
    Ok [LStr "0 1 0"; LStr "-1 12 7"].
Proof. reflexivity. Qed.

Example create_label_ids_3d_join :
  _create_label_ids (NdArray [2; 1] [[4; 5]; [6; 7]]%Z) = Ok [LStr "4 5"; LStr "6 7"].
Proof. reflexivity. Qed.

(** ** np.unique *)

Lemma unique_labels_perm (ids : list label) :
  unique_labels ids ≡ₚ remove_dups ids.
Proof. apply merge_sort_Permutation. Qed.

Lemma unique_labels_length (ids : list label) :
  length (unique_labels ids) = length (remove_dups ids).
Proof. by rewrite unique_labels_perm. Qed.

Lemma unique_labels_NoDup (ids : list label) : NoDup (unique_labels ids).
Proof. rewrite unique_labels_perm. apply NoDup_remove_dups. Qed.

Lemma elem_of_unique_labels (ids : list label) (l : label) :
  l ∈ unique_labels ids <-> l ∈ ids.
Proof. rewrite unique_labels_perm. apply elem_of_remove_dups. Qed.

Lemma label_counts_of_length (ids : list label) :
  length (label_counts_of ids) = length (remove_dups ids).
Proof.
  unfold label_counts_of, np_unique.
  rewrite length_zip_with, length_map, unique_labels_length. lia.
Qed.

(** ** The size checks of split *)

Lemma no_size_error_Ok {A : Type} (a : A) : no_size_error (Ok a).
Proof. by split. Qed.

Lemma no_size_error_bind {A B : Type} (m : result A) (k : A -> result B) :
  no_size_error m -> (forall a, no_size_error (k a)) -> no_size_error (rbind m k).
Proof.
  intros [H1 H2] Hk. destruct m as [a|e]; simpl; [apply Hk|].
  split; congruence.
Qed.

Lemma no_size_error_of_option {A : Type} (e : exn) (o : option A) :
  e <> TooManyExamplesError -> e <> TooFewExamplesError ->
  no_size_error (of_option e o).
Proof. intros H1 H2. destruct o; simpl; split; congruence. Qed.

Lemma no_size_error_rmapM {A B : Type} (f : A -> result B) (l : list A) :
  (forall a, no_size_error (f a)) -> no_size_error (rmapM f l).
Proof.
  intros Hf. induction l as [|x l IH]; simpl; [apply no_size_error_Ok|].
  apply no_size_error_bind; [apply Hf|]. intros y.
  apply no_size_error_bind; [apply IH|]. intros ys. apply no_size_error_Ok.
Qed.

Ltac no_size_error_step :=
  first
    [ apply no_size_error_Ok
    | apply no_size_error_of_option; discriminate
    | apply no_size_error_rmapM; intros ?
    | apply no_size_error_bind; [|intros ?] ].

Lemma no_size_error_col_mask mask c : no_size_error (col_mask mask c).
Proof. unfold col_mask. case_decide; split; discriminate. Qed.

Lemma no_size_error_col_take ids c : no_size_error (col_take ids c).
Proof.
  unfold col_take, take_ids. destruct c; repeat no_size_error_step.
Qed.

Lemma no_size_error_col_concat2 c1 c2 : no_size_error (col_concat2 c1 c2).
Proof.
  unfold col_concat2. destruct c1, c2; try (split; discriminate).
  case_decide; split; discriminate.
Qed.

Lemma no_size_error_combine f1 f2 : no_size_error (_combine_features f1 f2).
Proof.
  unfold _combine_features.
  destruct f1, f2; try apply no_size_error_col_concat2.
  repeat (case_match; try apply no_size_error_Ok); split; discriminate.
Qed.

Lemma no_size_error_train_test_split sk arrays n seed strat :
  no_size_error (train_test_split sk arrays n seed strat).
Proof.
  unfold train_test_split. destruct arrays as [|a0 arrays]; [split; discriminate|].
  case_match; [|split; discriminate].
  repeat no_size_error_step; apply no_size_error_col_take.
Qed.

Lemma no_size_error_train_columns n index out solo :
  no_size_error (train_columns n index out solo).
Proof.
  revert index. induction n as [|n IH]; intros index; simpl.
  - apply no_size_error_Ok.
  - repeat no_size_error_step; try apply no_size_error_combine. apply IH.
Qed.

Lemma no_size_error_val_columns n index out :
  no_size_error (val_columns n index out).
Proof.
  revert index. induction n as [|n IH]; intros index; simpl.
  - apply no_size_error_Ok.
  - repeat no_size_error_step. apply IH.
Qed.

Lemma no_size_error_convert_items per_key items index :
  (forall n i, no_size_error (per_key n i)) ->
  no_size_error (convert_items per_key items index).
Proof.
  intros Hk. revert index.
  induction items as [|[key values] items IH]; intros index; simpl.
  - apply no_size_error_Ok.
  - repeat no_size_error_step; [apply Hk | apply IH].
Qed.

Lemma no_size_error_convert t out solo :
  no_size_error (_convert_train_test_split t out solo).
Proof.
  unfold _convert_train_test_split.
  repeat no_size_error_step; apply no_size_error_convert_items; intros n i.
  - apply no_size_error_train_columns.
  - apply no_size_error_val_columns.
Qed.

(** C3, as stated, fails: the test for too many held-out examples comes
    first, so a request below the number of classes that also leaves too
    few examples for training is answered with TooManyExamplesError.
    Here N = 4, C = 3 and n = 2. *)
Lemma split_too_few_shadowed :
  let t := labelled [1; 2; 3; 3]%Z in
  get_number_of_examples t = Ok 4 /\
  label_ids_of "label_ids" t = Ok [LNum 1; LNum 2; LNum 3; LNum 3]%Z /\
  length (remove_dups [LNum 1; LNum 2; LNum 3; LNum 3]%Z) = 3 /\
  (2 < 3)%Z /\
  split first_rows_sampler 2 42 "label_ids" t = Raise TooManyExamplesError /\
  split first_rows_sampler 2 42 "label_ids" t <> Raise TooFewExamplesError.
Proof. vm_compute. repeat split; discriminate. Qed.

(** C3, amended: for a table with N examples whose label key is valid and
    yields C distinct classes, [split] fails with TooManyExamplesError
    whenever N - n < C; when N - n > C it fails with TooFewExamplesError
    exactly when n < C and raises no size error when n >= C. *)
Theorem split_size_errors
    (sk : sklearn) (n seed : Z) (label_key : string) (t : table)
    (ids : list label) (N : nat) :
  _check_label_key label_key t = Ok tt ->
  label_ids_of label_key t = Ok ids ->
  get_number_of_examples t = Ok N ->
  let C := Z.of_nat (length (remove_dups ids)) in
  ((Z.of_nat N - n < C)%Z ->
     split sk n seed label_key t = Raise TooManyExamplesError) /\
  ((Z.of_nat N - n > C)%Z -> (n < C)%Z ->
     split sk n seed label_key t = Raise TooFewExamplesError) /\
  ((Z.of_nat N - n > C)%Z -> (n >= C)%Z ->
     no_size_error (split sk n seed label_key t)).
Proof.
  intros Hkey Hids HN C. unfold split.
  rewrite Hkey, Hids. simpl.
  unfold _check_train_test_sizes. rewrite HN. simpl.
  rewrite label_counts_of_length. fold C.
  split; [|split].
  - intros Hlt. destruct (Z.geb_spec n (Z.of_nat N - C)); [done | lia].
  - intros Hgt Hlt. destruct (Z.geb_spec n (Z.of_nat N - C)); [lia|].
    destruct (Z.ltb_spec n C); [done | lia].
  - intros Hgt Hge. destruct (Z.geb_spec n (Z.of_nat N - C)); [lia|].
    destruct (Z.ltb_spec n C); [lia|]. simpl.
    repeat no_size_error_step;
      auto using no_size_error_col_mask, no_size_error_train_test_split,
                 no_size_error_convert_items, no_size_error_train_columns,
                 no_size_error_val_columns.
Qed.

Lemma split_size_errors_witness :
  split first_rows_sampler 1 42 "label_ids" (labelled [1; 2; 3; 3; 3]%Z) =
    Raise TooFewExamplesError.
Proof.
  destruct (split_size_errors first_rows_sampler 1 42 "label_ids"
              (labelled [1; 2; 3; 3; 3]%Z)
              [LNum 1; LNum 2; LNum 3; LNum 3; LNum 3]%Z 5
              eq_refl eq_refl eq_refl) as (_ & H & _).
  apply H; vm_compute; reflexivity.
Defined.

(** At N - n = C the request is refused although the training part would
    still hold one example per class. *)
Example split_boundary_refused :
  split first_rows_sampler 2 42 "label_ids" (labelled [1; 1; 2; 2]%Z) =
    Raise TooManyExamplesError.
Proof. reflexivity. Qed.

(** ** Reproducibility of split *)

Lemma train_test_split_ext (sk1 sk2 : sklearn) arrays n seed strat :
  (forall m, stratified_indices sk1 m n seed strat =
             stratified_indices sk2 m n seed strat) ->
  train_test_split sk1 arrays n seed strat = train_test_split sk2 arrays n seed strat.
Proof.
  intros H. unfold train_test_split.
  destruct arrays as [|a0 arrays]; [done|]. by rewrite H.
Qed.

(** C8: [split] draws its randomness from the sampler seeded with
    [random_seed] and from nothing else: two runs on equal tables with the
    same n, seed and key, in which the seeded sampler behaves the same,
    return the same (train, test) pair, whatever else differs between the
    runs. *)
Theorem split_deterministic
    (sk1 sk2 : sklearn) (n seed : Z) (label_key : string) (t1 t2 : table) :
  t1 = t2 ->
  (forall m strat, stratified_indices sk1 m n seed strat =
                   stratified_indices sk2 m n seed strat) ->
  split sk1 n seed label_key t1 = split sk2 n seed label_key t2.
Proof.
  intros <- Hsk. unfold split.
  destruct (_check_label_key label_key t1); [simpl|done].
  destruct (label_ids_of label_key t1) as [ids|]; [simpl|done].
  destruct (_check_train_test_sizes n (label_counts_of ids) t1); [simpl|done].
  destruct (rmapM _ ids) as [counts|]; [simpl|done].
  destruct (rmapM _ (columns t1)) as [multi|]; [simpl|done].
  destruct (rmapM _ (columns t1)) as [solo|]; [simpl|done].
  by rewrite (train_test_split_ext sk1 sk2).
Qed.

Lemma split_deterministic_witness :
  split first_rows_sampler 3 42 "label_ids" (labelled [1; 1; 1; 2; 2; 2; 3]%Z) =
  split seed_sensitive_sampler 3 42 "label_ids" (labelled [1; 1; 1; 2; 2; 2; 3]%Z).
Proof.
  apply (split_deterministic first_rows_sampler seed_sensitive_sampler 3 42
           "label_ids" _ _ eq_refl).
  intros m strat. reflexivity.
Defined.

Example split_runs :
  split first_rows_sampler 3 42 "label_ids" (labelled [1; 1; 1; 2; 2; 2; 3]%Z) =
    Ok (labelled [2; 2; 2; 3]%Z, labelled [1; 1; 1]%Z).
Proof. reflexivity. Qed.

(** ** List and size facts used throughout *)

Lemma get_number_of_examples_Ok (t : table) (N : nat) :
  get_number_of_examples t = Ok N ->
  forall c, In c (columns t) -> nrows c = N.
Proof.
  unfold get_number_of_examples, example_lengths. intros H c Hc.
  destruct (forallb _ _) eqn:Hf; [|discriminate H]. simpl in H.
  destruct (columns t) as [|c0 cs] eqn:Hcols; [discriminate H|].
  simpl in H. injection H as <-.
  rewrite forallb_forall in Hf.
  apply Nat.eqb_eq. apply (Hf (nrows c)). by apply in_map.
Qed.

Lemma lookup_map {A B : Type} (f : A -> B) (l : list A) (i : nat) :
  map f l !! i = option_map f (l !! i).
Proof.
  revert i. induction l as [|x l IH]; intros [|i]; simpl; done.
Qed.

(** ** Tables rebuilt column by column

    [_data_for_ids], [_convert_train_test_split] and the end of [balance]
    walk over the items of a table and build, key by key, a table with
    one new column per old column.  [regroup t vs] deals the columns [vs]
    out to the keys of [t]. *)

Lemma rmapM_Ok {A B : Type} (f : A -> result B) (l : list A) (l' : list B) :
  rmapM f l = Ok l' <-> Forall2 (fun x y => f x = Ok y) l l'.
Proof.
  revert l'. induction l as [|x l IH]; intros l'; simpl.
  - split.
    + intros H. injection H as <-. constructor.
    + intros H. by inversion H.
  - destruct (f x) as [y|e] eqn:Hfx; simpl.
    + destruct (rmapM f l) as [ys|e] eqn:Hm; simpl.
      * split.
        -- intros H. injection H as <-. constructor; [done|]. by apply IH.
        -- intros H. inversion H as [|? y' ? ys' Hy Hys]; subst.
           apply IH in Hys. congruence.
      * split; [discriminate|].
        intros H. inversion H as [|? y' ? ys' Hy Hys]; subst.
        apply IH in Hys. discriminate Hys.
    + split; [discriminate|].
      intros H. inversion H; subst. congruence.
Qed.

Lemma columns_cons {V : Type} (key : string) (values : list V) (rest : dict (list V)) :
  concat (dict_values ((key, values) :: rest)) = values ++ concat (dict_values rest).
Proof. reflexivity. Qed.

Lemma columns_drop_empty_keys (d : table) : columns (drop_empty_keys d) = columns d.
Proof.
  unfold columns. induction d as [|[k [|v vs]] d IH]; simpl; [done|done|].
  by rewrite IH.
Qed.

Lemma columns_regroup {V : Type} (items : dict (list V)) (vs : list column) :
  length vs = length (concat (dict_values items)) ->
  columns (regroup items vs) = vs.
Proof.
  unfold columns. revert vs.
  induction items as [|[key values] items IH]; intros vs Hlen.
  - destruct vs; [done | discriminate Hlen].
  - simpl regroup. rewrite columns_cons.
    change (length vs = length (values ++ concat (dict_values items))) in Hlen.
    rewrite length_app in Hlen.
    rewrite IH by (rewrite length_drop; lia). apply take_drop.
Qed.

Lemma dict_get_drop_empty_keys {V : Type} (d : dict (list V)) key v vs :
  dict_get d key = Some (v :: vs) ->
  dict_get (drop_empty_keys d) key = Some (v :: vs).
Proof.
  induction d as [|[k l] d IH]; simpl; [done|].
  destruct (decide (k = key)) as [->|Hne].
  - intros H. injection H as ->. simpl. by rewrite decide_True.
  - intros H. destruct l; simpl; [by apply IH|].
    rewrite decide_False by done. by apply IH.
Qed.

Lemma dict_get_regroup {V W : Type} (R : V -> W -> Prop)
    (items : dict (list V)) (vs : list W) key values :
  Forall2 R (concat (dict_values items)) vs ->
  dict_get items key = Some values ->
  exists ws, dict_get (regroup items vs) key = Some ws /\ Forall2 R values ws.
Proof.
  revert vs. induction items as [|[k l] items IH]; intros vs HR; simpl; [done|].
  change (Forall2 R (l ++ concat (dict_values items)) vs) in HR.
  apply Forall2_app_inv_l in HR as (ws1 & ws2 & H1 & H2 & ->).
  assert (Hl : length l = length ws1) by by eapply Forall2_length.
  rewrite Hl, take_app_length, drop_app_length.
  destruct (decide (k = key)) as [->|Hne].
  - intros H. injection H as <-. eauto.
  - intros H. by apply IH.
Qed.

(** The items loop shared by the two passes of
    [_convert_train_test_split]. *)
Lemma convert_items_Ok (per_key : nat -> nat -> result (list column))
    (P : nat -> column -> Prop) (items : table) (index : nat) (r : table) :
  (forall n i cs, per_key n i = Ok cs ->
     length cs = n /\ forall j c, cs !! j = Some c -> P (i + j) c) ->
  convert_items per_key items index = Ok r ->
  exists vs, r = drop_empty_keys (regroup items vs) /\
    length vs = length (columns items) /\
    forall j c, vs !! j = Some c -> P (index + j) c.
Proof.
  intros Hper. revert index r.
  induction items as [|[key values] items IH]; intros index r; simpl.
  - intros H. injection H as <-. exists []. repeat split. intros j c Hj.
    by rewrite lookup_nil in Hj.
  - destruct (per_key (length values) index) as [cs|] eqn:Hcs; [simpl|discriminate].
    destruct (convert_items per_key items _) as [r'|] eqn:Hr'; [simpl|discriminate].
    intros H. injection H as <-.
    destruct (Hper _ _ _ Hcs) as [Hlen HP].
    destruct (IH _ _ Hr') as (vs & -> & Hvs & HPvs).
    exists (cs ++ vs). split; [|split].
    + rewrite <- Hlen, take_app_length, drop_app_length.
      destruct cs; reflexivity.
    + unfold columns in *.
      change (length (cs ++ vs) = length (values ++ concat (dict_values items))).
      rewrite !length_app. lia.
    + intros j c Hj. apply lookup_app_Some in Hj as [Hj | [Hge Hj]].
      * by apply HP.
      * replace (index + j) with (index + length values + (j - length cs)) by lia.
        by apply HPvs.
Qed.

(** ** Row selection *)

Lemma mask_filter_length_le (mask : list bool) {A : Type} (l : list A) :
  length (mask_filter mask A l) <= length l.
Proof.
  revert l. induction mask as [|b mask IH]; intros [|x l]; simpl; try lia.
  specialize (IH l). destruct b; simpl; lia.
Qed.

Lemma mask_filter_map {A B : Type} (f : A -> B) (mask : list bool) (l : list A) :
  mask_filter mask B (map f l) = map f (mask_filter mask A l).
Proof.
  revert l. induction mask as [|b mask IH]; intros [|x l]; simpl; try done.
  destruct b; simpl; by rewrite IH.
Qed.

Lemma mask_filter_self {A : Type} (p : A -> bool) (l : list A) :
  mask_filter (map p l) A l = List.filter p l.
Proof. induction l as [|x l IH]; simpl; [done|]. destruct (p x); by rewrite IH. Qed.

Lemma mask_filter_length {A B : Type} (mask : list bool) (l : list A) (l' : list B) :
  length mask = length l -> length mask = length l' ->
  length (mask_filter mask A l) = length (mask_filter mask B l').
Proof.
  revert l l'. induction mask as [|b mask IH]; intros [|x l] [|x' l'] H1 H2;
    simpl in *; try done.
  destruct b; simpl; rewrite (IH l l'); lia.
Qed.

Lemma take_ids_Ok {A : Type} (ids : list nat) (l rs : list A) :
  take_ids ids l = Ok rs <-> Forall2 (fun i r => l !! i = Some r) ids rs.
Proof.
  unfold take_ids. rewrite rmapM_Ok. split; intros H.
  - eapply Forall2_impl; [exact H|]. intros i r Hi. simpl in Hi.
    destruct (l !! i); simpl in Hi; congruence.
  - eapply Forall2_impl; [exact H|]. intros i r Hi. simpl. by rewrite Hi.
Qed.

Lemma take_ids_length {A : Type} (ids : list nat) (l rs : list A) :
  take_ids ids l = Ok rs -> length rs = length ids.
Proof. intros H. apply take_ids_Ok in H. symmetry. by eapply Forall2_length. Qed.

Lemma take_ids_map {A B : Type} (f : A -> B) (ids : list nat) (l rs : list A) :
  take_ids ids l = Ok rs -> take_ids ids (map f l) = Ok (map f rs).
Proof.
  rewrite !take_ids_Ok. intros H. induction H as [|i r ids rs Hi H IH]; simpl.
  - constructor.
  - constructor; [|done]. by rewrite lookup_map, Hi.
Qed.

Lemma take_ids_incl {A : Type} (ids : list nat) (l rs : list A) :
  take_ids ids l = Ok rs -> forall r, In r rs -> In r l.
Proof.
  rewrite take_ids_Ok. intros H. induction H as [|i r ids rs Hi H IH]; simpl.
  - tauto.
  - intros r' [<-|Hr']; [|by apply IH].
    apply list_elem_of_In. by eapply list_elem_of_lookup_2.
Qed.

Lemma nrows_col_take (ids : list nat) (c c' : column) :
  col_take ids c = Ok c' -> nrows c' = length ids.
Proof.
  destruct c as [a|m]; simpl.
  - destruct (take_ids ids (rows a)) as [rs|] eqn:H; [simpl|discriminate].
    intros E. injection E as <-. simpl. by eapply take_ids_length.
  - destruct (take_ids ids (sprows m)) as [rs|] eqn:H; [simpl|discriminate].
    intros E. injection E as <-. simpl. by eapply take_ids_length.
Qed.

Lemma nrows_combine (f1 f2 c : column) :
  _combine_features f1 f2 = Ok c -> nrows c = nrows f1 + nrows f2.
Proof.
  unfold _combine_features, col_concat2.
  destruct f1 as [a1|m1], f2 as [a2|m2]; simpl; try discriminate.
  - case_decide; [|discriminate]. intros E. injection E as <-. simpl.
    by rewrite length_app.
  - destruct (Nat.eqb_spec (length (sprows m2)) 0) as [H2|_].
    { intros E. injection E as <-. simpl. lia. }
    destruct (Nat.eqb_spec (length (sprows m1)) 0) as [H1|_].
    { intros E. injection E as <-. simpl. lia. }
    case_decide; [|discriminate]. intros E. injection E as <-. simpl.
    by rewrite length_app.
Qed.

(** ** Label ids and row selection *)

Lemma create_label_ids_rows (a : ndarray) :
  _create_label_ids a =
    match row_label (tail a) with
    | Some f => Ok (map f (rows a))
    | None => Raise UnsupportedShapeError
    end.
Proof.
  destruct a as [tl rs]. unfold _create_label_ids, ndim, last_dim, row_label.
  cbn [tail rows].
  destruct tl as [|w [|w' [|w'' tl]]]; cbn [length List.last];
    repeat case_decide; try reflexivity; exfalso;
    simpl in *; intuition (try lia; try congruence).
Qed.

(** ** np.unique and the counts of split *)

Lemma label_counts_get_zip (f : label -> nat) (us : list label) (l : label) :
  In l us -> label_counts_get (zip us (map f us)) l = Some (f l).
Proof.
  induction us as [|u us IH]; simpl; [done|].
  intros [->|Hin].
  - by rewrite decide_True.
  - destruct (decide (u = l)) as [->|Hne]; [done | by apply IH].
Qed.

Lemma label_counts_get_of (ids : list label) (l : label) :
  In l ids -> label_counts_get (label_counts_of ids) l = Some (count_label ids l).
Proof.
  intros Hin. unfold label_counts_of, np_unique.
  apply label_counts_get_zip. apply list_elem_of_In, elem_of_unique_labels.
  by apply list_elem_of_In.
Qed.

Lemma rmapM_of_option_map {A B : Type} (e : exn) (g : A -> option B) (h : A -> B)
    (l l0 : list A) :
  (forall x, In x l0 -> g x = Some (h x)) -> incl l l0 ->
  rmapM (fun x => of_option e (g x)) l = Ok (map h l).
Proof.
  intros Hg. induction l as [|x l IH]; intros Hincl; simpl; [done|].
  rewrite Hg by (apply Hincl; by left). simpl.
  rewrite IH; [done|]. intros y Hy. apply Hincl. by right.
Qed.

Lemma count_label_pos (ids : list label) (l : label) :
  In l ids -> 0 < count_label ids l.
Proof.
  unfold count_label. intros Hin.
  assert (l ∈ filter (fun l' => l' = l) ids) as H.
  { apply list_elem_of_filter. split; [done | by apply list_elem_of_In]. }
  destruct (filter _ ids); [by apply elem_of_nil in H | simpl; lia].
Qed.

(** ** What split returns *)

Lemma col_mask_Ok (mask : list bool) (c c' : column) :
  col_mask mask c = Ok c' ->
  length mask = nrows c /\ c' = map_rows (mask_filter mask) c.
Proof.
  unfold col_mask. case_decide; [|discriminate]. intros E. by injection E as <-.
Qed.

Lemma nrows_col_mask {A : Type} (p : A -> bool) (l : list A) (c c' : column) :
  col_mask (map p l) c = Ok c' -> nrows c' = length (List.filter p l).
Proof.
  intros H. apply col_mask_Ok in H as [Hlen ->].
  rewrite <- mask_filter_self.
  destruct c as [a|m]; simpl in *; apply mask_filter_length;
    rewrite ?length_map in *; done.
Qed.

Lemma filter_multi_solo_length (ids : list label) :
  length (List.filter (is_multi ids) ids) + length (List.filter (is_solo ids) ids)
    = length ids.
Proof.
  assert (H : forall l0, incl l0 ids ->
    length (List.filter (is_multi ids) l0) + length (List.filter (is_solo ids) l0)
      = length l0).
  { induction l0 as [|l l0 IH]; intros Hincl; simpl; [done|].
    assert (Hpos : 0 < count_label ids l) by (apply count_label_pos, Hincl; by left).
    specialize (IH (fun x Hx => Hincl x (or_intror Hx))).
    unfold is_multi, is_solo in *.
    destruct (Nat.ltb_spec 1 (count_label ids l)), (Nat.eqb_spec (count_label ids l) 1);
      simpl; lia. }
  apply H. by intros x.
Qed.

Lemma concat_pairs_lookup {A B : Type} (P : A -> B -> B -> Prop)
    (l : list A) (parts : list (list B)) (i : nat) (a : A) :
  Forall2 (fun a p => exists x y, P a x y /\ p = [x; y]) l parts ->
  l !! i = Some a ->
  exists x y, P a x y /\ concat parts !! (i * 2) = Some x /\
              concat parts !! (i * 2 + 1) = Some y.
Proof.
  intros H. revert i. induction H as [|a0 p l parts (x & y & HP & ->) H IH]; intros i.
  - by rewrite lookup_nil.
  - destruct i as [|i]; simpl.
    + intros E. injection E as <-. eauto.
    + intros Hi. destruct (IH i Hi) as (x' & y' & HP' & H1 & H2). eauto.
Qed.

Lemma train_test_split_Ok sk arrays n seed strat out :
  train_test_split sk arrays n seed strat = Ok out ->
  exists a0 trI teI parts,
    head arrays = Some a0 /\
    (forall a, In a arrays -> nrows a = nrows a0) /\
    stratified_indices sk (nrows a0) n seed strat = Some (trI, teI) /\
    Forall2 (fun a p => exists tr te,
               (col_take trI a = Ok tr /\ col_take teI a = Ok te) /\ p = [tr; te])
            arrays parts /\
    out = concat parts.
Proof.
  unfold train_test_split. destruct arrays as [|a0 arrays]; [discriminate|].
  destruct (forallb _ _) eqn:Hall; [|discriminate].
  destruct (stratified_indices _ _ _ _ _) as [[trI teI]|] eqn:Hsk;
    cbn [rbind of_option fst snd]; [|discriminate].
  destruct (rmapM _ (a0 :: arrays)) as [parts|] eqn:Hparts;
    cbn [rbind]; [|discriminate].
  intros E. injection E as <-.
  exists a0, trI, teI, parts. split; [done|]. split.
  { intros a Ha. rewrite forallb_forall in Hall. by apply Nat.eqb_eq, Hall. }
  split; [done|]. split; [|done].
  apply rmapM_Ok in Hparts. eapply Forall2_impl; [exact Hparts|].
  intros a p. simpl.
  destruct (col_take trI a) as [tr|]; simpl; [|discriminate].
  destruct (col_take teI a) as [te|]; simpl; [|discriminate].
  intros E. injection E as <-. eauto.
Qed.

Lemma train_columns_Ok n index out solo cs :
  train_columns n index out solo = Ok cs ->
  length cs = n /\
  forall j c, cs !! j = Some c ->
    exists o s, out !! ((index + j) * 2) = Some o /\ solo !! (index + j) = Some s /\
                _combine_features o s = Ok c.
Proof.
  revert index cs. induction n as [|n IH]; intros index cs; simpl.
  - intros E. injection E as <-. split; [done|]. intros j c. by rewrite lookup_nil.
  - destruct (out !! (index * 2)) as [o|] eqn:Ho; simpl; [|discriminate].
    destruct (solo !! index) as [s|] eqn:Hs; simpl; [|discriminate].
    destruct (_combine_features o s) as [c0|] eqn:Hc; simpl; [|discriminate].
    destruct (train_columns n (S index) out solo) as [r|] eqn:Hr; simpl; [|discriminate].
    intros E. injection E as <-. destruct (IH _ _ Hr) as [Hlen Hj].
    split; [simpl; lia|]. intros [|j] c; simpl.
    + intros E. injection E as <-. rewrite Nat.add_0_r. eauto.
    + intros Hc'. replace (index + S j) with (S index + j) by lia. by apply Hj.
Qed.

Lemma val_columns_Ok n index out cs :
  val_columns n index out = Ok cs ->
  length cs = n /\
  forall j c, cs !! j = Some c -> out !! ((index + j) * 2 + 1) = Some c.
Proof.
  revert index cs. induction n as [|n IH]; intros index cs; simpl.
  - intros E. injection E as <-. split; [done|]. intros j c. by rewrite lookup_nil.
  - destruct (out !! (index * 2 + 1)) as [o|] eqn:Ho; simpl; [|discriminate].
    destruct (val_columns n (S index) out) as [r|] eqn:Hr; simpl; [|discriminate].
    intros E. injection E as <-. destruct (IH _ _ Hr) as [Hlen Hj].
    split; [simpl; lia|]. intros [|j] c; simpl.
    + intros E. injection E as <-. by rewrite Nat.add_0_r.
    + intros Hc'. replace (index + S j) with (S index + j) by lia. by apply Hj.
Qed.

Lemma split_Ok_inv sk n seed key t train test :
  (forall m strat trI teI,
     stratified_indices sk m n seed strat = Some (trI, teI) -> trI ++ teI ≡ₚ seq 0 m) ->
  split sk n seed key t = Ok (train, test) ->
  exists ids trI teI vs_tr vs_te,
    _check_label_key key t = Ok tt /\
    label_ids_of key t = Ok ids /\
    length trI + length teI = length (List.filter (is_multi ids) ids) /\
    train = drop_empty_keys (regroup t vs_tr) /\
    test = drop_empty_keys (regroup t vs_te) /\
    Forall2 (train_column_of ids trI) (columns t) vs_tr /\
    Forall2 (test_column_of ids teI) (columns t) vs_te.
Proof.
  intros Hperm. unfold split.
  destruct (_check_label_key key t) as [[]|] eqn:Hkey; cbn [rbind]; [|discriminate].
  destruct (label_ids_of key t) as [ids|] eqn:Hids; cbn [rbind]; [|discriminate].
  destruct (_check_train_test_sizes _ _ _) as [[]|]; cbn [rbind]; [|discriminate].
  rewrite (rmapM_of_option_map KeyError _ (count_label ids) ids ids);
    [|by intros l Hl; apply label_counts_get_of|by intros l].
  cbn [rbind]. rewrite !map_map.
  change (map (fun x => 1 <? count_label ids x) ids) with (map (is_multi ids) ids).
  change (map (fun x => count_label ids x =? 1) ids) with (map (is_solo ids) ids).
  destruct (rmapM (col_mask (map (is_multi ids) ids)) (columns t)) as [multi|] eqn:Hmulti;
    cbn [rbind]; [|discriminate].
  destruct (rmapM (col_mask (map (is_solo ids) ids)) (columns t)) as [solo|] eqn:Hsolo;
    cbn [rbind]; [|discriminate].
  destruct (train_test_split _ _ _ _ _) as [out|] eqn:Hout; cbn [rbind]; [|discriminate].
  unfold _convert_train_test_split.
  destruct (convert_items (fun n i => train_columns n i out solo) t 0)
    as [data_train|] eqn:Htr; cbn [rbind]; [|discriminate].
  destruct (convert_items (fun n i => val_columns n i out) t 0)
    as [data_val|] eqn:Hte; cbn [rbind]; [|discriminate].
  intros E. inversion E; subst; clear E.
  apply rmapM_Ok in Hmulti, Hsolo.
  apply train_test_split_Ok in Hout
    as (a0 & trI & teI & parts & Hhead & Hsame & Hsk & Hparts & ->).
  apply (convert_items_Ok _ (fun i c =>
           exists o s, concat parts !! (i * 2) = Some o /\ solo !! i = Some s /\
                       _combine_features o s = Ok c)) in Htr
    as (vs_tr & -> & Hlen_tr & Htr); [|by intros; eapply train_columns_Ok].
  apply (convert_items_Ok _ (fun i c => concat parts !! (i * 2 + 1) = Some c)) in Hte
    as (vs_te & -> & Hlen_te & Hte); [|by intros; eapply val_columns_Ok].
  exists ids, trI, teI, vs_tr, vs_te.
  split; [done|]. split; [done|]. split.
  { apply Hperm in Hsk. apply Permutation_length in Hsk.
    rewrite length_app, length_seq in Hsk. rewrite Hsk.
    destruct multi as [|a1 multi]; [discriminate Hhead|].
    injection Hhead as ->.
    inversion Hmulti as [|c0 ? cs ? Hc0 _]; subst.
    by eapply nrows_col_mask. }
  split; [done|]. split; [done|]. split.
  - apply Forall2_same_length_lookup_2; [by symmetry|].
    intros j c c' Hc Hc'. apply Htr in Hc' as (o & s & Ho & Hs & Hcomb).
    simpl in Ho, Hs.
    destruct (Forall2_lookup_l _ _ _ _ _ Hmulti Hc) as (m & Hm & Hcm).
    destruct (Forall2_lookup_l _ _ _ _ _ Hsolo Hc) as (s' & Hs' & Hcs).
    destruct (concat_pairs_lookup _ _ _ _ _ Hparts Hm)
      as (tr & te & [Htrk Htek] & H1 & H2).
    exists m, s, tr. repeat split; congruence.
  - apply Forall2_same_length_lookup_2; [by symmetry|].
    intros j c c' Hc Hc'. apply Hte in Hc'. simpl in Hc'.
    destruct (Forall2_lookup_l _ _ _ _ _ Hmulti Hc) as (m & Hm & Hcm).
    destruct (concat_pairs_lookup _ _ _ _ _ Hparts Hm)
      as (tr & te & [Htrk Htek] & H1 & H2).
    exists m. split; congruence.
Qed.

Lemma label_key_inv key t ids :
  _check_label_key key t = Ok tt ->
  label_ids_of key t = Ok ids ->
  exists a f, dict_get t key = Some [Dense a] /\
              row_label (tail a) = Some f /\ ids = map f (rows a).
Proof.
  unfold _check_label_key, label_ids_of.
  destruct (dict_get t key) as [cols|]; [|discriminate].
  destruct cols as [|c0 [|c1 cols]]; simpl; try discriminate.
  intros _. destruct c0 as [a|m]; [|discriminate].
  rewrite create_label_ids_rows.
  destruct (row_label (tail a)) as [f|] eqn:Hf; [|discriminate].
  intros E. injection E as <-. eauto.
Qed.

Lemma label_ids_of_dense key t tl rs f :
  dict_get t key = Some [Dense (NdArray tl rs)] ->
  row_label tl = Some f ->
  label_ids_of key t = Ok (map f rs).
Proof.
  intros Hget Hf. unfold label_ids_of. rewrite Hget. simpl.
  rewrite create_label_ids_rows. simpl. by rewrite Hf.
Qed.

Lemma Forall2_In_r {A B : Type} (P : A -> B -> Prop) (l : list A) (k : list B) (y : B) :
  Forall2 P l k -> In y k -> exists x, In x l /\ P x y.
Proof.
  induction 1 as [|x y' l k HP H IH]; simpl; [done|].
  intros [<-|Hy]; [eauto|]. destruct (IH Hy) as (x' & Hx' & HP'). eauto.
Qed.

Lemma filter_In_bool {A : Type} (p : A -> bool) (l : list A) (x : A) :
  In x (List.filter p l) <-> In x l /\ p x = true.
Proof. apply filter_In. Qed.

(** C2: when [split] returns, with a sampler that partitions the row
    indices it is given, every column of the test table is drawn from the
    rows of multi-example classes only, every column of the train table is
    the train part of those rows followed by all singleton rows, the row
    counts are [test = k], [train = (M - k) + S] for the M multi-example and
    S singleton rows, no id of the test table's labels is a singleton id,
    and every singleton id is among the train table's labels. *)
Theorem split_singletons
    (sk : sklearn) (n seed : Z) (label_key : string) (t train test : table) :
  (forall m strat trI teI,
     stratified_indices sk m n seed strat = Some (trI, teI) -> trI ++ teI ≡ₚ seq 0 m) ->
  split sk n seed label_key t = Ok (train, test) ->
  exists ids trI teI,
    label_ids_of label_key t = Ok ids /\
    let M := length (List.filter (is_multi ids) ids) in
    let S := length (List.filter (is_solo ids) ids) in
    M + S = length ids /\
    length trI + length teI = M /\
    Forall2 (test_column_of ids teI) (columns t) (columns test) /\
    Forall2 (train_column_of ids trI) (columns t) (columns train) /\
    (forall c, In c (columns test) -> nrows c = length teI) /\
    (forall c, In c (columns train) -> nrows c = length trI + S) /\
    (exists ids_te, label_ids_of label_key test = Ok ids_te /\
       forall l, In l ids_te -> 1 < count_label ids l) /\
    (exists ids_tr, label_ids_of label_key train = Ok ids_tr /\
       forall l, In l ids -> count_label ids l = 1 -> In l ids_tr).
Proof.
  intros Hperm Hsplit.
  destruct (split_Ok_inv _ _ _ _ _ _ _ Hperm Hsplit)
    as (ids & trI & teI & vs_tr & vs_te & Hkey & Hids & Hlen & -> & -> & Htr & Hte).
  exists ids, trI, teI. split; [done|]. intros M S.
  split; [apply filter_multi_solo_length|]. split; [done|].
  assert (Hcols_te : columns (drop_empty_keys (regroup t vs_te)) = vs_te).
  { rewrite columns_drop_empty_keys. apply columns_regroup.
    symmetry. by eapply Forall2_length. }
  assert (Hcols_tr : columns (drop_empty_keys (regroup t vs_tr)) = vs_tr).
  { rewrite columns_drop_empty_keys. apply columns_regroup.
    symmetry. by eapply Forall2_length. }
  rewrite Hcols_te, Hcols_tr.
  split; [done|]. split; [done|]. split; [|split; [|split]].
  - intros c' Hc'.
    destruct (Forall2_In_r _ _ _ _ Hte Hc') as (c & _ & m & _ & Htake).
    by eapply nrows_col_take.
  - intros c' Hc'.
    destruct (Forall2_In_r _ _ _ _ Htr Hc') as (c & _ & m & s & tr & _ & Hs & Htake & Hcomb).
    rewrite (nrows_combine _ _ _ Hcomb), (nrows_col_take _ _ _ Htake).
    by rewrite (nrows_col_mask _ _ _ _ Hs).
  - destruct (label_key_inv _ _ _ Hkey Hids) as (a & f & Hget & Hf & ->).
    destruct (dict_get_regroup _ _ _ _ _ Hte Hget) as (ws & Hws & HR).
    inversion HR as [|? c' ? ws' (m & Hm & Htake) HR']; subst. inversion HR'; subst.
    apply col_mask_Ok in Hm as [_ ->]. simpl in Htake.
    destruct (take_ids teI _) as [rs|] eqn:Hrs; [|discriminate Htake].
    simpl in Htake. injection Htake as <-.
    exists (map f rs). split.
    + eapply label_ids_of_dense; [|exact Hf]. by apply dict_get_drop_empty_keys.
    + intros l Hl. apply in_map_iff in Hl as (r & <- & Hr).
      apply (take_ids_incl _ _ _ Hrs) in Hr.
      apply (in_map f) in Hr. rewrite <- mask_filter_map, mask_filter_self in Hr.
      apply filter_In_bool in Hr as [_ Hr]. by apply Nat.ltb_lt in Hr.
  - destruct (label_key_inv _ _ _ Hkey Hids) as (a & f & Hget & Hf & ->).
    destruct (dict_get_regroup _ _ _ _ _ Htr Hget) as (ws & Hws & HR).
    inversion HR as [|? c' ? ws' (m & s & tr & Hm & Hs & Htake & Hcomb) HR']; subst.
    inversion HR'; subst.
    apply col_mask_Ok in Hm as [_ ->]. apply col_mask_Ok in Hs as [_ ->].
    simpl in Htake.
    destruct (take_ids trI _) as [rs|] eqn:Hrs; [|discriminate Htake].
    simpl in Htake. injection Htake as <-.
    unfold _combine_features, col_concat2 in Hcomb. simpl in Hcomb.
    rewrite decide_True in Hcomb by done. injection Hcomb as <-.
    exists (map f (rs ++ mask_filter (map (is_solo (map f (rows a))) (map f (rows a))) _ (rows a))).
    split.
    + eapply label_ids_of_dense; [|exact Hf]. by apply dict_get_drop_empty_keys.
    + intros l Hl Hcount. rewrite map_app, in_app_iff. right.
      rewrite <- mask_filter_map, mask_filter_self.
      apply filter_In_bool. split; [done|]. by apply Nat.eqb_eq.
Qed.

Lemma first_rows_sampler_partition m n seed strat trI teI :
  stratified_indices first_rows_sampler m n seed strat = Some (trI, teI) ->
  trI ++ teI ≡ₚ seq 0 m.
Proof.
  simpl. destruct (_ && _) eqn:Hb; [|discriminate].
  apply andb_prop in Hb as [H1 H2].
  apply Z.leb_le in H1. apply Nat.leb_le in H2.
  intros E. injection E as <- <-.
  rewrite Permutation_app_comm.
  replace m with (Z.to_nat n + (m - Z.to_nat n)) at 2 by lia.
  by rewrite seq_app.
Qed.

Lemma split_singletons_witness :
  exists (ids : list label) (trI teI : list nat),
    label_ids_of "label_ids" (labelled [1; 1; 1; 2; 2; 2; 3]%Z) = Ok ids /\
    length trI + length teI = length (List.filter (is_multi ids) ids) /\
    (forall c, In c (columns (labelled [1; 1; 1]%Z)) -> nrows c = length teI).
Proof.
  destruct (split_singletons first_rows_sampler 3 42 "label_ids"
              (labelled [1; 1; 1; 2; 2; 2; 3]%Z)
              (labelled [2; 2; 2; 3]%Z) (labelled [1; 1; 1]%Z)
              (fun m strat => first_rows_sampler_partition m 3 42 strat)
              eq_refl)
    as (ids & trI & teI & Hids & _ & Hlen & _ & _ & Hte & _).
  exists ids, trI, teI. auto.
Defined.

(** * The balancer *)

(** ** One visit of a class *)

Lemma visit_Ok (env : bal_env) (index : nat) (st st' : bal_state) (brk : bool) :
  visit env index st = Ok (st', brk) ->
  exists cycles skip,
    num_data_cycles st !! index = Some cycles /\ skipped st !! index = Some skip /\
    ((0 < cycles /\ skip = false /\ st' = skip_state index st /\ brk = false) \/
     ((cycles = 0 \/ skip = true) /\
      exists count class_data idx nd m,
        counts_label_ids env !! index = Some count /\
        label_data env !! index = Some class_data /\
        data_idx st !! index = Some idx /\
        append_slices idx (idx + index_batch_size env count) class_data (new_data st)
          = Ok nd /\
        st' = advance_state env index cycles count idx nd st /\
        min_cycles (num_data_cycles st') = Ok m /\ brk = (0 <? m))).
Proof.
  unfold visit.
  destruct (num_data_cycles st !! index) as [cycles|]; cbn [of_option rbind]; [|discriminate].
  destruct (skipped st !! index) as [skip|]; cbn [of_option rbind]; [|discriminate].
  destruct ((0 <? cycles) && negb skip) eqn:Hcond.
  - intros E. inversion E; subst; clear E.
    apply andb_prop in Hcond as [H1 H2]. apply Nat.ltb_lt in H1.
    exists cycles, skip. repeat split; try done. left.
    destruct skip; [discriminate H2 | done].
  - destruct (counts_label_ids env !! index) as [count|]; cbn [of_option rbind]; [|discriminate].
    destruct (label_data env !! index) as [class_data|]; cbn [of_option rbind]; [|discriminate].
    destruct (data_idx st !! index) as [idx|]; cbn [of_option rbind]; [|discriminate].
    fold (index_batch_size env count).
    destruct (append_slices _ _ _ _) as [nd|] eqn:Hnd; cbn [rbind]; [|discriminate].
    destruct (min_cycles _) as [m|] eqn:Hm; cbn [rbind]; [|discriminate].
    intros E. inversion E; subst; clear E.
    exists cycles, skip. repeat split; try done. right. split.
    { apply andb_false_iff in Hcond as [H|H].
      - apply Nat.ltb_ge in H. left. lia.
      - right. by destruct skip. }
    exists count, class_data, idx, nd, m. repeat split; done.
Qed.

(** ** The measure that the rounds decrease

    A class that has not completed a pass still owes the rows from its
    cursor to its end; a class that has completed one owes nothing. *)

Lemma index_batch_size_pos env count : env_ok env -> (1 <= index_batch_size env count)%Z.
Proof.
  intros (Hs & _). unfold index_batch_size. specialize (Hs count). lia.
Qed.

Lemma list_sum_map_le {A : Type} (f f' : A -> nat) (l : list A) :
  (forall x, In x l -> f' x <= f x) ->
  list_sum (map f' l) <= list_sum (map f l).
Proof.
  induction l as [|x l IH]; simpl; [done|]. intros H.
  pose proof (H x (or_introl eq_refl)) as Hx.
  specialize (IH (fun y Hy => H y (or_intror Hy))). lia.
Qed.

Lemma list_sum_map_lt {A : Type} (f f' : A -> nat) (l : list A) (j : A) :
  (forall x, In x l -> f' x <= f x) -> In j l -> f' j < f j ->
  list_sum (map f' l) < list_sum (map f l).
Proof.
  induction l as [|x l IH]; simpl; [done|]. intros H [->|Hj] Hlt.
  - pose proof (list_sum_map_le f f' l (fun y Hy => H y (or_intror Hy))). lia.
  - pose proof (H x (or_introl eq_refl)) as Hx.
    specialize (IH (fun y Hy => H y (or_intror Hy)) Hj Hlt). lia.
Qed.

Lemma lookup_insert_Some_same {A : Type} (l : list A) (i : nat) (x y : A) :
  l !! i = Some x -> <[i := y]> l !! i = Some y.
Proof. intros H. apply list_lookup_insert_eq. by eapply lookup_lt_Some. Qed.

Lemma fold_left_min_le (l : list nat) (x : nat) :
  fold_left Nat.min l x <= x /\ forall y, In y l -> fold_left Nat.min l x <= y.
Proof.
  revert x. induction l as [|a l IH]; intros x; simpl; [split; [lia|tauto]|].
  destruct (IH (Nat.min x a)) as [H1 H2]. split; [lia|].
  intros y [<-|Hy]; [lia | by apply H2].
Qed.

Lemma fold_left_min_In (l : list nat) (x : nat) :
  fold_left Nat.min l x = x \/ In (fold_left Nat.min l x) l.
Proof.
  revert x. induction l as [|a l IH]; intros x; simpl; [by left|].
  destruct (IH (Nat.min x a)) as [H|H]; [|by right; right].
  rewrite H. destruct (Nat.min_spec x a) as [[_ ->]|[_ ->]]; [by left|by right; left].
Qed.

Lemma min_cycles_pos (l : list nat) (m i c : nat) :
  min_cycles l = Ok m -> 0 < m -> l !! i = Some c -> 0 < c.
Proof.
  destruct l as [|x l]; [discriminate|]. simpl. intros E. injection E as <-.
  intros Hpos Hi. destruct (fold_left_min_le l x) as [H1 H2].
  destruct i as [|i]; simpl in Hi.
  - injection Hi as <-. lia.
  - apply list_elem_of_lookup_2, list_elem_of_In, H2 in Hi. lia.
Qed.

Lemma min_cycles_zero (l : list nat) :
  min_cycles l = Ok 0 -> exists i, l !! i = Some 0.
Proof.
  destruct l as [|x l]; [discriminate|]. simpl. intros E. injection E as E.
  destruct (fold_left_min_In l x) as [H|H].
  - exists 0. simpl. congruence.
  - rewrite E in H. apply list_elem_of_In, list_elem_of_lookup_1 in H as [i Hi].
    by exists (S i).
Qed.

(** A visit never lets a class owe more, and a class without a completed
    pass owes less after its visit. *)
Lemma visit_owed env index st st' brk :
  env_ok env -> cursors_ok env st ->
  visit env index st = Ok (st', brk) ->
  cursors_ok env st' /\
  (forall i, owed env st' i <= owed env st i) /\
  (forall i, i <> index -> num_data_cycles st' !! i = num_data_cycles st !! i) /\
  (num_data_cycles st !! index = Some 0 ->
     index < length (counts_label_ids env) /\ owed env st' index < owed env st index) /\
  (brk = true -> forall i c, num_data_cycles st' !! i = Some c -> 0 < c).
Proof.
  intros Henv Hcur Hvisit.
  destruct (visit_Ok _ _ _ _ _ Hvisit)
    as (cycles & skip & Hcyc & Hskip & [(Hpos & -> & -> & ->) | (Hcase & Hadv)]).
  - unfold skip_state, owed, cursors_ok; simpl.
    split; [done|]. split; [done|]. split; [done|]. split; [|done].
    intros H0. rewrite Hcyc in H0. injection H0 as ->. lia.
  - destruct Hadv as (count & class_data & idx & nd & m & Hcount & _ & Hidx & _ & -> & Hm & ->).
    pose proof (index_batch_size_pos env count Henv) as Hibs.
    pose proof (Hcur _ _ _ Hidx Hcount) as Hrange.
    unfold advance_state in *. cbn [data_idx num_data_cycles] in *.
    set (idx' := (idx + index_batch_size env count)%Z) in *.
    assert (Hpc : 0 < count) by (destruct Henv as (_ & H); by eapply H).
    split; [|split; [|split; [|split]]].
    + intros i x c Hx Hc. cbn [data_idx] in Hx.
      destruct (decide (i = index)) as [->|Hne].
      * rewrite Hcount in Hc. injection Hc as <-.
        destruct (Z.geb_spec idx' (Z.of_nat count)).
        -- rewrite (lookup_insert_Some_same _ _ _ _ Hidx) in Hx. injection Hx as <-. lia.
        -- rewrite (lookup_insert_Some_same _ _ _ _ Hidx) in Hx. injection Hx as <-. lia.
      * destruct (idx' >=? Z.of_nat count)%Z;
          rewrite list_lookup_insert_ne in Hx by done; by eapply Hcur.
    + intros i. unfold owed. cbn [data_idx num_data_cycles].
      destruct (decide (i = index)) as [->|Hne].
      * rewrite Hcyc, Hidx, Hcount.
        destruct (Z.geb_spec idx' (Z.of_nat count)).
        -- rewrite (lookup_insert_Some_same _ _ _ _ Hcyc). lia.
        -- rewrite (lookup_insert_Some_same _ _ _ _ Hidx), ?Hcyc.
           destruct cycles; subst idx'; lia.
      * destruct (idx' >=? Z.of_nat count)%Z;
          rewrite ?list_lookup_insert_ne by done; done.
    + intros i Hne. destruct (idx' >=? Z.of_nat count)%Z;
        rewrite ?list_lookup_insert_ne by done; done.
    + intros H0. rewrite Hcyc in H0. injection H0 as ->.
      split; [by eapply lookup_lt_Some|].
      unfold owed. cbn [data_idx num_data_cycles]. rewrite Hcyc, Hidx, Hcount.
      destruct (Z.geb_spec idx' (Z.of_nat count)).
      * rewrite (lookup_insert_Some_same _ _ _ _ Hcyc). lia.
      * rewrite (lookup_insert_Some_same _ _ _ _ Hidx), ?Hcyc. subst idx'. lia.
    + intros Hbrk i c Hc. apply Nat.ltb_lt in Hbrk.
      cbn [num_data_cycles] in Hm.
      revert Hm Hbrk Hc. generalize (if (idx' >=? Z.of_nat count)%Z
        then <[index := S cycles]> (num_data_cycles st) else num_data_cycles st).
      intros l Hm Hbrk Hc. eapply min_cycles_pos; eauto.
Qed.

Lemma visit_length env index st st' brk :
  visit env index st = Ok (st', brk) ->
  length (num_data_cycles st') = length (num_data_cycles st).
Proof.
  intros Hvisit.
  destruct (visit_Ok _ _ _ _ _ Hvisit)
    as (cycles & skip & _ & _ & [(_ & _ & -> & _) | (_ & Hadv)]); [done|].
  destruct Hadv as (count & cd & idx & nd & m & _ & _ & _ & _ & -> & _).
  unfold advance_state. cbn [num_data_cycles].
  destruct (_ >=? _)%Z; by rewrite ?length_insert.
Qed.

(** A round: every class that has not completed a pass and is in the
    order of the round owes less when the round is over. *)
Lemma for_indices_owed env order st st' :
  env_ok env -> cursors_ok env st ->
  for_indices env order st = Ok st' ->
  cursors_ok env st' /\
  length (num_data_cycles st') = length (num_data_cycles st) /\
  (forall i, owed env st' i <= owed env st i) /\
  (forall i0, In i0 order -> num_data_cycles st !! i0 = Some 0 ->
     i0 < length (counts_label_ids env) /\ owed env st' i0 < owed env st i0).
Proof.
  intros Henv. revert st. induction order as [|j order IH]; intros st Hcur; simpl.
  - intros E. injection E as <-.
    split; [done|]. split; [done|]. split; [done|]. intros i0 [].
  - destruct (visit env j st) as [[st1 brk]|] eqn:Hvisit; cbn [rbind fst snd]; [|discriminate].
    destruct (visit_owed _ _ _ _ _ Henv Hcur Hvisit) as (Hcur1 & Hle1 & Hsame & Hstrict & Hbrk).
    pose proof (visit_length _ _ _ _ _ Hvisit) as Hlen1.
    destruct brk.
    + intros E. injection E as <-. split; [done|]. split; [done|]. split; [done|].
      intros i0 Hin H0. destruct (decide (i0 = j)) as [->|Hne]; [by apply Hstrict|].
      exfalso. rewrite <- (Hsame i0 Hne) in H0.
      specialize (Hbrk eq_refl _ _ H0). lia.
    + intros Hrest. destruct (IH st1 Hcur1 Hrest) as (Hcur' & Hlen' & Hle' & Hstrict').
      split; [done|]. split; [congruence|]. split.
      { intros i. specialize (Hle1 i). specialize (Hle' i). lia. }
      intros i0 Hin H0. destruct (decide (i0 = j)) as [->|Hne].
      * destruct (Hstrict H0) as [Hlt Hdec]. split; [done|].
        specialize (Hle' j). lia.
      * destruct Hin as [->|Hin]; [done|].
        rewrite <- (Hsame i0 Hne) in H0.
        destruct (Hstrict' i0 Hin H0) as [Hlt Hdec]. split; [done|].
        specialize (Hle1 i0). lia.
Qed.

(** The round loop ends within [total_owed] rounds. *)
Lemma while_rounds_terminates env (fuel : nat) :
  env_ok env ->
  forall st g,
    cursors_ok env st ->
    length (num_data_cycles st) = length (counts_label_ids env) ->
    (do_shuffle env = true -> rng_ok g) ->
    total_owed env st < fuel ->
    exists r, while_rounds fuel env st g = Some r.
Proof.
  intros Henv. induction fuel as [|fuel IH]; intros st g Hcur Hlen Hrng Hfuel; [lia|].
  simpl. destruct (min_cycles (num_data_cycles st)) as [m|e] eqn:Hmin; [|eauto].
  destruct (Nat.eqb_spec m 0) as [->|Hm]; [|eauto].
  set (n := length (counts_label_ids env)) in *.
  destruct (if do_shuffle env then permutation g n else (seq 0 n, g))
    as [order g'] eqn:Horder.
  assert (Hperm : order ≡ₚ seq 0 n /\ (do_shuffle env = true -> rng_ok g')).
  { destruct (do_shuffle env).
    - unfold permutation in Horder. injection Horder as <- <-. split; [by apply Hrng|].
      intros _. apply (Hrng eq_refl).
    - injection Horder as <- <-. split; [done|]. intros H. discriminate H. }
  destruct Hperm as [Hperm Hrng'].
  destruct (for_indices env order st) as [st'|e] eqn:Hround; [|eauto].
  destruct (for_indices_owed _ _ _ _ Henv Hcur Hround) as (Hcur' & Hlen' & Hle & Hstrict).
  apply IH; [done | congruence | done |].
  apply min_cycles_zero in Hmin as [i0 Hi0].
  assert (Hi0n : i0 < n) by (rewrite <- Hlen; by eapply lookup_lt_Some).
  assert (Hin : In i0 order).
  { apply list_elem_of_In. rewrite Hperm. apply list_elem_of_In, in_seq. lia. }
  destruct (Hstrict i0 Hin Hi0) as [_ Hdec].
  assert (total_owed env st' < total_owed env st); [|lia].
  unfold total_owed. apply (list_sum_map_lt _ _ _ i0); [by intros | | done].
  apply in_seq. fold n. lia.
Qed.

Lemma dict_get_In_columns (t : table) key cols c :
  dict_get t key = Some cols -> In c cols -> In c (columns t).
Proof.
  unfold columns. induction t as [|[k l] t IH]; simpl; [done|].
  destruct (decide (k = key)) as [->|Hne].
  - intros E. injection E as ->. intros Hc. apply in_app_iff. by left.
  - intros Hget Hc. apply in_app_iff. right. by apply IH.
Qed.

Lemma label_ids_length key t ids N :
  _check_label_key key t = Ok tt ->
  label_ids_of key t = Ok ids ->
  get_number_of_examples t = Ok N ->
  length ids = N.
Proof.
  intros Hkey Hids HN.
  destruct (label_key_inv _ _ _ Hkey Hids) as (a & f & Hget & _ & ->).
  rewrite length_map.
  apply (get_number_of_examples_Ok t N HN (Dense a)).
  eapply dict_get_In_columns; [exact Hget | by left].
Qed.

Lemma counts_positive (ids : list label) i count :
  map (count_label ids) (unique_labels ids) !! i = Some count -> 0 < count.
Proof.
  rewrite lookup_map. destruct (unique_labels ids !! i) as [u|] eqn:Hu; [|discriminate].
  simpl. intros E. injection E as <-.
  apply count_label_pos, list_elem_of_In, elem_of_unique_labels.
  by eapply list_elem_of_lookup_2.
Qed.

Lemma unique_labels_nil (ids : list label) : unique_labels ids = [] -> ids = [].
Proof.
  intros H. destruct ids as [|l ids]; [done|].
  assert (l ∈ unique_labels (l :: ids)) as Hl by (apply elem_of_unique_labels; by left).
  rewrite H in Hl. by apply elem_of_nil in Hl.
Qed.

Lemma initial_cursors_ok env :
  env_ok env -> cursors_ok env (initial_state (length (counts_label_ids env))).
Proof.
  intros (_ & Hpos) i idx count Hidx Hcount. simpl in Hidx.
  apply lookup_replicate in Hidx as [-> _]. specialize (Hpos _ _ Hcount). lia.
Qed.

(** *** A visit never raises *)

Lemma min_cycles_run (l : list nat) : 0 < length l -> exists m, min_cycles l = Ok m.
Proof. destruct l; simpl; [lia | eauto]. Qed.

Lemma append_slices_key_run a b (values : list column) (i : nat)
    (cur : list (list column)) :
  i <= length cur -> exists cur', append_slices_key a b values i cur = Ok cur'.
Proof.
  revert i cur. induction values as [|v rest IH]; intros i cur Hi; simpl; [eauto|].
  set (cur1 := if length cur <? i + 1 then cur ++ [[]] else cur).
  assert (Hlen : i < length cur1).
  { subst cur1. destruct (Nat.ltb_spec (length cur) (i + 1)); [|lia].
    rewrite length_app. simpl. lia. }
  destruct (lookup_lt_is_Some_2 cur1 i Hlen) as [at_i ->]. cbn [of_option rbind].
  apply IH. rewrite length_insert. lia.
Qed.

Lemma append_slices_run a b (class_data : table) (nd : dict (list (list column))) :
  exists nd', append_slices a b class_data nd = Ok nd'.
Proof.
  revert nd. induction class_data as [|[k vs] rest IH]; intros nd; simpl; [eauto|].
  destruct vs as [|v vs]; [apply IH|].
  destruct (append_slices_key_run a b (v :: vs) 0
              (match dict_get nd k with Some c => c | None => [] end)) as [cur' Hcur];
    [lia|].
  rewrite Hcur. cbn [rbind]. apply IH.
Qed.

Lemma visit_shape env index st st' brk :
  visit env index st = Ok (st', brk) ->
  length (data_idx st') = length (data_idx st) /\
  length (skipped st') = length (skipped st).
Proof.
  intros Hvisit.
  destruct (visit_Ok _ _ _ _ _ Hvisit)
    as (cycles & skip & _ & _ & [(_ & _ & -> & _) | (_ & Hadv)]).
  - simpl. by rewrite length_insert.
  - destruct Hadv as (count & cd & idx & nd & m & _ & _ & _ & _ & -> & _).
    unfold advance_state. cbn [data_idx skipped]. rewrite length_insert.
    split; [|done]. destruct (_ >=? _)%Z; by rewrite length_insert.
Qed.

Lemma visit_run env index st (n : nat) :
  length (counts_label_ids env) = n -> length (label_data env) = n ->
  length (data_idx st) = n -> length (num_data_cycles st) = n ->
  length (skipped st) = n ->
  index < n ->
  exists st' brk, visit env index st = Ok (st', brk).
Proof.
  intros Hcounts Hdata Hdi Hcyc Hsk Hindex. unfold visit.
  destruct (lookup_lt_is_Some_2 (num_data_cycles st) index) as [cycles Hc]; [lia|].
  destruct (lookup_lt_is_Some_2 (skipped st) index) as [skip Hs]; [lia|].
  destruct (lookup_lt_is_Some_2 (counts_label_ids env) index) as [count Hcount]; [lia|].
  destruct (lookup_lt_is_Some_2 (label_data env) index) as [ct Hct]; [lia|].
  destruct (lookup_lt_is_Some_2 (data_idx st) index) as [idx Hidx]; [lia|].
  rewrite Hc, Hs. cbn [of_option rbind].
  destruct ((0 <? cycles) && negb skip); [eauto|].
  rewrite Hcount, Hct, Hidx. cbn [of_option rbind].
  destruct (append_slices_run idx
              (idx + (scale env count (num_examples env) (batch_size env) + 1)) ct
              (new_data st)) as [nd ->].
  cbn [rbind].
  destruct (min_cycles_run
              (if (idx + (scale env count (num_examples env) (batch_size env) + 1)
                   >=? Z.of_nat count)%Z
               then <[index := S cycles]> (num_data_cycles st)
               else num_data_cycles st)) as [m ->].
  { destruct (_ >=? _)%Z; rewrite ?length_insert; lia. }
  cbn [rbind]. eauto.
Qed.

Lemma for_indices_run env (order : list nat) st (n : nat) :
  length (counts_label_ids env) = n -> length (label_data env) = n ->
  length (data_idx st) = n -> length (num_data_cycles st) = n ->
  length (skipped st) = n ->
  (forall i, In i order -> i < n) ->
  exists st', for_indices env order st = Ok st' /\
    length (data_idx st') = n /\ length (num_data_cycles st') = n /\
    length (skipped st') = n.
Proof.
  intros Hcounts Hdata. revert st.
  induction order as [|j order IH]; intros st Hdi Hcyc Hsk Hord; simpl; [eauto|].
  destruct (visit_run env j st n) as (st1 & brk & Hvisit); try done.
  { apply Hord. by left. }
  rewrite Hvisit. cbn [rbind fst snd].
  destruct (visit_shape _ _ _ _ _ Hvisit) as [Hdi1 Hsk1].
  pose proof (visit_length _ _ _ _ _ Hvisit) as Hcyc1.
  destruct brk.
  - exists st1. repeat split; congruence.
  - apply IH; [congruence | congruence | congruence |].
    intros i Hi. apply Hord. by right.
Qed.

Lemma round_order env (g : rng) (order : list nat) (g' : rng) :
  (do_shuffle env = true -> rng_ok g) ->
  (if do_shuffle env then permutation g (length (counts_label_ids env))
   else (seq 0 (length (counts_label_ids env)), g)) = (order, g') ->
  (forall i, In i order -> i < length (counts_label_ids env)) /\
  (do_shuffle env = true -> rng_ok g').
Proof.
  intros Hrng Horder. destruct (do_shuffle env).
  - unfold permutation in Horder. injection Horder as <- <-. split.
    + intros i Hi. apply list_elem_of_In in Hi.
      rewrite (Hrng eq_refl (used g) _) in Hi.
      apply list_elem_of_In, in_seq in Hi. lia.
    + intros _ k n. apply (Hrng eq_refl).
  - injection Horder as <- <-. split; [|done].
    intros i Hi. apply in_seq in Hi. lia.
Qed.

(** The rounds never raise: every lookup finds its entry, a slice is
    always defined, and the pass counters are never empty. *)
Lemma while_rounds_never_raises (fuel : nat) env st g (e : exn) :
  length (label_data env) = length (counts_label_ids env) ->
  length (data_idx st) = length (counts_label_ids env) ->
  length (num_data_cycles st) = length (counts_label_ids env) ->
  length (skipped st) = length (counts_label_ids env) ->
  0 < length (counts_label_ids env) ->
  (do_shuffle env = true -> rng_ok g) ->
  while_rounds fuel env st g <> Some (Raise e).
Proof.
  intros Hdata Hdi Hcyc Hsk Hpos Hrng.
  revert st g Hdi Hcyc Hsk Hrng.
  induction fuel as [|fuel IH]; intros st g Hdi Hcyc Hsk Hrng; simpl.
  - destruct (min_cycles_run (num_data_cycles st)) as [m ->]; [lia|].
    by destruct (m =? 0).
  - destruct (min_cycles_run (num_data_cycles st)) as [m ->]; [lia|].
    destruct (m =? 0); [|done].
    destruct (if do_shuffle env then _ else _) as [order g1] eqn:Horder.
    destruct (round_order env g order g1 Hrng Horder) as [Hord Hrng1].
    destruct (for_indices_run env order st (length (counts_label_ids env)))
      as (st1 & -> & Hdi1 & Hcyc1 & Hsk1); try done.
    by apply IH.
Qed.

Lemma for_indices_length env (order : list nat) st st' :
  for_indices env order st = Ok st' ->
  length (num_data_cycles st') = length (num_data_cycles st).
Proof.
  revert st. induction order as [|j order IH]; intros st; simpl.
  - intros E. by injection E as <-.
  - destruct (visit env j st) as [[st1 brk]|] eqn:Hvisit; cbn [rbind fst snd]; [|discriminate].
    pose proof (visit_length _ _ _ _ _ Hvisit) as Hlen.
    destruct brk.
    + intros E. by injection E as <-.
    + intros Hrest. rewrite (IH _ Hrest). done.
Qed.

(** When the rounds end, every class has completed a pass. *)
Lemma while_rounds_done (fuel : nat) env st st' g g' :
  while_rounds fuel env st g = Some (Ok (st', g')) ->
  length (num_data_cycles st') = length (num_data_cycles st) /\
  forall i c, num_data_cycles st' !! i = Some c -> 0 < c.
Proof.
  revert st g. induction fuel as [|fuel IH]; intros st g; simpl.
  - destruct (min_cycles (num_data_cycles st)) as [m|] eqn:Hmin; [|discriminate].
    destruct (Nat.eqb_spec m 0); [discriminate|].
    intros E. inversion E; subst; clear E. split; [done|].
    intros i c Hc. eapply min_cycles_pos; eauto. lia.
  - destruct (min_cycles (num_data_cycles st)) as [m|] eqn:Hmin; [|discriminate].
    destruct (Nat.eqb_spec m 0).
    + destruct (if do_shuffle env then _ else _) as [order g1].
      destruct (for_indices env order st) as [st1|] eqn:Hround; [|discriminate].
      intros Hrest. destruct (IH _ _ Hrest) as [Hlen Hall].
      rewrite (for_indices_length _ _ _ _ Hround) in Hlen. done.
    + intros E. inversion E; subst; clear E. split; [done|].
      intros i c Hc. eapply min_cycles_pos; eauto. lia.
Qed.

(** *** A class whose slice is empty never completes a pass *)

Lemma visit_stuck env index st st' brk (i count : nat) :
  counts_label_ids env !! i = Some count -> 0 < count ->
  (index_batch_size env count <= 0)%Z ->
  num_data_cycles st !! i = Some 0 ->
  (exists idx, data_idx st !! i = Some idx /\ (idx <= 0)%Z) ->
  visit env index st = Ok (st', brk) ->
  num_data_cycles st' !! i = Some 0 /\
  (exists idx, data_idx st' !! i = Some idx /\ (idx <= 0)%Z).
Proof.
  intros Hcount Hpos Hibs Hcyc (idx & Hidx & Hle) Hvisit.
  destruct (visit_Ok _ _ _ _ _ Hvisit)
    as (cycles & skip & Hc & Hs & [(_ & _ & -> & _) | (_ & Hadv)]).
  - simpl. eauto.
  - destruct Hadv as (count' & ct & idx0 & nd & m & Hcount' & Hct & Hidx0 & _ & -> & _).
    unfold advance_state. cbn [num_data_cycles data_idx].
    destruct (decide (index = i)) as [->|Hne].
    + rewrite Hcount in Hcount'. injection Hcount' as <-.
      rewrite Hidx in Hidx0. injection Hidx0 as <-.
      destruct (Z.geb_spec (idx + index_batch_size env count) (Z.of_nat count)); [lia|].
      split; [done|]. exists (idx + index_batch_size env count)%Z. split; [|lia].
      by apply (lookup_insert_Some_same _ _ idx).
    + destruct (_ >=? _)%Z; rewrite ?list_lookup_insert_ne by done; eauto.
Qed.

Lemma for_indices_stuck env (order : list nat) st st' (i count : nat) :
  counts_label_ids env !! i = Some count -> 0 < count ->
  (index_batch_size env count <= 0)%Z ->
  num_data_cycles st !! i = Some 0 ->
  (exists idx, data_idx st !! i = Some idx /\ (idx <= 0)%Z) ->
  for_indices env order st = Ok st' ->
  num_data_cycles st' !! i = Some 0 /\
  (exists idx, data_idx st' !! i = Some idx /\ (idx <= 0)%Z).
Proof.
  intros Hcount Hpos Hibs. revert st.
  induction order as [|j order IH]; intros st Hcyc Hidx; simpl.
  - intros E. by injection E as <-.
  - destruct (visit env j st) as [[st1 brk]|] eqn:Hvisit; cbn [rbind fst snd]; [|discriminate].
    destruct (visit_stuck _ _ _ _ _ _ _ Hcount Hpos Hibs Hcyc Hidx Hvisit) as [Hcyc1 Hidx1].
    destruct brk.
    + intros E. by injection E as <-.
    + by apply IH.
Qed.

Lemma while_rounds_stuck (fuel : nat) env st st' g g' (i count : nat) :
  counts_label_ids env !! i = Some count -> 0 < count ->
  (index_batch_size env count <= 0)%Z ->
  num_data_cycles st !! i = Some 0 ->
  (exists idx, data_idx st !! i = Some idx /\ (idx <= 0)%Z) ->
  while_rounds fuel env st g <> Some (Ok (st', g')).
Proof.
  intros Hcount Hpos Hibs. revert st g.
  assert (Hexit : forall st m, num_data_cycles st !! i = Some 0 ->
            min_cycles (num_data_cycles st) = Ok m -> m = 0).
  { intros st m Hcyc Hmin. destruct m as [|m]; [done|].
    pose proof (min_cycles_pos _ _ _ _ Hmin ltac:(lia) Hcyc). lia. }
  induction fuel as [|fuel IH]; intros st g Hcyc Hidx; simpl.
  - destruct (min_cycles (num_data_cycles st)) as [m|] eqn:Hmin; [|discriminate].
    by rewrite (Hexit st m Hcyc Hmin).
  - destruct (min_cycles (num_data_cycles st)) as [m|] eqn:Hmin; [|discriminate].
    rewrite (Hexit st m Hcyc Hmin). simpl.
    destruct (if do_shuffle env then _ else _) as [order g1].
    destruct (for_indices env order st) as [st1|] eqn:Hround; [|discriminate].
    destruct (for_indices_stuck _ _ _ _ _ _ Hcount Hpos Hibs Hcyc Hidx Hround)
      as [Hcyc1 Hidx1].
    by apply IH.
Qed.

(** With a class whose slice length is zero or negative, [balance] never
    returns, neither a table nor an exception. *)
Lemma balance_stuck (fuel : nat) (scale : nat -> nat -> Z -> Z) (bs : Z) (sh : bool)
    (label_key : string) (t : table) (g : rng)
    (ids : list label) (classes : list table) (N i count : nat) :
  _check_label_key label_key t = Ok tt ->
  label_ids_of label_key t = Ok ids ->
  _split_by_label_ids ids (unique_labels ids) t = Ok classes ->
  get_number_of_examples t = Ok N ->
  map (count_label ids) (unique_labels ids) !! i = Some count ->
  (scale count N bs + 1 <= 0)%Z ->
  (sh = true -> rng_ok g) ->
  balance fuel scale bs sh label_key t g = None.
Proof.
  intros Hkey Hids Hsplit HN Hcount Hibs Hrng.
  unfold balance. rewrite Hkey, Hids. unfold np_unique. rewrite Hsplit, HN.
  set (env := BalEnv scale bs sh (map (count_label ids) (unique_labels ids)) classes N).
  assert (Hn : length (unique_labels ids) = length (counts_label_ids env))
    by (simpl; by rewrite length_map).
  rewrite Hn. fold (initial_state (length (counts_label_ids env))).
  pose proof (lookup_lt_Some _ _ _ Hcount) as Hi. fold (counts_label_ids env) in Hi.
  destruct (while_rounds fuel env _ g) as [[[st g1]|e]|] eqn:Hloop; [exfalso|exfalso|done].
  - apply (while_rounds_stuck fuel env _ st g g1 i count) in Hloop; try done.
    + by apply (counts_positive ids i).
    + simpl. by apply lookup_replicate_2.
    + exists 0%Z. split; [|done]. simpl. by apply lookup_replicate_2.
  - apply (while_rounds_never_raises fuel env _ g e) in Hloop; try done.
    + simpl. rewrite length_map. unfold _split_by_label_ids in Hsplit.
      apply rmapM_Ok, Forall2_length in Hsplit. done.
    + simpl. by rewrite length_replicate.
    + simpl. by rewrite length_replicate.
    + simpl. by rewrite length_replicate.
    + simpl. lia.
Qed.

(** C10, as stated, fails: the slice length int(count / N * batch_size) + 1
    is at least 1 only for a batch size that is not negative.  With
    classes of 1 and 3 rows out of 4 and batch size -4 the slice lengths
    are int(-1.0) + 1 = 0 and int(-3.0) + 1 = -2: no cursor ever reaches
    the end of its class, no pass counter leaves zero, and the loop runs
    for ever, whatever the number of rounds it is given. *)
Lemma balance_negative_batch_size_never_returns :
  (exact_scale 1 4 (-4) + 1 = 0)%Z /\ (exact_scale 3 4 (-4) + 1 = -2)%Z /\
  forall fuel,
    balance fuel exact_scale (-4) false "label_ids" (labelled [1; 2; 2; 2]%Z) identity_rng
      = None.
Proof.
  split; [reflexivity|]. split; [reflexivity|]. intros fuel.
  apply (balance_stuck fuel exact_scale (-4) false "label_ids" (labelled [1; 2; 2; 2]%Z)
           identity_rng (map LNum [1; 2; 2; 2]%Z)
           [labelled [1]%Z; labelled [2; 2; 2]%Z] 4 0 1);
    solve [reflexivity | done | discriminate].
Qed.

(** C10, amended: with a batch size that is not negative, [balance]
    terminates on every table: the slice length of every class is at
    least 1, so in each round every class whose pass counter is still zero
    moves its cursor on by at least one row, the rows still owed by such
    classes decrease from round to round, and the loop ends after at most
    as many rounds as there are examples.  On a table whose label key does
    not reference exactly one column it ends at once with an exception;
    on a table with a valid label column and at least one example the
    round loop itself never raises and ends in a state in which every
    class has a positive pass counter, so that its condition
    min(pass counters) == 0 is false.  For a batch size below zero the
    slice length of a class can be zero or negative, and whenever it is,
    [balance] never returns. *)
Theorem balance_terminates
    (scale : nat -> nat -> Z -> Z) (bs : Z) (sh : bool) (label_key : string)
    (t : table) (g : rng) :
  (sh = true -> rng_ok g) ->
  ((0 <= bs)%Z ->
   (forall c n b, 0 < n -> (0 <= b)%Z -> (0 <= scale c n b)%Z) ->
   exists fuel, forall fuel', fuel <= fuel' ->
     (exists r, balance fuel' scale bs sh label_key t g = Some r) /\
     (forall ids classes N,
        _check_label_key label_key t = Ok tt ->
        label_ids_of label_key t = Ok ids ->
        _split_by_label_ids ids (unique_labels ids) t = Ok classes ->
        get_number_of_examples t = Ok N ->
        0 < N ->
        exists st g',
          while_rounds fuel'
            (BalEnv scale bs sh (map (count_label ids) (unique_labels ids)) classes N)
            (initial_state (length (unique_labels ids))) g = Some (Ok (st, g')) /\
          length (num_data_cycles st) = length (unique_labels ids) /\
          forall i c, num_data_cycles st !! i = Some c -> 0 < c)) /\
  (forall ids classes N i count,
     _check_label_key label_key t = Ok tt ->
     label_ids_of label_key t = Ok ids ->
     _split_by_label_ids ids (unique_labels ids) t = Ok classes ->
     get_number_of_examples t = Ok N ->
     map (count_label ids) (unique_labels ids) !! i = Some count ->
     (scale count N bs + 1 <= 0)%Z ->
     forall fuel, balance fuel scale bs sh label_key t g = None).
Proof.
  intros Hrng. split.
  2: { intros ids classes N i count Hkey Hids Hsplit HN Hcount Hibs fuel.
       by apply (balance_stuck fuel scale bs sh label_key t g ids classes N i count). }
  intros Hbs Hscale. unfold balance.
  destruct (_check_label_key label_key t) as [[]|e] eqn:Hkey.
  2: { exists 0. intros fuel' _. split; [eauto|]. intros ids classes N H. discriminate H. }
  destruct (label_ids_of label_key t) as [ids|e] eqn:Hids.
  2: { exists 0. intros fuel' _. split; [eauto|]. intros ids classes N _ H. discriminate H. }
  unfold np_unique.
  destruct (_split_by_label_ids ids (unique_labels ids) t) as [classes|e] eqn:Hsplit.
  2: { exists 0. intros fuel' _. split; [eauto|]. intros ids' classes' N' _ H1 H2.
       injection H1 as <-. rewrite Hsplit in H2. discriminate H2. }
  destruct (get_number_of_examples t) as [N|e] eqn:HN.
  2: { exists 0. intros fuel' _. split; [eauto|]. intros ids' classes' N' _ _ _ H.
       discriminate H. }
  pose proof (label_ids_length _ _ _ _ Hkey Hids HN) as HlenN.
  set (env := BalEnv scale bs sh (map (count_label ids) (unique_labels ids)) classes N).
  assert (Hn : length (unique_labels ids) = length (counts_label_ids env))
    by (simpl; by rewrite length_map).
  destruct (decide (N = 0)) as [->|HNpos].
  { exists 0. intros fuel' _. split.
    - destruct ids; [|discriminate HlenN].
      destruct fuel'; simpl; eauto.
    - intros ids' classes' N' _ _ _ H Hpos. injection H as <-. lia. }
  assert (Hsome : 0 < length (counts_label_ids env)).
  { rewrite <- Hn. destruct (unique_labels ids) eqn:Hus; [|simpl; lia].
    apply unique_labels_nil in Hus. subst ids. simpl in HlenN. lia. }
  assert (Henv : env_ok env).
  { split.
    - intros c. apply Hscale; [simpl; lia | done].
    - intros i count Hc. by apply (counts_positive ids i). }
  exists (S (total_owed env (initial_state (length (counts_label_ids env))))).
  intros fuel' Hfuel.
  destruct (while_rounds_terminates env fuel' Henv
              (initial_state (length (counts_label_ids env))) g) as [r Hr].
  { by apply initial_cursors_ok. }
  { simpl. by rewrite length_replicate. }
  { done. }
  { lia. }
  rewrite <- Hn in Hr.
  assert (Hok : exists st g', r = Ok (st, g')).
  { destruct r as [[st g']|e]; [eauto|]. exfalso.
    rewrite Hn in Hr.
    apply (while_rounds_never_raises fuel' env _ g e) in Hr; try done.
    - simpl. rewrite length_map. unfold _split_by_label_ids in Hsplit.
      apply rmapM_Ok, Forall2_length in Hsplit. done.
    - simpl. by rewrite length_replicate.
    - simpl. by rewrite length_replicate.
    - simpl. by rewrite length_replicate. }
  destruct Hok as (st & g' & ->). split.
  - fold (initial_state (length (unique_labels ids))). rewrite Hr. eauto.
  - intros ids' classes' N' _ H1 H2 H3 _.
    injection H1 as <-. rewrite Hsplit in H2. injection H2 as <-. injection H3 as <-.
    exists st, g'. split; [exact Hr|].
    destruct (while_rounds_done _ _ _ _ _ _ Hr) as [Hlen Hall].
    split; [|done]. rewrite Hlen. simpl. by rewrite length_replicate.
Qed.

Lemma exact_scale_nonneg c n b : 0 < n -> (0 <= b)%Z -> (0 <= exact_scale c n b)%Z.
Proof. intros Hn Hb. unfold exact_scale. apply Z.quot_pos; lia. Qed.

Lemma identity_rng_ok : rng_ok identity_rng.
Proof. intros k n. reflexivity. Qed.

Lemma balance_terminates_witness :
  exists fuel, forall fuel', fuel <= fuel' ->
    exists r, balance fuel' exact_scale 1 true "label_ids"
                (labelled [1; 2; 2; 2]%Z) identity_rng = Some r.
Proof.
  destruct (balance_terminates exact_scale 1 true "label_ids"
              (labelled [1; 2; 2; 2]%Z) identity_rng
              (fun _ => identity_rng_ok)) as [Hterm _].
  destruct (Hterm ltac:(lia) exact_scale_nonneg) as [fuel Hfuel].
  exists fuel. intros fuel' Hle. exact (proj1 (Hfuel fuel' Hle)).
Defined.

(** ** What balance leaves behind *)

(** C1, as stated, fails: a class that has completed its pass is visited
    again every other round while larger classes are still on their first
    pass, and its rows are appended once more.  With classes of 1 and 3
    rows and batch size 1 every slice has length int(0.25) + 1 =
    int(0.75) + 1 = 1, and the only row of the first class comes out
    twice: 4 rows in, 5 rows out. *)
Lemma balance_repeats_rows :
  balance 10 exact_scale 1 false "label_ids" (labelled [1; 2; 2; 2]%Z) identity_rng
    = Some (Ok (labelled [1; 2; 2; 1; 2]%Z, identity_rng)) /\
  get_number_of_examples (labelled [1; 2; 2; 2]%Z) = Ok 4 /\
  get_number_of_examples (labelled [1; 2; 2; 1; 2]%Z) = Ok 5.
Proof. repeat split; reflexivity. Qed.

Lemma drop_empty_keys_map_cols {V W : Type} (f : V -> W) (d : dict (list V)) :
  drop_empty_keys (map_cols f d) = map_cols f (drop_empty_keys d).
Proof.
  induction d as [|[k [|v vs]] d IH]; simpl; [done|done|]. by rewrite IH.
Qed.

Lemma columns_map_cols (f : column -> column) (d : table) :
  columns (map_cols f d) = map f (columns d).
Proof.
  unfold columns. induction d as [|[k vs] d IH]; simpl; [done|].
  rewrite map_app. f_equal. apply IH.
Qed.

Lemma dict_keys_map_cols {V W : Type} (f : V -> W) (d : dict (list V)) :
  dict_keys (map_cols f d) = dict_keys d.
Proof. unfold dict_keys, map_cols. rewrite map_map. by apply map_ext. Qed.

Lemma rmapM_total {A B : Type} (f : A -> result B) (g : A -> B) (l : list A) :
  (forall x, In x l -> f x = Ok (g x)) -> rmapM f l = Ok (map g l).
Proof.
  induction l as [|x l IH]; intros H; simpl; [done|].
  rewrite (H x) by (by left). simpl. rewrite IH; [done|].
  intros y Hy. apply H. by right.
Qed.

Lemma rmapM_Ok_In {A B : Type} (f : A -> result B) (l : list A) (l' : list B) x :
  rmapM f l = Ok l' -> In x l -> exists y, f x = Ok y.
Proof.
  revert l'. induction l as [|a l IH]; intros l'; simpl; [done|].
  destruct (f a) as [y|] eqn:Hfa; simpl; [|discriminate].
  destruct (rmapM f l) as [ys|]; simpl; [|discriminate].
  intros _ [<-|Hx]; [eauto|]. by eapply IH.
Qed.

(** [_data_for_ids] with a mask: it succeeds exactly when the mask fits
    every column, and then filters every column. *)
Lemma data_for_ids_mask (mask : list bool) (t ct : table) :
  _data_for_ids (Mask mask) t = Ok ct ->
  (forall c, In c (columns t) -> nrows c = length mask) /\
  ct = map_cols (map_rows (mask_filter mask)) (drop_empty_keys t).
Proof.
  unfold _data_for_ids.
  destruct (rmapM _ t) as [entries|] eqn:Hentries; simpl; [|discriminate].
  intros E. injection E as <-.
  assert (Hfit : forall c, In c (columns t) -> nrows c = length mask).
  { intros c Hc. unfold columns in Hc. apply in_concat in Hc as (vs & Hvs & Hc).
    apply in_map_iff in Hvs as (kv & <- & Hkv).
    destruct (rmapM_Ok_In _ _ _ _ Hentries Hkv) as [y Hy]. simpl in Hy.
    destruct (rmapM (col_index (Mask mask)) (snd kv)) as [cs|] eqn:Hcs; [|discriminate Hy].
    destruct (rmapM_Ok_In _ _ _ _ Hcs Hc) as [c' Hc'].
    simpl in Hc'. by apply col_mask_Ok in Hc' as [-> _]. }
  split; [done|].
  rewrite <- drop_empty_keys_map_cols. f_equal.
  assert (rmapM (fun kv : string * list column =>
                   let* vs := rmapM (col_index (Mask mask)) (snd kv) in Ok (fst kv, vs)) t
          = Ok (map_cols (map_rows (mask_filter mask)) t)) as H; [|congruence].
  apply rmapM_total. intros kv Hkv.
  rewrite (rmapM_total _ (map_rows (mask_filter mask))); [done|].
  intros c Hc. simpl. unfold col_mask. rewrite decide_True; [done|].
  symmetry. apply Hfit. unfold columns. apply in_concat.
  exists (snd kv). split; [|done]. apply in_map_iff. eauto.
Qed.

(** *** Appending the slices of one visit *)

Lemma append_slices_key_first a b (vs : list column) (pre : list (list column)) :
  append_slices_key a b vs (length pre) pre =
    Ok (pre ++ map (fun v => [col_slice a b v]) vs).
Proof.
  revert pre. induction vs as [|v vs IH]; intros pre; simpl.
  - by rewrite app_nil_r.
  - rewrite (proj2 (Nat.ltb_lt _ _)) by lia.
    rewrite lookup_app_r by lia. rewrite Nat.sub_diag. simpl.
    rewrite insert_app_r_alt by lia. rewrite Nat.sub_diag. simpl.
    replace (S (length pre)) with (length (pre ++ [[col_slice a b v]]))
      by (rewrite length_app; simpl; lia).
    rewrite IH. by rewrite <- app_assoc.
Qed.

Lemma append_slices_key_next a b (vs : list column) (pre olds : list (list column)) :
  length olds = length vs ->
  append_slices_key a b vs (length pre) (pre ++ olds) =
    Ok (pre ++ zip_with (fun o v => o ++ [col_slice a b v]) olds vs).
Proof.
  revert pre olds. induction vs as [|v vs IH]; intros pre [|o olds] Hlen;
    simpl in *; try done.
  rewrite (proj2 (Nat.ltb_ge _ _)) by (rewrite length_app; simpl; lia).
  rewrite lookup_app_r by lia. rewrite Nat.sub_diag. simpl.
  rewrite insert_app_r_alt by lia. rewrite Nat.sub_diag. simpl.
  replace (S (length pre)) with (length (pre ++ [o ++ [col_slice a b v]]))
    by (rewrite length_app; simpl; lia).
  replace (pre ++ (o ++ [col_slice a b v]) :: olds)
    with ((pre ++ [o ++ [col_slice a b v]]) ++ olds)
    by (by rewrite <- app_assoc).
  rewrite IH by lia. by rewrite <- app_assoc.
Qed.

Lemma dict_get_notin {V : Type} (d : dict V) k :
  ~ In k (dict_keys d) -> dict_get d k = None.
Proof.
  induction d as [|[k' v] d IH]; simpl; [done|]. intros H.
  rewrite decide_False by tauto. apply IH. tauto.
Qed.

Lemma dict_set_notin {V : Type} (d : dict V) k v :
  ~ In k (dict_keys d) -> dict_set d k v = d ++ [(k, v)].
Proof.
  induction d as [|[k' v'] d IH]; simpl; [done|]. intros H.
  rewrite decide_False by tauto. rewrite IH by tauto. done.
Qed.

Lemma dict_get_app_notin {V : Type} (d1 d2 : dict V) k :
  ~ In k (dict_keys d1) -> dict_get (d1 ++ d2) k = dict_get d2 k.
Proof.
  induction d1 as [|[k' v] d1 IH]; simpl; [done|]. intros H.
  rewrite decide_False by tauto. apply IH. tauto.
Qed.

Lemma dict_set_app_notin {V : Type} (d1 d2 : dict V) k v :
  ~ In k (dict_keys d1) -> dict_set (d1 ++ d2) k v = d1 ++ dict_set d2 k v.
Proof.
  induction d1 as [|[k' v'] d1 IH]; simpl; [done|]. intros H.
  rewrite decide_False by tauto. rewrite IH by tauto. done.
Qed.

Lemma map_cols_app {V W : Type} (f : V -> W) (d1 d2 : dict (list V)) :
  map_cols f (d1 ++ d2) = map_cols f d1 ++ map_cols f d2.
Proof. apply map_app. Qed.

Lemma no_empty_keys_drop {V : Type} (d : dict (list V)) :
  no_empty_keys (drop_empty_keys d).
Proof.
  intros kv Hkv. apply filter_In in Hkv as [_ H]. by destruct (snd kv).
Qed.

Lemma NoDup_keys_drop {V : Type} (d : dict (list V)) :
  List.NoDup (dict_keys d) -> List.NoDup (dict_keys (drop_empty_keys d)).
Proof.
  unfold dict_keys. induction d as [|[k vs] d IH]; simpl; [done|].
  intros H. inversion H as [|? ? Hk Hd]; subst.
  destruct vs; simpl; [by apply IH|].
  constructor; [|by apply IH].
  intros Hin. apply Hk. apply in_map_iff in Hin as (kv & <- & Hkv).
  apply filter_In in Hkv as [Hkv _]. by apply in_map.
Qed.

Lemma append_slices_first a b (F : column -> column) (P R : table) :
  List.NoDup (dict_keys (P ++ R)) -> no_empty_keys R ->
  append_slices a b (map_cols F R) (map_cols (fun c => [col_slice a b (F c)]) P) =
    Ok (map_cols (fun c => [col_slice a b (F c)]) (P ++ R)).
Proof.
  revert P. induction R as [|[k vs] R IH]; intros P Hnd Hne; simpl.
  - by rewrite app_nil_r.
  - assert (Hk : ~ In k (dict_keys P)).
    { unfold dict_keys in *. rewrite map_app in Hnd. simpl in Hnd.
      apply NoDup_remove_2 in Hnd. intros H. apply Hnd, in_app_iff. by left. }
    destruct vs as [|v vs]; [by destruct (Hne (k, []) (or_introl eq_refl))|].
    cbn [map]. rewrite dict_get_notin by (by rewrite dict_keys_map_cols).
    pose proof (append_slices_key_first a b (F v :: map F vs) []) as Hfirst.
    cbn [length] in Hfirst. rewrite Hfirst. clear Hfirst. cbn [rbind app].
    rewrite dict_set_notin by (by rewrite dict_keys_map_cols).
    replace (map (fun v0 => [col_slice a b v0]) (F v :: map F vs))
      with (map (fun c => [col_slice a b (F c)]) (v :: vs))
      by (simpl; by rewrite map_map).
    change (map_cols (fun c => [col_slice a b (F c)]) P ++
            [(k, map (fun c => [col_slice a b (F c)]) (v :: vs))])
      with (map_cols (fun c => [col_slice a b (F c)]) P ++
            map_cols (fun c => [col_slice a b (F c)]) [(k, v :: vs)]).
    rewrite <- map_cols_app. rewrite IH.
    + by rewrite <- app_assoc.
    + by rewrite <- app_assoc.
    + intros kv Hkv. apply Hne. by right.
Qed.

Lemma append_slices_next a b (F : column -> column) (G : column -> list column)
    (P R : table) :
  List.NoDup (dict_keys (P ++ R)) -> no_empty_keys R ->
  append_slices a b (map_cols F R)
    (map_cols (fun c => G c ++ [col_slice a b (F c)]) P ++ map_cols G R) =
    Ok (map_cols (fun c => G c ++ [col_slice a b (F c)]) (P ++ R)).
Proof.
  revert P. induction R as [|[k vs] R IH]; intros P Hnd Hne; simpl.
  - by rewrite !app_nil_r.
  - assert (Hk : ~ In k (dict_keys P)).
    { unfold dict_keys in *. rewrite map_app in Hnd. simpl in Hnd.
      apply NoDup_remove_2 in Hnd. intros H. apply Hnd, in_app_iff. by left. }
    destruct vs as [|v vs]; [by destruct (Hne (k, []) (or_introl eq_refl))|].
    cbn [map]. rewrite dict_get_app_notin by (by rewrite dict_keys_map_cols).
    cbn [dict_get]. rewrite decide_True by done.
    pose proof (append_slices_key_next a b (F v :: map F vs) [] (G v :: map G vs)) as Hnext.
    cbn [length app] in Hnext. rewrite Hnext by (by rewrite !length_map).
    clear Hnext. cbn [rbind app].
    rewrite dict_set_app_notin by (by rewrite dict_keys_map_cols).
    cbn [dict_set]. rewrite decide_True by done.
    assert (Hzip : zip_with (fun o v0 => o ++ [col_slice a b v0])
                     (G v :: map G vs) (F v :: map F vs) =
                   map (fun c => G c ++ [col_slice a b (F c)]) (v :: vs)).
    { clear. change (G v :: map G vs) with (map G (v :: vs)).
      change (F v :: map F vs) with (map F (v :: vs)).
      generalize (v :: vs). intros l.
      induction l as [|x l IH]; simpl; [done|]. by rewrite IH. }
    rewrite Hzip.
    rewrite (cons_middle _ (map_cols _ P)), app_assoc.
    change (map_cols (fun c => G c ++ [col_slice a b (F c)]) P ++
            [(k, map (fun c => G c ++ [col_slice a b (F c)]) (v :: vs))])
      with (map_cols (fun c => G c ++ [col_slice a b (F c)]) P ++
            map_cols (fun c => G c ++ [col_slice a b (F c)]) [(k, v :: vs)]).
    rewrite <- map_cols_app. rewrite IH.
    + by rewrite <- app_assoc.
    + by rewrite <- app_assoc.
    + intros kv Hkv. apply Hne. by right.
Qed.

Lemma append_slices_empty a b (F : column -> column) (R : table) :
  List.NoDup (dict_keys R) -> no_empty_keys R ->
  append_slices a b (map_cols F R) [] =
    Ok (map_cols (fun c => [col_slice a b (F c)]) R).
Proof. exact (append_slices_first a b F [] R). Qed.

Lemma append_slices_full a b (F : column -> column) (G : column -> list column)
    (R : table) :
  List.NoDup (dict_keys R) -> no_empty_keys R ->
  append_slices a b (map_cols F R) (map_cols G R) =
    Ok (map_cols (fun c => G c ++ [col_slice a b (F c)]) R).
Proof. exact (append_slices_next a b F G [] R). Qed.

(** *** The slices taken so far

    A [step] records one slice taken from a class: the class index and the
    bounds of the slice within the rows of that class. *)

Section BalanceRows.

Variable ids : list label.
Variable t0 : table.
Variable env : bal_env.

Hypothesis Hnodup : List.NoDup (dict_keys t0).
Hypothesis Hnonempty : no_empty_keys t0.
Hypothesis Henv : env_ok env.
Hypothesis Hclasses : forall i ct,
  label_data env !! i = Some ct ->
  ct = map_cols (map_rows (mask_filter (class_mask ids i))) t0.

Lemma step_col_slice (i : nat) (a b : Z) (c : column) :
  col_slice a b (map_rows (mask_filter (class_mask ids i)) c) = step_col ids (Step i a b) c.
Proof. by destruct c. Qed.

Lemma stacked_snoc (steps : list step) (s : step) :
  stacked ids t0 (steps ++ [s]) =
    map_cols (fun c => map (fun s' => step_col ids s' c) (steps ++ [s])) t0.
Proof. by destruct steps. Qed.

Lemma append_slices_stacked (i : nat) (a b : Z) (steps : list step) :
  append_slices a b (map_cols (map_rows (mask_filter (class_mask ids i))) t0)
                (stacked ids t0 steps) = Ok (stacked ids t0 (steps ++ [Step i a b])).
Proof.
  rewrite stacked_snoc. destruct steps as [|s0 steps].
  - simpl stacked. rewrite append_slices_empty by done. f_equal.
    apply map_ext. intros [k vs]. simpl. f_equal. apply map_ext. intros c.
    by rewrite step_col_slice.
  - unfold stacked. rewrite append_slices_full by done. f_equal.
    apply map_ext. intros [k vs]. simpl. f_equal.
    apply map_ext. intros c. rewrite map_app. simpl. by rewrite step_col_slice.
Qed.

Lemma visit_rows_inv (index : nat) (st st' : bal_state) (brk : bool) (steps : list step) :
  rows_inv ids t0 env st steps ->
  visit env index st = Ok (st', brk) ->
  exists steps', rows_inv ids t0 env st' steps' /\ (steps' = steps \/ exists s, steps' = steps ++ [s]).
Proof.
  intros (Hnd & Hcov & Hcur & Hlen) Hvisit.
  destruct (visit_owed _ _ _ _ _ Henv Hcur Hvisit) as (Hcur' & _).
  pose proof (visit_length _ _ _ _ _ Hvisit) as Hlen'. rewrite Hlen in Hlen'.
  destruct (visit_Ok _ _ _ _ _ Hvisit)
    as (cycles & skip & Hcyc & Hskip & [(Hpos & -> & -> & ->) | (Hcase & Hadv)]).
  - exists steps. split; [|by left]. split; [done|]. split; [|done].
    intros i count p Hcount Hp H. by eapply Hcov.
  - destruct Hadv as (count & ct & idx & nd & m & Hcount & Hct & Hidx & Happ & -> & _ & _).
    set (s := Step index idx (idx + index_batch_size env count)).
    exists (steps ++ [s]). split; [|by right; eauto].
    pose proof (index_batch_size_pos env count Henv) as Hibs.
    pose proof (Hcur _ _ _ Hidx Hcount) as Hrange.
    split; [|split; [|done]].
    + cbn [advance_state new_data].
      rewrite (Hclasses _ _ Hct), Hnd, append_slices_stacked in Happ.
      injection Happ as <-. reflexivity.
    + intros i cnt p Hcnt Hp H.
      assert (Hold : (exists cyc, num_data_cycles st !! i = Some cyc /\ 0 < cyc) \/
                     (exists x, data_idx st !! i = Some x /\ (Z.of_nat p < x)%Z) ->
                     exists s', In s' (steps ++ [s]) /\ s_class s' = i /\
                       (0 <= s_start s' <= Z.of_nat p)%Z /\ (Z.of_nat p < s_stop s')%Z).
      { intros Ho. destruct (Hcov i cnt p Hcnt Hp Ho) as (s' & Hs' & Hrest).
        exists s'. split; [apply in_app_iff; by left | done]. }
      destruct (decide (i = index)) as [->|Hne].
      * rewrite Hcount in Hcnt. injection Hcnt as <-.
        destruct (decide (Z.of_nat p < idx)%Z) as [Hlt|Hge].
        { apply Hold. right. eauto. }
        destruct (decide (0 < cycles)) as [Hc|Hc].
        { apply Hold. left. eauto. }
        assert (Z.of_nat p < idx + index_batch_size env count)%Z as Hin.
        { unfold advance_state in H. cbn [data_idx num_data_cycles] in H.
          destruct (Z.geb_spec (idx + index_batch_size env count) (Z.of_nat count)); [lia|].
          destruct H as [(cyc & Hc' & Hpos)|(x & Hx & Hlt)].
          - rewrite Hcyc in Hc'. injection Hc' as <-. lia.
          - rewrite (lookup_insert_Some_same _ _ _ _ Hidx) in Hx. injection Hx as <-. lia. }
        exists s. split; [apply in_app_iff; right; by left|].
        subst s. simpl. repeat split; lia.
      * apply Hold. unfold advance_state in H. cbn [data_idx num_data_cycles] in H.
        destruct (_ >=? _)%Z; rewrite ?list_lookup_insert_ne in H by done; done.
Qed.

Lemma for_indices_rows_inv (order : list nat) (st st' : bal_state) (steps : list step) :
  rows_inv ids t0 env st steps ->
  for_indices env order st = Ok st' ->
  exists steps', rows_inv ids t0 env st' steps'.
Proof.
  revert st steps. induction order as [|j order IH]; intros st steps Hinv; simpl.
  - intros E. injection E as <-. eauto.
  - destruct (visit env j st) as [[st1 brk]|] eqn:Hvisit; cbn [rbind fst snd]; [|discriminate].
    destruct (visit_rows_inv _ _ _ _ _ Hinv Hvisit) as (steps1 & Hinv1 & _).
    destruct brk.
    + intros E. injection E as <-. eauto.
    + intros Hrest. by eapply IH.
Qed.

Lemma while_rounds_rows_inv (fuel : nat) (st st' : bal_state) (g g' : rng)
    (steps : list step) :
  rows_inv ids t0 env st steps ->
  while_rounds fuel env st g = Some (Ok (st', g')) ->
  (exists steps', rows_inv ids t0 env st' steps') /\
  (forall i c, num_data_cycles st' !! i = Some c -> 0 < c).
Proof.
  revert st g steps. induction fuel as [|fuel IH]; intros st g steps Hinv; simpl.
  - destruct (min_cycles (num_data_cycles st)) as [m|] eqn:Hmin; [|discriminate].
    destruct (Nat.eqb_spec m 0); [discriminate|].
    intros E. inversion E; subst; clear E. split; [eauto|].
    intros i c Hc. eapply min_cycles_pos; eauto. lia.
  - destruct (min_cycles (num_data_cycles st)) as [m|] eqn:Hmin; [|discriminate].
    destruct (Nat.eqb_spec m 0).
    + destruct (if do_shuffle env then _ else _) as [order g1].
      destruct (for_indices env order st) as [st1|] eqn:Hround; [|discriminate].
      destruct (for_indices_rows_inv _ _ _ _ Hinv Hround) as [steps1 Hinv1].
      by apply (IH st1 g1 steps1).
    + intros E. inversion E; subst; clear E. split; [eauto|].
      intros i c Hc. eapply min_cycles_pos; eauto. lia.
Qed.

End BalanceRows.

(** *** Concatenating the slices *)

Lemma col_concat_dense {S : Type} (tl : list nat) (f : S -> list (list Z)) (steps : list S) :
  steps <> [] ->
  col_concat (map (fun s => Dense (NdArray tl (f s))) steps) =
    Ok (Dense (NdArray tl (concat (map f steps)))).
Proof.
  induction steps as [|s steps IH]; [done|]. intros _.
  destruct steps as [|s' steps].
  - simpl. by rewrite app_nil_r.
  - change (col_concat (map (fun s0 => Dense (NdArray tl (f s0))) (s :: s' :: steps)))
      with (let* r := col_concat (map (fun s0 => Dense (NdArray tl (f s0))) (s' :: steps)) in
            col_concat2 (Dense (NdArray tl (f s))) r).
    rewrite IH by done. simpl. by rewrite decide_True.
Qed.

Lemma col_concat_sparse {S : Type} (f : S -> spmatrix) (steps : list S) :
  col_concat (map (fun s => Sparse (f s)) steps) = Raise ShapeMismatchError.
Proof.
  induction steps as [|s steps IH]; [done|].
  destruct steps as [|s' steps]; [done|].
  change (col_concat (map (fun s0 => Sparse (f s0)) (s :: s' :: steps)))
    with (let* r := col_concat (map (fun s0 => Sparse (f s0)) (s' :: steps)) in
          col_concat2 (Sparse (f s)) r).
  by rewrite IH.
Qed.

Lemma drop_empty_keys_id {V : Type} (d : dict (list V)) :
  no_empty_keys d -> drop_empty_keys d = d.
Proof.
  induction d as [|[k vs] d IH]; intros H; simpl; [done|].
  destruct vs; [by destruct (H (k, []) (or_introl eq_refl))|].
  rewrite IH; [done|]. intros kv Hkv. apply H. by right.
Qed.

(** A table rebuilt by a fallible function on its columns. *)
Lemma rmapM_dict {V : Type} (f : V -> result column) (d : dict (list V)) (entries : table) :
  rmapM (fun kv : string * list V =>
           let* vs := rmapM f (snd kv) in Ok (fst kv, vs)) d = Ok entries ->
  dict_keys entries = dict_keys d /\
  Forall2 (fun v c => f v = Ok c) (concat (dict_values d)) (columns entries) /\
  (no_empty_keys d -> no_empty_keys entries).
Proof.
  revert entries. induction d as [|[k vs] d IH]; intros entries; simpl.
  - intros E. injection E as <-. repeat split; [constructor|]. by intros _ kv [].
  - destruct (rmapM f vs) as [cs|] eqn:Hcs; simpl; [|discriminate].
    destruct (rmapM _ d) as [rest|] eqn:Hrest; simpl; [|discriminate].
    intros E. injection E as <-. destruct (IH rest eq_refl) as (Hk & Hc & Hne).
    apply rmapM_Ok in Hcs. split; [by simpl; rewrite Hk|]. split.
    + unfold columns. simpl. by apply Forall2_app.
    + intros Hd kv [<-|Hkv].
      * simpl. specialize (Hd (k, vs) (or_introl eq_refl)). simpl in Hd.
        intros ->. apply Forall2_nil_inv_r in Hcs. done.
      * apply Hne; [|done]. intros kv' Hkv'. apply Hd. by right.
Qed.

(** *** Steps as index selections *)

Lemma slice_list_map {A B : Type} (g : A -> B) (a b : Z) (l : list A) :
  slice_list a b B (map g l) = map g (slice_list a b A l).
Proof. unfold slice_list. by rewrite length_map, skipn_map, firstn_map. Qed.

Lemma slice_list_In {A : Type} (a b : Z) (l : list A) (x : A) :
  In x (slice_list a b A l) -> In x l.
Proof.
  unfold slice_list. intros H. apply list_elem_of_In in H.
  apply list_elem_of_In. by eapply subseteq_drop, subseteq_take.
Qed.

Lemma mask_filter_In {A : Type} (mask : list bool) (l : list A) (x : A) :
  In x (mask_filter mask A l) -> In x l.
Proof.
  revert l. induction mask as [|m mask IH]; intros [|y l]; simpl; try done.
  destruct m; simpl; [intros [->|H]|intros H]; auto.
Qed.

Lemma slice_list_lookup_In {A : Type} (a b : Z) (l : list A) (p : nat) (x : A) :
  l !! p = Some x -> (0 <= a <= Z.of_nat p)%Z -> (Z.of_nat p < b)%Z ->
  In x (slice_list a b A l).
Proof.
  intros Hp Ha Hb. pose proof (lookup_lt_Some _ _ _ Hp) as Hlt.
  unfold slice_list, slice_bound.
  destruct (Z.ltb_spec a 0); [lia|]. destruct (Z.ltb_spec b 0); [lia|].
  apply list_elem_of_In, list_elem_of_lookup. exists (p - Z.to_nat a).
  rewrite lookup_take_lt by lia. rewrite lookup_drop.
  replace (Nat.min (Z.to_nat a) (length l) + (p - Z.to_nat a)) with p by lia. done.
Qed.

Lemma map_nth_seq {A : Type} (d : A) (l : list A) :
  map (fun j => nth j l d) (seq 0 (length l)) = l.
Proof.
  induction l as [|x l IH]; simpl; [done|]. f_equal.
  rewrite <- seq_shift, map_map. exact IH.
Qed.

Lemma lookup_nth {A : Type} (d : A) (l : list A) (j : nat) :
  j < length l -> l !! j = Some (nth j l d).
Proof.
  revert j. induction l as [|x l IH]; intros [|j] H; simpl in *; try lia; [done|].
  apply IH. lia.
Qed.

Lemma mask_filter_seq_In (p : label -> bool) (ids : list label) (k j : nat) (l : label) :
  ids !! j = Some l -> p l = true ->
  In (k + j) (mask_filter (map p ids) nat (seq k (length ids))).
Proof.
  revert k j. induction ids as [|l0 ids IH]; intros k j; [by rewrite lookup_nil|].
  destruct j as [|j]; simpl.
  - intros E Hp. injection E as ->. rewrite Hp, Nat.add_0_r. by left.
  - intros Hj Hp. replace (k + S j) with (S k + j) by lia.
    destruct (p l0); [right|]; by apply IH.
Qed.

Lemma filter_bool_decide_length (ids : list label) (u : label) :
  length (List.filter (fun l => bool_decide (l = u)) ids) = count_label ids u.
Proof.
  unfold count_label. induction ids as [|l ids IH]; simpl; [done|].
  rewrite filter_cons. destruct (decide (l = u)) as [->|Hne].
  - rewrite bool_decide_eq_true_2 by done. simpl. by rewrite IH.
  - rewrite bool_decide_eq_false_2 by done. done.
Qed.

Lemma apply_step_nat {A : Type} (d : A) (ids : list label) (s : step) (l : list A) :
  apply_step ids s A l =
    map (fun j => nth j l d) (apply_step ids s nat (seq 0 (length l))).
Proof.
  unfold apply_step. rewrite <- (map_nth_seq d l) at 1.
  by rewrite mask_filter_map, slice_list_map.
Qed.

Lemma selection_lt (ids : list label) (steps : list step) (N j : nat) :
  In j (selection ids steps N) -> j < N.
Proof.
  unfold selection. intros H. apply in_concat in H as (l & Hl & Hj).
  apply in_map_iff in Hl as (s & <- & _).
  unfold apply_step in Hj. apply slice_list_In, mask_filter_In, in_seq in Hj. lia.
Qed.

Lemma take_ids_selection {A : Type} (d : A) (ids : list label) (steps : list step)
    (l : list A) :
  take_ids (selection ids steps (length l)) l =
    Ok (concat (map (fun s => apply_step ids s A l) steps)).
Proof.
  unfold take_ids.
  rewrite (rmapM_total _ (fun j => nth j l d)).
  - f_equal. unfold selection. rewrite concat_map, map_map. f_equal.
    apply map_ext. intros s. by rewrite (apply_step_nat d).
  - intros j Hj. apply selection_lt in Hj. by rewrite (lookup_nth d).
Qed.

Lemma col_concat_selection (ids : list label) (steps : list step) (c c' : column) :
  col_concat (map (fun s => step_col ids s c) steps) = Ok c' ->
  col_take (selection ids steps (nrows c)) c = Ok c'.
Proof.
  destruct c as [a|m]; unfold step_col; simpl.
  - destruct steps as [|s0 steps]; [discriminate|].
    rewrite (col_concat_dense (tail a) (fun s => apply_step ids s _ (rows a))) by done.
    intros E. injection E as <-.
    by rewrite (take_ids_selection []).
  - by rewrite (col_concat_sparse (fun s => SpMatrix (ncols m) (apply_step ids s _ (sprows m)))).
Qed.

Lemma class_rows_length (ids : list label) (i : nat) (u : label) :
  unique_labels ids !! i = Some u ->
  length (mask_filter (class_mask ids i) nat (seq 0 (length ids))) = count_label ids u.
Proof.
  intros Hu. unfold class_mask. rewrite Hu.
  rewrite (mask_filter_length _ _ ids) by (by rewrite ?length_map, ?length_seq).
  by rewrite mask_filter_self, filter_bool_decide_length.
Qed.

(** Every row index is selected once all classes have completed a pass. *)
Lemma selection_complete (ids : list label) (env : bal_env) (st : bal_state)
    (steps : list step) (j : nat) :
  counts_label_ids env = map (count_label ids) (unique_labels ids) ->
  covered env st steps ->
  length (num_data_cycles st) = length (counts_label_ids env) ->
  (forall i c, num_data_cycles st !! i = Some c -> 0 < c) ->
  j < length ids ->
  In j (selection ids steps (length ids)).
Proof.
  intros Hcounts Hcov Hlen Hdone Hj.
  destruct (lookup_lt_is_Some_2 ids j Hj) as [l Hl].
  assert (l ∈ unique_labels ids) as Hin.
  { apply elem_of_unique_labels. by eapply list_elem_of_lookup_2. }
  apply list_elem_of_lookup_1 in Hin as [i Hi].
  set (cls := mask_filter (class_mask ids i) nat (seq 0 (length ids))).
  assert (Hjc : In j cls).
  { subst cls. unfold class_mask. rewrite Hi.
    apply (mask_filter_seq_In (fun l' => bool_decide (l' = l)) ids 0 j l Hl).
    by apply bool_decide_eq_true_2. }
  apply list_elem_of_In, list_elem_of_lookup_1 in Hjc as [p Hp].
  assert (Hcount : counts_label_ids env !! i = Some (count_label ids l)).
  { by rewrite Hcounts, lookup_map, Hi. }
  assert (Hpc : p < count_label ids l).
  { rewrite <- (class_rows_length ids i l Hi). by eapply lookup_lt_Some. }
  assert (Hcyc : exists cyc, num_data_cycles st !! i = Some cyc /\ 0 < cyc).
  { destruct (lookup_lt_is_Some_2 (num_data_cycles st) i) as [cyc Hcyc].
    - rewrite Hlen. by eapply lookup_lt_Some.
    - exists cyc. split; [done|]. by eapply Hdone. }
  destruct (Hcov i _ p Hcount Hpc (or_introl Hcyc)) as (s & Hs & Hclass & Ha & Hb).
  unfold selection. apply in_concat.
  exists (apply_step ids s nat (seq 0 (length ids))). split.
  - apply in_map_iff. eauto.
  - unfold apply_step. rewrite Hclass. fold cls.
    by eapply slice_list_lookup_In.
Qed.

Lemma split_by_label_ids_classes (ids : list label) (t : table) (classes : list table) :
  _split_by_label_ids ids (unique_labels ids) t = Ok classes ->
  length classes = length (unique_labels ids) /\
  forall i ct, classes !! i = Some ct ->
    (forall c, In c (columns t) -> nrows c = length ids) /\
    ct = map_cols (map_rows (mask_filter (class_mask ids i))) (drop_empty_keys t).
Proof.
  unfold _split_by_label_ids. intros H. apply rmapM_Ok in H.
  split; [symmetry; by eapply Forall2_length|].
  intros i ct Hct.
  destruct (Forall2_lookup_r _ _ _ _ _ H Hct) as (u & Hu & Hdata).
  apply data_for_ids_mask in Hdata as [Hfit ->].
  unfold class_mask. rewrite Hu. split; [|done].
  intros c Hc. rewrite (Hfit c Hc). by rewrite length_map.
Qed.

Lemma get_number_of_examples_intro (t : table) (N : nat) :
  columns t <> [] -> (forall c, In c (columns t) -> nrows c = N) ->
  get_number_of_examples t = Ok N.
Proof.
  intros Hne Hall. unfold get_number_of_examples, example_lengths.
  destruct (columns t) as [|c0 cs] eqn:Hc; [done|].
  assert (Hf : forallb (fun len => len =? hd 0 (map nrows (c0 :: cs)))
                 (map nrows (c0 :: cs)) = true).
  { apply forallb_forall. intros len Hlen. apply Nat.eqb_eq.
    apply in_map_iff in Hlen as (c & <- & Hin). simpl.
    rewrite (Hall c Hin). symmetry. apply Hall. by left. }
  rewrite Hf. simpl. f_equal. apply Hall. by left.
Qed.

Lemma dict_values_map_cols {V W : Type} (f : V -> W) (d : dict (list V)) :
  concat (dict_values (map_cols f d)) = map f (concat (dict_values d)).
Proof.
  induction d as [|[k vs] d IH]; simpl; [done|].
  rewrite map_app. f_equal. apply IH.
Qed.

Lemma Forall2_map_l {A B C : Type} (P : B -> C -> Prop) (f : A -> B)
    (l : list A) (k : list C) :
  Forall2 P (map f l) k -> Forall2 (fun x y => P (f x) y) l k.
Proof.
  revert k. induction l as [|x l IH]; intros k H; inversion H; subst; constructor; auto.
Qed.

(** The table made from the stacked slices is the input table with every
    column indexed by the selection. *)
Lemma final_data_stacked (ids : list label) (t0 t' : table) (steps : list step) (N : nat) :
  no_empty_keys t0 -> steps <> [] ->
  (forall c, In c (columns t0) -> nrows c = N) ->
  final_data (stacked ids t0 steps) = Ok t' ->
  dict_keys t' = dict_keys t0 /\
  Forall2 (fun c c' => col_take (selection ids steps N) c = Ok c') (columns t0) (columns t').
Proof.
  intros Hne Hsteps Hrows. unfold stacked.
  destruct steps as [|s0 steps]; [done|]. clear Hsteps.
  unfold final_data.
  destruct (rmapM _ _) as [entries|] eqn:Hentries; simpl; [|discriminate].
  intros E. injection E as <-.
  apply rmapM_dict in Hentries as (Hkeys & Hcols & Hnonempty).
  rewrite dict_keys_map_cols in Hkeys.
  rewrite drop_empty_keys_id.
  2:{ apply Hnonempty. intros kv Hkv. apply in_map_iff in Hkv as (kv0 & <- & Hkv0).
      simpl. specialize (Hne kv0 Hkv0). by destruct (snd kv0). }
  split; [done|].
  rewrite dict_values_map_cols in Hcols. apply Forall2_map_l in Hcols.
  apply Forall2_same_length_lookup_2; [by eapply Forall2_length|].
  intros i c c' Hc Hc'.
  pose proof (Forall2_lookup_lr _ _ _ _ _ _ Hcols Hc Hc') as Hcat.
  apply (col_concat_selection ids (s0 :: steps)) in Hcat.
  rewrite <- (Hrows c); [done|].
  apply list_elem_of_In. by eapply list_elem_of_lookup_2.
Qed.

Lemma initial_rows_inv (ids : list label) (t0 : table) (env : bal_env) :
  env_ok env ->
  rows_inv ids t0 env (initial_state (length (counts_label_ids env))) [].
Proof.
  intros Henv. split; [done|]. split; [|split].
  - intros i count p _ _ [(cyc & Hc & Hpos)|(idx & Hidx & Hlt)]; simpl in *.
    + apply lookup_replicate in Hc as [-> _]. lia.
    + apply lookup_replicate in Hidx as [-> _]. lia.
  - by apply initial_cursors_ok.
  - simpl. by rewrite length_replicate.
Qed.

(** *** The rounds only look at the slice lengths of the classes *)

Lemma visit_scale_ext (sc : nat -> nat -> Z -> Z) env index st :
  (forall i count, counts_label_ids env !! i = Some count ->
     sc count (num_examples env) (batch_size env) =
       scale env count (num_examples env) (batch_size env)) ->
  visit (BalEnv sc (batch_size env) (do_shuffle env) (counts_label_ids env)
                (label_data env) (num_examples env)) index st
    = visit env index st.
Proof.
  intros H. unfold visit. cbn [scale batch_size counts_label_ids label_data num_examples].
  destruct (num_data_cycles st !! index) as [cycles|]; [|done]. cbn [of_option rbind].
  destruct (skipped st !! index) as [skip|]; [|done]. cbn [of_option rbind].
  destruct ((0 <? cycles) && negb skip); [done|].
  destruct (counts_label_ids env !! index) as [count|] eqn:Hc; [|done].
  cbn [of_option rbind]. by rewrite (H _ _ Hc).
Qed.

Lemma for_indices_scale_ext (sc : nat -> nat -> Z -> Z) env (order : list nat) st :
  (forall i count, counts_label_ids env !! i = Some count ->
     sc count (num_examples env) (batch_size env) =
       scale env count (num_examples env) (batch_size env)) ->
  for_indices (BalEnv sc (batch_size env) (do_shuffle env) (counts_label_ids env)
                      (label_data env) (num_examples env)) order st
    = for_indices env order st.
Proof.
  intros H. revert st. induction order as [|j order IH]; intros st; simpl; [done|].
  rewrite (visit_scale_ext sc env j st H).
  destruct (visit env j st) as [[st1 brk]|]; cbn [rbind fst snd]; [|done].
  destruct brk; [done | apply IH].
Qed.

Lemma while_rounds_scale_ext (sc : nat -> nat -> Z -> Z) (fuel : nat) env st g :
  (forall i count, counts_label_ids env !! i = Some count ->
     sc count (num_examples env) (batch_size env) =
       scale env count (num_examples env) (batch_size env)) ->
  while_rounds fuel (BalEnv sc (batch_size env) (do_shuffle env) (counts_label_ids env)
                            (label_data env) (num_examples env)) st g
    = while_rounds fuel env st g.
Proof.
  intros H. revert st g. induction fuel as [|fuel IH]; intros st g; simpl; [done|].
  destruct (min_cycles (num_data_cycles st)) as [m|]; [|done].
  destruct (m =? 0); [|done].
  destruct (if do_shuffle env then _ else _) as [order g1].
  rewrite (for_indices_scale_ext sc env order st H).
  destruct (for_indices env order st) as [st1|]; [apply IH | done].
Qed.

(** C1, amended: when [balance] runs to completion on a table (a
    dictionary, so its keys are distinct), whatever the batch size, the
    table it leaves behind has the keys of the input that hold columns,
    and each of its columns is the input column indexed by one and the
    same list of row indices; that list holds every row index of the
    input at least once, so no row is dropped, rows stay aligned across
    columns, and the example count does not shrink.  Rows do get
    repeated.  (A run that completes has given every class a slice of at
    least one row per visit: a class with a shorter slice never completes
    its pass.) *)
Theorem balance_keeps_rows
    (fuel : nat) (scale : nat -> nat -> Z -> Z) (bs : Z) (sh : bool)
    (label_key : string) (t t' : table) (g g' : rng) :
  List.NoDup (dict_keys t) ->
  balance fuel scale bs sh label_key t g = Some (Ok (t', g')) ->
  exists (N : nat) (sel : list nat),
    get_number_of_examples t = Ok N /\
    (forall j, j < N -> In j sel) /\
    (forall j, In j sel -> j < N) /\
    Forall2 (fun c c' => col_take sel c = Ok c') (columns t) (columns t') /\
    dict_keys t' = dict_keys (drop_empty_keys t) /\
    get_number_of_examples t' = Ok (length sel) /\
    N <= length sel.
Proof.
  intros Hnodup Hrun. unfold balance in Hrun.
  destruct (_check_label_key label_key t) as [[]|] eqn:Hkey; [|discriminate].
  destruct (label_ids_of label_key t) as [ids|] eqn:Hids; [|discriminate].
  unfold np_unique in Hrun.
  destruct (_split_by_label_ids ids (unique_labels ids) t) as [classes|] eqn:Hsplit;
    [|discriminate].
  destruct (get_number_of_examples t) as [N|] eqn:HN; [|discriminate].
  set (env0 := BalEnv scale bs sh (map (count_label ids) (unique_labels ids)) classes N)
    in Hrun.
  replace (length (unique_labels ids)) with (length (counts_label_ids env0)) in Hrun
    by (simpl; by rewrite length_map).
  fold (initial_state (length (counts_label_ids env0))) in Hrun.
  destruct (while_rounds fuel env0 _ g) as [[[st g1]|]|] eqn:Hloop0; try discriminate.
  destruct (final_data (new_data st)) as [t''|] eqn:Hfinal; simpl in Hrun; [|discriminate].
  injection Hrun as -> ->.
  pose proof (label_ids_length _ _ _ _ Hkey Hids HN) as HlenN.
  assert (Hids_ne : 0 < length ids).
  { destruct ids as [|l ids]; [|simpl; lia]. exfalso.
    destruct fuel; vm_compute in Hloop0; discriminate Hloop0. }
  assert (Hslices : forall i count, counts_label_ids env0 !! i = Some count ->
                      (0 <= scale count N bs)%Z).
  { intros i count Hc.
    destruct (Z.le_gt_cases 0 (scale count N bs)) as [|Hneg]; [done|]. exfalso.
    pose proof (lookup_lt_Some _ _ _ Hc) as Hi.
    apply (while_rounds_stuck fuel env0 _ st g g' i count) in Hloop0; try done.
    - by apply (counts_positive ids i).
    - unfold index_batch_size. simpl. lia.
    - simpl. by apply lookup_replicate_2.
    - exists 0%Z. split; [|done]. simpl. by apply lookup_replicate_2. }
  set (env := BalEnv (fun c n b => Z.max 0 (scale c n b)) bs sh
                     (map (count_label ids) (unique_labels ids)) classes N).
  assert (Hloop : while_rounds fuel env (initial_state (length (counts_label_ids env))) g
                  = Some (Ok (st, g'))).
  { rewrite <- Hloop0.
    apply (while_rounds_scale_ext (fun c n b => Z.max 0 (scale c n b)) fuel env0).
    intros i count Hc. specialize (Hslices i count Hc). simpl. lia. }
  assert (Henv : env_ok env).
  { split.
    - intros c. simpl. lia.
    - intros i count Hc. by apply (counts_positive ids i). }
  destruct (split_by_label_ids_classes _ _ _ Hsplit) as [_ Hclasses].
  set (t0 := drop_empty_keys t).
  destruct (while_rounds_rows_inv ids t0 env (NoDup_keys_drop t Hnodup)
              (no_empty_keys_drop t) Henv (fun i ct H => proj2 (Hclasses i ct H))
              fuel _ _ _ _ [] (initial_rows_inv ids t0 env Henv) Hloop)
    as [[steps (Hnd & Hcov & Hcur & Hlen)] Hdone].
  assert (Hcomplete : forall j, j < N -> In j (selection ids steps N)).
  { intros j Hj. rewrite <- HlenN.
    apply (selection_complete ids env st steps j); try done. lia. }
  assert (Hsteps : steps <> []).
  { intros ->. by destruct (Hcomplete 0 ltac:(lia)). }
  assert (Hrows : forall c, In c (columns t0) -> nrows c = N).
  { intros c Hc. subst t0. rewrite columns_drop_empty_keys in Hc.
    by apply (get_number_of_examples_Ok t N HN). }
  rewrite Hnd in Hfinal.
  destruct (final_data_stacked ids t0 t' steps N (no_empty_keys_drop t) Hsteps Hrows Hfinal)
    as [Hkeys Hcols].
  subst t0. rewrite columns_drop_empty_keys in Hcols.
  exists N, (selection ids steps N).
  split; [done|]. split; [done|]. split; [by apply selection_lt|].
  split; [done|]. split; [done|]. split.
  - apply get_number_of_examples_intro.
    + destruct (label_key_inv _ _ _ Hkey Hids) as (a & f & Hget & _).
      pose proof (dict_get_In_columns t _ _ (Dense a) Hget (or_introl eq_refl)) as Hin.
      intros Hnil. rewrite Hnil in Hcols. apply Forall2_nil_inv_r in Hcols.
      by rewrite Hcols in Hin.
    + intros c' Hc'. destruct (Forall2_In_r _ _ _ _ Hcols Hc') as (c & _ & Htake).
      by eapply nrows_col_take.
  - assert (length (seq 0 N) <= length (selection ids steps N)) as Hle.
    { apply NoDup_incl_length; [apply seq_NoDup|].
      intros j Hj. apply in_seq in Hj. apply Hcomplete. lia. }
    by rewrite length_seq in Hle.
Qed.

Lemma balance_keeps_rows_witness :
  exists (N : nat) (sel : list nat),
    get_number_of_examples (labelled [1; 2; 2; 2]%Z) = Ok N /\
    (forall j, j < N -> In j sel) /\
    (forall j, In j sel -> j < N) /\
    Forall2 (fun c c' => col_take sel c = Ok c')
            (columns (labelled [1; 2; 2; 2]%Z)) (columns (labelled [1; 2; 2; 1; 2]%Z)) /\
    dict_keys (labelled [1; 2; 2; 1; 2]%Z) =
      dict_keys (drop_empty_keys (labelled [1; 2; 2; 2]%Z)) /\
    get_number_of_examples (labelled [1; 2; 2; 1; 2]%Z) = Ok (length sel) /\
    N <= length sel.
Proof.
  apply (balance_keeps_rows 10 exact_scale (-1) false "label_ids"
           (labelled [1; 2; 2; 2]%Z) (labelled [1; 2; 2; 1; 2]%Z)
           identity_rng identity_rng).
  - constructor; [simpl; tauto | constructor].
  - reflexivity.
Defined.

(** ** Batch generator *)









Lemma shuffle_examples (t t' : table) (g g' : rng) (N : nat) :
  shuffle t g = Ok (t', g') ->
  get_number_of_examples t = Ok N ->
  length (draw g (used g) N) = N ->
  get_number_of_examples t' = Ok N.
Proof.
  unfold shuffle. intros Hsh HN Hdraw. rewrite HN in Hsh. simpl in Hsh.
  unfold _data_for_ids in Hsh.
  destruct (rmapM _ t) as [entries|] eqn:Hentries; simpl in Hsh; [|discriminate].
  injection Hsh as <- <-.
  apply rmapM_dict in Hentries as (_ & Hcols & _).
  apply get_number_of_examples_intro.
  - rewrite columns_drop_empty_keys. intros Hnil. rewrite Hnil in Hcols.
    apply Forall2_nil_inv_r in Hcols.
    unfold get_number_of_examples, example_lengths, columns in HN.
    rewrite Hcols in HN. discriminate HN.
  - intros c' Hc'. rewrite columns_drop_empty_keys in Hc'.
    destruct (Forall2_In_r _ _ _ _ Hcols Hc') as (c & _ & Htake).
    simpl in Htake. by rewrite (nrows_col_take _ _ _ Htake).
Qed.

(** *** shuffle on a consistent table *)

Lemma take_ids_in_range {A : Type} (d : A) (ids : list nat) (l : list A) :
  (forall j, In j ids -> j < length l) -> take_ids ids l = Ok (rows_at d ids l).
Proof.
  intros H. unfold take_ids, rows_at. apply rmapM_total.
  intros j Hj. by rewrite (lookup_nth d) by (by apply H).
Qed.

Lemma col_take_in_range (ids : list nat) (c : column) :
  (forall j, In j ids -> j < nrows c) -> col_take ids c = Ok (permute_col ids c).
Proof.
  intros H. destruct c as [a|m]; simpl in *; by rewrite (take_ids_in_range []).
Qed.

Lemma data_for_ids_in_range (ids : list nat) (t : table) :
  (forall c, In c (columns t) -> forall j, In j ids -> j < nrows c) ->
  _data_for_ids (Ids ids) t = Ok (map_cols (permute_col ids) (drop_empty_keys t)).
Proof.
  intros H. unfold _data_for_ids.
  rewrite (rmapM_total _ (fun kv => (fst kv, map (permute_col ids) (snd kv)))).
  - simpl. f_equal. apply (drop_empty_keys_map_cols (permute_col ids) t).
  - intros kv Hkv. rewrite (rmapM_total _ (permute_col ids)); [done|].
    intros c Hc. simpl. apply col_take_in_range. apply H.
    unfold columns. apply in_concat. exists (snd kv). split; [|done].
    apply in_map_iff. eauto.
Qed.

Lemma shuffle_run (t : table) (g : rng) (N : nat) :
  get_number_of_examples t = Ok N -> rng_ok g ->
  draw g (used g) N ≡ₚ seq 0 N /\
  shuffle t g =
    Ok (map_cols (permute_col (draw g (used g) N)) (drop_empty_keys t),
        Rng (draw g) (S (used g))).
Proof.
  intros HN Hrng. split; [apply Hrng|].
  unfold shuffle. rewrite HN. simpl.
  rewrite data_for_ids_in_range; [done|].
  intros c Hc j Hj. rewrite (get_number_of_examples_Ok t N HN c Hc).
  apply list_elem_of_In in Hj. rewrite (Hrng (used g) N) in Hj.
  apply list_elem_of_In, in_seq in Hj. lia.
Qed.

(** *** A batch read back *)








Example prepare_batch_sparse :
  prepare_batch
    [("text_features",
      [Sparse (SpMatrix 5 [[(0, 1%Z)]; [(3, 2%Z); (4, 7%Z)]; []])])] 1 3 =
    [TIndices [[0; 0; 3]; [0; 0; 4]]; TValues [2; 7]%Z; TShape [2; 1; 5]].
Proof. reflexivity. Qed.




(** * Further properties *)

(** ** add_features on a new key *)

Lemma dict_contains_false {V : Type} (d : dict V) (k : string) :
  dict_contains d k = false <-> ~ In k (dict_keys d).
Proof.
  unfold dict_contains. induction d as [|[k' v] d IH]; simpl; [tauto|].
  destruct (decide (k' = k)) as [->|Hne].
  - split; [discriminate | intros H; exfalso; apply H; by left].
  - rewrite IH. split; [intros H [H'|H']; tauto | tauto].
Qed.

Lemma dict_del_snoc {V : Type} (d : dict V) (k : string) (v : V) :
  ~ In k (dict_keys d) -> dict_del (d ++ [(k, v)]) k = d.
Proof.
  induction d as [|[k' v'] d IH]; simpl; intros H.
  - by rewrite decide_True.
  - rewrite decide_False by tauto. rewrite IH by tauto. done.
Qed.

Lemma add_features_loop (key : string) (features kept : list column) (t : table) :
  fold_left
    (fun acc data => if 0 <? size data then dict_append acc key data else acc)
    features (dict_set t key kept) =
  dict_set t key (kept ++ List.filter (fun data => 0 <? size data) features).
Proof.
  revert kept. induction features as [|data features IH]; intros kept; simpl.
  - by rewrite app_nil_r.
  - destruct (0 <? size data).
    + rewrite dict_append_set, IH. by rewrite <- app_assoc.
    + apply IH.
Qed.

(** X1: on a key that is not in the table, [add_features] never raises; it
    appends the key, bound to the given columns that have elements, in
    their order, behind the keys already there, and leaves the table as it
    was when no column has elements. *)
Theorem add_features_new_key (key : string) (features : list column) (t : table) :
  dict_contains t key = false ->
  add_features key features t =
    (match List.filter (fun data => 0 <? size data) features with
     | [] => t
     | kept => t ++ [(key, kept)]
     end, Ok tt).
Proof.
  intros Hfresh. pose proof (proj1 (dict_contains_false t key) Hfresh) as Hnotin.
  unfold add_features. destruct features as [|c cs]; [done|].
  rewrite Hfresh. rewrite (add_features_loop key (c :: cs) [] t). cbn [app].
  generalize (List.filter (fun data => 0 <? size data) (c :: cs)). intros kept.
  rewrite dict_get_set_eq. destruct kept as [|k ks].
  - rewrite dict_set_notin by done. by rewrite dict_del_snoc.
  - by rewrite dict_set_notin.
Qed.

Lemma add_features_new_key_witness :
  add_features "mask" [empty_dense; sample_dense; empty_dense] sample_table =
    (sample_table ++ [("mask", [sample_dense])], Ok tt) /\
  add_features "mask" [empty_dense] sample_table = (sample_table, Ok tt).
Proof.
  split.
  - apply (add_features_new_key "mask" [empty_dense; sample_dense; empty_dense]
             sample_table). reflexivity.
  - apply (add_features_new_key "mask" [empty_dense] sample_table). reflexivity.
Defined.

(** ** The label key of split and balance *)

(** X2: [split] and [balance] check the label key before anything else:
    with the key absent or bound to more than one column both raise
    MissingKeyError, whatever the other arguments; with the key bound to
    an empty list of columns the check passes and reading the first column
    raises an IndexError. *)
Theorem label_key_errors
    (sk : sklearn) (n seed : Z) (fuel : nat) (scale : nat -> nat -> Z -> Z) (bs : Z)
    (sh : bool) (label_key : string) (t : table) (g : rng) :
  (dict_get t label_key = None \/
   (exists cols, dict_get t label_key = Some cols /\ 1 < length cols) ->
   split sk n seed label_key t = Raise MissingKeyError /\
   balance fuel scale bs sh label_key t g = Some (Raise MissingKeyError)) /\
  (dict_get t label_key = Some [] ->
   split sk n seed label_key t = Raise IndexError /\
   balance fuel scale bs sh label_key t g = Some (Raise IndexError)).
Proof.
  split.
  - intros H.
    assert (Hkey : _check_label_key label_key t = Raise MissingKeyError).
    { unfold _check_label_key. destruct H as [->|(cols & -> & Hlen)]; [done|].
      by rewrite (proj2 (Nat.ltb_lt _ _) Hlen). }
    unfold split, balance. by rewrite Hkey.
  - intros H.
    assert (Hkey : _check_label_key label_key t = Ok tt).
    { unfold _check_label_key. by rewrite H. }
    assert (Hids : label_ids_of label_key t = Raise IndexError).
    { unfold label_ids_of. by rewrite H. }
    unfold split, balance. by rewrite Hkey, Hids.
Qed.

Lemma label_key_errors_witness :
  split first_rows_sampler 1 42 "intent" sample_table = Raise MissingKeyError /\
  balance 0 exact_scale 4 true "intent" sample_table identity_rng
    = Some (Raise MissingKeyError).
Proof.
  destruct (label_key_errors first_rows_sampler 1 42 0 exact_scale 4 true "intent"
              sample_table identity_rng) as [H _].
  apply H. left. reflexivity.
Defined.

(** ** _combine_features *)

Lemma combine_features_inv (feature_1 feature_2 c : column) :
  _combine_features feature_1 feature_2 = Ok c ->
  dense_rows c = dense_rows feature_1 ++ dense_rows feature_2 /\
  sparse_rows c = sparse_rows feature_1 ++ sparse_rows feature_2 /\
  ((exists a1 a2, feature_1 = Dense a1 /\ feature_2 = Dense a2 /\ tail a1 = tail a2) \/
   (exists m1 m2, feature_1 = Sparse m1 /\ feature_2 = Sparse m2)).
Proof.
  intros H. unfold _combine_features, col_concat2 in H.
  destruct feature_1 as [a1|m1], feature_2 as [a2|m2]; simpl in *; try discriminate.
  - case_decide; [|discriminate]. injection H as <-. simpl.
    repeat split; try done. left. eauto.
  - destruct (Nat.eqb_spec (length (sprows m2)) 0) as [H2|_].
    { injection H as <-. simpl. apply length_zero_iff_nil in H2. rewrite H2.
      rewrite app_nil_r. repeat split; try done. right. eauto. }
    destruct (Nat.eqb_spec (length (sprows m1)) 0) as [H1|_].
    { injection H as <-. simpl. apply length_zero_iff_nil in H1. rewrite H1.
      repeat split; try done. right. eauto. }
    case_decide; [|discriminate]. injection H as <-. simpl.
    repeat split; try done. right. eauto.
Qed.

(** X3: when [_combine_features] returns, the result holds the rows of the
    first operand followed by the rows of the second, also when an operand
    without rows is skipped; operands of different kinds, or arrays of
    different trailing shapes, are refused. *)
Theorem combine_features_rows (feature_1 feature_2 c : column) :
  _combine_features feature_1 feature_2 = Ok c ->
  dense_rows c = dense_rows feature_1 ++ dense_rows feature_2 /\
  sparse_rows c = sparse_rows feature_1 ++ sparse_rows feature_2 /\
  nrows c = nrows feature_1 + nrows feature_2 /\
  ((exists a1 a2, feature_1 = Dense a1 /\ feature_2 = Dense a2 /\ tail a1 = tail a2) \/
   (exists m1 m2, feature_1 = Sparse m1 /\ feature_2 = Sparse m2)).
Proof.
  intros H. destruct (combine_features_inv _ _ _ H) as (Hd & Hs & Hkind).
  split; [done|]. split; [done|]. split; [|done]. by apply nrows_combine.
Qed.

Lemma combine_features_rows_witness :
  dense_rows (Dense (NdArray [2] [[1; 2]; [3; 4]; [5; 6]; [7; 8]]%Z)) =
    dense_rows sample_dense ++ dense_rows (Dense (NdArray [2] [[7; 8]]%Z)).
Proof.
  exact (proj1 (combine_features_rows sample_dense (Dense (NdArray [2] [[7; 8]]%Z))
                  (Dense (NdArray [2] [[1; 2]; [3; 4]; [5; 6]; [7; 8]]%Z)) eq_refl)).
Defined.

(** ** shuffle *)

Lemma take_ids_rows_at {A : Type} (d : A) (ids : list nat) (l rs : list A) :
  take_ids ids l = Ok rs -> rs = rows_at d ids l.
Proof.
  rewrite take_ids_Ok. intros H. induction H as [|i r ids rs Hi H IH]; simpl; [done|].
  rewrite <- IH. f_equal.
  pose proof (lookup_lt_Some _ _ _ Hi) as Hlt.
  rewrite (lookup_nth d) in Hi by done. congruence.
Qed.

Lemma rows_at_perm {A : Type} (d : A) (ids : list nat) (l : list A) :
  ids ≡ₚ seq 0 (length l) -> rows_at d ids l ≡ₚ l.
Proof.
  intros H. unfold rows_at.
  transitivity (map (fun j => nth j l d) (seq 0 (length l))).
  - by apply Permutation_map.
  - by rewrite map_nth_seq.
Qed.

Lemma Forall2_map_r_intro {A B : Type} (P : A -> B -> Prop) (f : A -> B) (l : list A) :
  (forall x, In x l -> P x (f x)) -> Forall2 P l (map f l).
Proof.
  induction l as [|x l IH]; intros H; simpl; constructor.
  - apply H. by left.
  - apply IH. intros y Hy. apply H. by right.
Qed.

(** X4: on a table whose columns agree on N rows, with a random source
    that hands out permutations, [shuffle] succeeds; it draws once, and
    the table it leaves behind has the keys of the input that hold
    columns, N examples, and every column is the input column indexed by
    the one permutation drawn, so rows stay aligned across columns and
    every column keeps its rows, each exactly as often as before. *)
Theorem shuffle_permutes (t : table) (g : rng) (N : nat) :
  get_number_of_examples t = Ok N ->
  rng_ok g ->
  exists t' ids,
    shuffle t g = Ok (t', Rng (draw g) (S (used g))) /\
    ids ≡ₚ seq 0 N /\
    Forall2 (fun c c' => col_take ids c = Ok c') (columns t) (columns t') /\
    Forall2 (fun c c' => dense_rows c' ≡ₚ dense_rows c /\
                         sparse_rows c' ≡ₚ sparse_rows c /\
                         nrows c' = nrows c)
            (columns t) (columns t') /\
    dict_keys t' = dict_keys (drop_empty_keys t) /\
    get_number_of_examples t' = Ok N.
Proof.
  intros HN Hrng. set (ids := draw g (used g) N).
  assert (Hperm : ids ≡ₚ seq 0 N) by apply Hrng.
  assert (Hrange : forall c, In c (columns t) -> forall j, In j ids -> j < nrows c).
  { intros c Hc j Hj. rewrite (get_number_of_examples_Ok t N HN c Hc).
    apply list_elem_of_In in Hj. rewrite Hperm in Hj.
    apply list_elem_of_In, in_seq in Hj. lia. }
  assert (Hrun : shuffle t g =
                 Ok (map_cols (permute_col ids) (drop_empty_keys t),
                     Rng (draw g) (S (used g)))).
  { unfold shuffle. rewrite HN. simpl. fold ids.
    by rewrite (data_for_ids_in_range ids t Hrange). }
  exists (map_cols (permute_col ids) (drop_empty_keys t)), ids.
  split; [done|]. split; [done|].
  rewrite columns_map_cols, columns_drop_empty_keys, dict_keys_map_cols.
  split; [|split; [|split; [done|]]].
  - apply Forall2_map_r_intro. intros c Hc. apply col_take_in_range. by apply Hrange.
  - apply Forall2_map_r_intro. intros c Hc.
    pose proof (get_number_of_examples_Ok t N HN c Hc) as Hn.
    destruct c as [a|m]; simpl in *.
    + split; [apply rows_at_perm; by rewrite Hn|]. split; [done|].
      unfold rows_at. rewrite length_map.
      apply Permutation_length in Hperm. rewrite length_seq in Hperm. lia.
    + split; [done|]. split; [apply rows_at_perm; by rewrite Hn|].
      unfold rows_at. rewrite length_map.
      apply Permutation_length in Hperm. rewrite length_seq in Hperm. lia.
  - apply (shuffle_examples t _ g _ N Hrun HN).
    fold ids. apply Permutation_length in Hperm. by rewrite length_seq in Hperm.
Qed.

Lemma shuffle_permutes_witness :
  exists t' ids,
    shuffle ten_rows (Rng (fun _ n => rev (seq 0 n)) 0)
      = Ok (t', Rng (fun _ n => rev (seq 0 n)) 1) /\
    ids ≡ₚ seq 0 10 /\
    get_number_of_examples t' = Ok 10.
Proof.
  destruct (shuffle_permutes ten_rows (Rng (fun _ n => rev (seq 0 n)) 0) 10 eq_refl)
    as (t' & ids & Hrun & Hperm & _ & _ & _ & HN).
  - intros k n. simpl. symmetry. apply Permutation_rev.
  - exists t', ids. auto.
Defined.

(** ** split partitions the rows *)

Lemma split_Ok_sampler sk n seed key t train test :
  split sk n seed key t = Ok (train, test) ->
  exists ids trI teI vs_tr vs_te strat,
    label_ids_of key t = Ok ids /\
    stratified_indices sk (length (List.filter (is_multi ids) ids)) n seed strat
      = Some (trI, teI) /\
    train = drop_empty_keys (regroup t vs_tr) /\
    test = drop_empty_keys (regroup t vs_te) /\
    Forall2 (train_column_of ids trI) (columns t) vs_tr /\
    Forall2 (test_column_of ids teI) (columns t) vs_te.
Proof.
  unfold split.
  destruct (_check_label_key key t) as [[]|] eqn:Hkey; cbn [rbind]; [|discriminate].
  destruct (label_ids_of key t) as [ids|] eqn:Hids; cbn [rbind]; [|discriminate].
  destruct (_check_train_test_sizes _ _ _) as [[]|]; cbn [rbind]; [|discriminate].
  rewrite (rmapM_of_option_map KeyError _ (count_label ids) ids ids);
    [|by intros l Hl; apply label_counts_get_of|by intros l].
  cbn [rbind]. rewrite !map_map.
  change (map (fun x => 1 <? count_label ids x) ids) with (map (is_multi ids) ids).
  change (map (fun x => count_label ids x =? 1) ids) with (map (is_solo ids) ids).
  destruct (rmapM (col_mask (map (is_multi ids) ids)) (columns t)) as [multi|] eqn:Hmulti;
    cbn [rbind]; [|discriminate].
  destruct (rmapM (col_mask (map (is_solo ids) ids)) (columns t)) as [solo|] eqn:Hsolo;
    cbn [rbind]; [|discriminate].
  destruct (train_test_split _ _ _ _ _) as [out|] eqn:Hout; cbn [rbind]; [|discriminate].
  unfold _convert_train_test_split.
  destruct (convert_items (fun n i => train_columns n i out solo) t 0)
    as [data_train|] eqn:Htr; cbn [rbind]; [|discriminate].
  destruct (convert_items (fun n i => val_columns n i out) t 0)
    as [data_val|] eqn:Hte; cbn [rbind]; [|discriminate].
  intros E. inversion E; subst; clear E.
  apply rmapM_Ok in Hmulti, Hsolo.
  apply train_test_split_Ok in Hout
    as (a0 & trI & teI & parts & Hhead & Hsame & Hsk & Hparts & ->).
  apply (convert_items_Ok _ (fun i c =>
           exists o s, concat parts !! (i * 2) = Some o /\ solo !! i = Some s /\
                       _combine_features o s = Ok c)) in Htr
    as (vs_tr & -> & Hlen_tr & Htr); [|by intros; eapply train_columns_Ok].
  apply (convert_items_Ok _ (fun i c => concat parts !! (i * 2 + 1) = Some c)) in Hte
    as (vs_te & -> & Hlen_te & Hte); [|by intros; eapply val_columns_Ok].
  exists ids, trI, teI, vs_tr, vs_te,
    (mask_filter (map (is_multi ids) ids) label ids).
  split; [done|]. split.
  { destruct multi as [|a1 multi]; [discriminate Hhead|].
    injection Hhead as ->.
    inversion Hmulti as [|c0 ? cs ? Hc0 _]; subst.
    by rewrite <- (nrows_col_mask _ _ _ _ Hc0). }
  split; [done|]. split; [done|]. split.
  - apply Forall2_same_length_lookup_2; [by symmetry|].
    intros j c c' Hc Hc'. apply Htr in Hc' as (o & s & Ho & Hs & Hcomb).
    simpl in Ho, Hs.
    destruct (Forall2_lookup_l _ _ _ _ _ Hmulti Hc) as (m & Hm & Hcm).
    destruct (Forall2_lookup_l _ _ _ _ _ Hsolo Hc) as (s' & Hs' & Hcs).
    destruct (concat_pairs_lookup _ _ _ _ _ Hparts Hm)
      as (tr & te & [Htrk Htek] & H1 & H2).
    exists m, s, tr. repeat split; congruence.
  - apply Forall2_same_length_lookup_2; [by symmetry|].
    intros j c c' Hc Hc'. apply Hte in Hc'. simpl in Hc'.
    destruct (Forall2_lookup_l _ _ _ _ _ Hmulti Hc) as (m & Hm & Hcm).
    destruct (concat_pairs_lookup _ _ _ _ _ Hparts Hm)
      as (tr & te & [Htrk Htek] & H1 & H2).
    exists m. split; congruence.
Qed.

Lemma regroup_keys {V W : Type} (items : dict (list V)) (vs : list W) :
  length vs = length (concat (dict_values items)) ->
  dict_keys (drop_empty_keys (regroup items vs)) = dict_keys (drop_empty_keys items).
Proof.
  revert vs. induction items as [|[k values] items IH]; intros vs Hlen; [done|].
  change (length vs = length (values ++ concat (dict_values items))) in Hlen.
  rewrite length_app in Hlen. simpl.
  specialize (IH (drop (length values) vs)).
  rewrite length_drop in IH. specialize (IH ltac:(lia)).
  destruct values as [|v values]; simpl in *.
  - by rewrite drop_0 in IH.
  - destruct vs as [|w vs]; [simpl in Hlen; lia|]. simpl in *. by rewrite IH.
Qed.

Lemma mask_filter_complement {A B : Type} (p q : B -> bool) (xs : list B) (l : list A) :
  length xs = length l ->
  (forall x, In x xs -> p x = negb (q x)) ->
  mask_filter (map p xs) A l ++ mask_filter (map q xs) A l ≡ₚ l.
Proof.
  revert l. induction xs as [|x xs IH]; intros [|y l] Hlen Hpq; simpl in *; try done.
  rewrite (Hpq x) by (by left).
  specialize (IH l ltac:(lia) (fun z Hz => Hpq z (or_intror Hz))).
  destruct (q x); simpl.
  - rewrite <- Permutation_middle. by constructor.
  - by constructor.
Qed.

Lemma is_multi_not_solo (ids : list label) (l : label) :
  In l ids -> is_multi ids l = negb (is_solo ids l).
Proof.
  intros Hl. pose proof (count_label_pos ids l Hl). unfold is_multi, is_solo.
  destruct (Nat.ltb_spec 1 (count_label ids l)), (Nat.eqb_spec (count_label ids l) 1);
    simpl; lia.
Qed.

Lemma take_ids_app {A : Type} (ids1 ids2 : list nat) (l rs1 rs2 : list A) :
  take_ids ids1 l = Ok rs1 -> take_ids ids2 l = Ok rs2 ->
  take_ids (ids1 ++ ids2) l = Ok (rs1 ++ rs2).
Proof. rewrite !take_ids_Ok. apply Forall2_app. Qed.

(** The rows of the train and of the test part of a column make up the
    rows of the column. *)
Lemma partition_rows {A : Type} (d : A) (ids : list label) (l rtr rte : list A)
    (trI teI : list nat) :
  length ids = length l ->
  trI ++ teI ≡ₚ seq 0 (length (List.filter (is_multi ids) ids)) ->
  take_ids trI (mask_filter (map (is_multi ids) ids) A l) = Ok rtr ->
  take_ids teI (mask_filter (map (is_multi ids) ids) A l) = Ok rte ->
  (rtr ++ mask_filter (map (is_solo ids) ids) A l) ++ rte ≡ₚ l.
Proof.
  intros Hlen Hperm Htr Hte.
  pose proof (take_ids_app _ _ _ _ _ Htr Hte) as Happ.
  apply (take_ids_rows_at d) in Happ.
  assert (rtr ++ rte ≡ₚ mask_filter (map (is_multi ids) ids) A l) as Hm.
  { rewrite Happ. apply rows_at_perm.
    rewrite (mask_filter_length _ _ ids) by (by rewrite ?length_map).
    by rewrite mask_filter_self. }
  pose proof (mask_filter_complement (is_multi ids) (is_solo ids) ids l Hlen
                (fun x Hx => is_multi_not_solo ids x Hx)) as Hall.
  etrans; [|exact Hall]. rewrite <- Hm. rewrite <- !app_assoc.
  apply Permutation_app_head, Permutation_app_comm.
Qed.

(** X5: when [split] returns, with a sampler that partitions the row
    indices it is given, the train and the test table have the keys of the
    input that hold columns, in the same order and with as many columns;
    and for every column, the rows of its train part and of its test part
    together are the rows of the input column, each as often as there: no
    row is lost, none is in both parts. *)
Theorem split_partitions
    (sk : sklearn) (n seed : Z) (label_key : string) (t train test : table) :
  (forall m strat trI teI,
     stratified_indices sk m n seed strat = Some (trI, teI) -> trI ++ teI ≡ₚ seq 0 m) ->
  split sk n seed label_key t = Ok (train, test) ->
  dict_keys train = dict_keys (drop_empty_keys t) /\
  dict_keys test = dict_keys (drop_empty_keys t) /\
  length (columns train) = length (columns t) /\
  length (columns test) = length (columns t) /\
  forall i c ctr cte,
    columns t !! i = Some c -> columns train !! i = Some ctr ->
    columns test !! i = Some cte ->
    dense_rows ctr ++ dense_rows cte ≡ₚ dense_rows c /\
    sparse_rows ctr ++ sparse_rows cte ≡ₚ sparse_rows c.
Proof.
  intros Hperm Hsplit.
  destruct (split_Ok_sampler _ _ _ _ _ _ _ Hsplit)
    as (ids & trI & teI & vs_tr & vs_te & strat & Hids & Hsk & -> & -> & Htr & Hte).
  apply Hperm in Hsk.
  pose proof (Forall2_length _ _ _ Htr) as Hlen_tr.
  pose proof (Forall2_length _ _ _ Hte) as Hlen_te.
  rewrite !columns_drop_empty_keys.
  rewrite !columns_regroup by done.
  split; [by apply regroup_keys|]. split; [by apply regroup_keys|].
  split; [done|]. split; [done|].
  intros i c ctr cte Hc Hctr Hcte.
  pose proof (Forall2_lookup_lr _ _ _ _ _ _ Htr Hc Hctr)
    as (m & s & tr & Hm & Hs & Htake & Hcomb).
  pose proof (Forall2_lookup_lr _ _ _ _ _ _ Hte Hc Hcte) as (m' & Hm' & Htake').
  rewrite Hm in Hm'. injection Hm' as <-.
  apply col_mask_Ok in Hm as [Hlen ->]. apply col_mask_Ok in Hs as [_ ->].
  rewrite length_map in Hlen.
  destruct (combine_features_inv _ _ _ Hcomb) as (Hd & Hsp & _).
  rewrite Hd, Hsp. clear Hcomb Hd Hsp.
  destruct c as [a|sm]; simpl in *.
  - destruct (take_ids trI _) as [rtr|] eqn:Hrtr; [|discriminate Htake].
    destruct (take_ids teI _) as [rte|] eqn:Hrte; [|discriminate Htake'].
    simpl in *. injection Htake as <-. injection Htake' as <-. simpl.
    split; [|done]. by apply (partition_rows [] ids (rows a) rtr rte trI teI).
  - destruct (take_ids trI _) as [rtr|] eqn:Hrtr; [|discriminate Htake].
    destruct (take_ids teI _) as [rte|] eqn:Hrte; [|discriminate Htake'].
    simpl in *. injection Htake as <-. injection Htake' as <-. simpl.
    split; [done|]. by apply (partition_rows [] ids (sprows sm) rtr rte trI teI).
Qed.

Lemma split_partitions_witness :
  dict_keys (labelled [2; 2; 2; 3]%Z) =
    dict_keys (drop_empty_keys (labelled [1; 1; 1; 2; 2; 2; 3]%Z)) /\
  length (columns (labelled [1; 1; 1]%Z)) =
    length (columns (labelled [1; 1; 1; 2; 2; 2; 3]%Z)).
Proof.
  destruct (split_partitions first_rows_sampler 3 42 "label_ids"
              (labelled [1; 1; 1; 2; 2; 2; 3]%Z)
              (labelled [2; 2; 2; 3]%Z) (labelled [1; 1; 1]%Z)
              (fun m strat => first_rows_sampler_partition m 3 42 strat)
              eq_refl) as (Hk & _ & _ & Hl & _).
  by split.
Defined.

(** ** The joined label ids are canonical *)

Lemma uint_no_blank (d : Decimal.uint) : no_blank (NilEmpty.string_of_uint d) = true.
Proof. induction d; simpl; done. Qed.

Lemma str_of_Z_no_blank (z : Z) : no_blank (str_of_Z z) = true.
Proof.
  unfold str_of_Z, NilZero.string_of_int, NilZero.string_of_uint.
  destruct (Z.to_int z) as [d|d]; destruct d; simpl; try done; apply uint_no_blank.
Qed.

Lemma str_of_Z_nonempty (z : Z) : str_of_Z z <> "".
Proof.
  unfold str_of_Z, NilZero.string_of_int, NilZero.string_of_uint.
  destruct (Z.to_int z) as [d|d]; destruct d; simpl; discriminate.
Qed.

Lemma to_int_not_nil (z : Z) :
  Z.to_int z <> Decimal.Pos Decimal.Nil /\ Z.to_int z <> Decimal.Neg Decimal.Nil.
Proof.
  destruct z as [|p|p]; simpl; split; try discriminate;
    intros H; injection H as H; by apply (Unsigned.to_uint_nonnil p).
Qed.

Lemma str_of_Z_inj (z1 z2 : Z) : str_of_Z z1 = str_of_Z z2 -> z1 = z2.
Proof.
  unfold str_of_Z. intros H. apply DecimalZ.to_int_inj.
  destruct (to_int_not_nil z1) as [H1 H1'], (to_int_not_nil z2) as [H2 H2'].
  pose proof (NilZero.isi _ H1 H1') as E1. pose proof (NilZero.isi _ H2 H2') as E2.
  rewrite H in E1. congruence.
Qed.

Lemma append_blank_inj (s1 s2 r1 r2 : string) :
  no_blank s1 = true -> no_blank s2 = true ->
  (s1 ++ String " "%char r1)%string = (s2 ++ String " "%char r2)%string ->
  s1 = s2 /\ r1 = r2.
Proof.
  revert s2. induction s1 as [|c1 s1 IH]; intros [|c2 s2] H1 H2; simpl in *.
  - intros E. by injection E as <-.
  - intros E. injection E as <- _. by rewrite Ascii.eqb_refl in H2.
  - intros E. injection E as -> _. by rewrite Ascii.eqb_refl in H1.
  - intros E. injection E as <- E.
    apply andb_prop in H1 as [_ H1]. apply andb_prop in H2 as [_ H2].
    destruct (IH s2 H1 H2 E) as [-> ->]. done.
Qed.

Lemma append_blank_has_blank (s r : string) :
  no_blank (s ++ String " "%char r)%string = false.
Proof.
  induction s as [|c s IH]; simpl; [done|]. rewrite IH. apply andb_false_r.
Qed.

Lemma join_row_cons (z : Z) (y : Z) (row : list Z) :
  join_row (z :: y :: row) = (str_of_Z z ++ String " "%char (join_row (y :: row)))%string.
Proof. reflexivity. Qed.

Lemma join_row_inj (row1 row2 : list Z) : join_row row1 = join_row row2 -> row1 = row2.
Proof.
  revert row2. induction row1 as [|z1 row1 IH]; intros row2 H.
  - destruct row2 as [|z2 [|y2 row2]]; [done| |].
    + exfalso. apply (str_of_Z_nonempty z2). symmetry. exact H.
    + exfalso. rewrite join_row_cons in H.
      destruct (str_of_Z z2) eqn:Hz; [by apply (str_of_Z_nonempty z2)|discriminate H].
  - destruct row1 as [|y1 row1].
    + destruct row2 as [|z2 [|y2 row2]].
      * exfalso. by apply (str_of_Z_nonempty z1).
      * f_equal. apply str_of_Z_inj. exact H.
      * exfalso. rewrite join_row_cons in H.
        pose proof (str_of_Z_no_blank z1) as Hb.
        change (join_row [z1]) with (str_of_Z z1) in H. rewrite H in Hb.
        by rewrite append_blank_has_blank in Hb.
    + destruct row2 as [|z2 [|y2 row2]].
      * exfalso. rewrite join_row_cons in H.
        destruct (str_of_Z z1) eqn:Hz; [by apply (str_of_Z_nonempty z1)|discriminate H].
      * exfalso. rewrite join_row_cons in H.
        pose proof (str_of_Z_no_blank z2) as Hb.
        change (join_row [z2]) with (str_of_Z z2) in H. rewrite <- H in Hb.
        by rewrite append_blank_has_blank in Hb.
      * rewrite !join_row_cons in H.
        apply append_blank_inj in H as [Hz Hrest]; try apply str_of_Z_no_blank.
        apply str_of_Z_inj in Hz as ->. f_equal. by apply IH.
Qed.

(** X6: the string ids of multi-valued label columns are canonical: for a
    2-D column whose last dimension is not 1 and for a 3-D column whose
    last dimension is 1, two examples get the same label id exactly when
    their rows hold the same numbers. *)
Theorem create_label_ids_canonical
    (a : ndarray) (ids : list label) (i j : nat) (ri rj : list Z) :
  (ndim a = 2 /\ last_dim a <> 1) \/ (ndim a = 3 /\ last_dim a = 1) ->
  _create_label_ids a = Ok ids ->
  rows a !! i = Some ri -> rows a !! j = Some rj ->
  (ids !! i = ids !! j <-> ri = rj).
Proof.
  intros Hshape Hids Hi Hj.
  assert (ids = map (fun row => LStr (join_row row)) (rows a)) as ->.
  { unfold _create_label_ids in Hids.
    repeat case_decide; try (injection Hids as <-; reflexivity);
      exfalso; intuition (try lia; try congruence). }
  rewrite !lookup_map, Hi, Hj. simpl. split.
  - intros E. injection E as E. by apply join_row_inj.
  - by intros ->.
Qed.

Lemma create_label_ids_canonical_witness :
  Some (LStr "0 1 0") = Some (LStr "0 1 0") <-> [0; 1; 0]%Z = [0; 1; 0]%Z.
Proof.
  apply (create_label_ids_canonical
           (NdArray [3] [[0; 1; 0]; [-1; 12; 7]; [0; 1; 0]]%Z)
           [LStr "0 1 0"; LStr "-1 12 7"; LStr "0 1 0"] 0 2).
  - left. split; [reflexivity | discriminate].
  - reflexivity.
  - reflexivity.
  - reflexivity.
Defined.

(** ** get_signature *)

Lemma rmapM_app {A B : Type} (f : A -> result B) (l1 l2 : list A) :
  rmapM f (l1 ++ l2) =
    let* a := rmapM f l1 in let* b := rmapM f l2 in Ok (a ++ b).
Proof.
  induction l1 as [|x l1 IH]; simpl.
  - by destruct (rmapM f l2).
  - destruct (f x) as [y|e]; simpl; [|done]. rewrite IH.
    destruct (rmapM f l1) as [ys|e]; simpl; [|done].
    by destruct (rmapM f l2).
Qed.

Lemma rmapM_ext {A B : Type} (f g : A -> result B) (l : list A) :
  (forall x, In x l -> f x = g x) -> rmapM f l = rmapM g l.
Proof.
  induction l as [|x l IH]; intros H; simpl; [done|].
  rewrite (H x) by (by left). rewrite IH; [done|].
  intros y Hy. apply H. by right.
Qed.

Lemma rmapM_map {A B C : Type} (f : B -> result C) (h : A -> B) (l : list A) :
  rmapM f (map h l) = rmapM (fun x => f (h x)) l.
Proof. induction l as [|x l IH]; simpl; [done|]. by rewrite IH. Qed.

(** A pass over the items of a dictionary, seen as a pass over all its
    columns in order. *)
Lemma rmapM_items {V W : Type} (f : V -> result W) (d : dict (list V)) :
  match rmapM (fun kv : string * list V =>
                 let* vs := rmapM f (snd kv) in Ok (fst kv, vs)) d with
  | Ok entries =>
      rmapM f (concat (dict_values d)) = Ok (concat (dict_values entries)) /\
      dict_keys entries = dict_keys d /\
      Forall2 (fun vs ws => length vs = length ws) (dict_values d) (dict_values entries)
  | Raise e => rmapM f (concat (dict_values d)) = Raise e
  end.
Proof.
  induction d as [|[k vs] d IH]; simpl; [repeat split; constructor|].
  rewrite rmapM_app.
  destruct (rmapM f vs) as [ws|e] eqn:Hws; simpl; [|done].
  destruct (rmapM _ d) as [entries|e]; simpl.
  - destruct IH as (-> & -> & Hlen). simpl. repeat split.
    constructor; [|done]. apply rmapM_Ok in Hws. by eapply Forall2_length.
  - by rewrite IH.
Qed.

Lemma entry_signature_Ok (v : column) :
  match entry_signature v with
  | Ok _ => 0 < nrows v
  | Raise e => e = IndexError /\ nrows v = 0
  end.
Proof. destruct v as [a|m]; simpl; [destruct (rows a)|destruct (sprows m)]; simpl; auto with lia. Qed.

Lemma rmapM_entry_signature (cols : list column) :
  match rmapM entry_signature cols with
  | Ok sigs => (forall c, In c cols -> 0 < nrows c) /\ length sigs = length cols
  | Raise e => e = IndexError /\ exists c, In c cols /\ nrows c = 0
  end.
Proof.
  induction cols as [|v cols IH]; simpl; [split; [tauto|done]|].
  pose proof (entry_signature_Ok v) as Hv.
  destruct (entry_signature v) as [s|e]; simpl.
  - destruct (rmapM entry_signature cols) as [sigs|e]; simpl.
    + destruct IH as [IH Hlen]. split; [|simpl; lia].
      intros c [<-|Hc]; [done | by apply IH].
    + destruct IH as (-> & c & Hc & Hn). split; [done|]. exists c. auto.
  - destruct Hv as [-> Hn]. split; [done|]. exists v. auto.
Qed.

(** X7: [get_signature] returns exactly when every column of the table has
    at least one row; it then lists the keys of the table in their order,
    with one entry per column.  A column without rows has no first entry,
    and the call raises an IndexError. *)
Theorem get_signature_defined (t : table) :
  ((forall c, In c (columns t) -> 0 < nrows c) ->
   exists sig, get_signature t = Ok sig /\ dict_keys sig = dict_keys t /\
     Forall2 (fun vs ws => length vs = length ws) (dict_values t) (dict_values sig)) /\
  ((exists c, In c (columns t) /\ nrows c = 0) ->
   get_signature t = Raise IndexError).
Proof.
  pose proof (rmapM_items entry_signature t) as H.
  pose proof (rmapM_entry_signature (columns t)) as Hcols.
  unfold get_signature, columns in *.
  destruct (rmapM _ t) as [sig|e].
  - destruct H as (Hc & Hk & Hl). rewrite Hc in Hcols. destruct Hcols as [Hpos _].
    split; [eauto|]. intros (c & Hin & Hn). specialize (Hpos c Hin). lia.
  - rewrite H in Hcols. destruct Hcols as (-> & c & Hin & Hn).
    split; [|done]. intros Hpos. specialize (Hpos c Hin). lia.
Qed.

Lemma get_signature_defined_witness :
  exists sig, get_signature ten_rows = Ok sig /\ dict_keys sig = dict_keys ten_rows.
Proof.
  destruct (get_signature_defined ten_rows) as [H _].
  destruct H as (sig & Hsig & Hk & _).
  - intros c [<-|[<-|[]]]; simpl; lia.
  - eauto.
Defined.

Example get_signature_ten_rows :
  get_signature ten_rows =
    Ok [("text_features", [(false, [1])]); ("label_ids", [(false, [])])].
Proof. reflexivity. Qed.

(** ** What shuffle does not change *)

Lemma dict_get_map_cols {V W : Type} (f : V -> W) (d : dict (list V)) (k : string) :
  dict_get (map_cols f d) k = option_map (map f) (dict_get d k).
Proof.
  induction d as [|[k' vs] d IH]; simpl; [done|].
  destruct (decide (k' = k)); [done | apply IH].
Qed.

Lemma dict_get_drop_empty_nil {V : Type} (d : dict (list V)) (k : string) :
  List.NoDup (dict_keys d) -> dict_get d k = Some [] ->
  dict_get (drop_empty_keys d) k = None.
Proof.
  unfold dict_keys. induction d as [|[k' vs] d IH]; simpl; [done|].
  intros Hnd. inversion Hnd as [|? ? Hk Hd]; subst.
  destruct (decide (k' = k)) as [->|Hne].
  - intros E. injection E as ->. simpl. apply dict_get_notin.
    intros Hin. apply Hk. unfold dict_keys in Hin.
    apply in_map_iff in Hin as (kv & <- & Hkv).
    apply filter_In in Hkv as [Hkv _]. by apply in_map.
  - intros Hget. destruct vs; simpl; [by apply IH|].
    rewrite decide_False by done. by apply IH.
Qed.

Lemma permute_col_nrows (ids : list nat) (c : column) :
  nrows (permute_col ids c) = length ids.
Proof. destruct c; simpl; unfold rows_at; by rewrite length_map. Qed.

Lemma entry_signature_permute (ids : list nat) (c : column) :
  length ids = nrows c -> entry_signature (permute_col ids c) = entry_signature c.
Proof.
  destruct c as [a|m]; simpl; unfold rows_at; intros Hlen.
  - destruct ids, (rows a); simpl in *; try done; lia.
  - destruct ids, (sprows m); simpl in *; try done; lia.
Qed.

Lemma get_signature_drop_empty (t : table) :
  get_signature (drop_empty_keys t) =
    let* sig := get_signature t in Ok (drop_empty_keys sig).
Proof.
  unfold get_signature. induction t as [|[k vs] t IH]; simpl; [done|].
  destruct vs as [|v vs]; simpl.
  - rewrite IH. by destruct (rmapM _ t).
  - destruct (entry_signature v); simpl; [|done].
    destruct (rmapM entry_signature vs); simpl; [|done].
    rewrite IH. by destruct (rmapM _ t).
Qed.

(** X8: shuffling does not change the signature of a table of regular
    columns.  When every column is one array whose examples all have the
    same shape, or one scipy matrix, which is what the column type of this
    development holds, and the columns agree on their number of rows, then
    with a random source that hands out permutations [get_signature] of
    the shuffled table is the signature of the input without the keys
    bound to an empty list, which shuffle drops; and it fails exactly when
    the signature of the input fails.  Nothing is said about a column of
    per-example arrays of different shapes, where the reported shape is
    that of the example that comes first and so moves with the shuffle. *)
Theorem shuffle_keeps_signature (t t' : table) (g g' : rng) (N : nat) :
  get_number_of_examples t = Ok N -> rng_ok g ->
  shuffle t g = Ok (t', g') ->
  get_signature t' = (let* sig := get_signature t in Ok (drop_empty_keys sig)).
Proof.
  intros HN Hrng Hrun. destruct (shuffle_run t g N HN Hrng) as [Hperm Hrun'].
  rewrite Hrun' in Hrun. injection Hrun as <- <-.
  rewrite <- get_signature_drop_empty. unfold get_signature, map_cols.
  rewrite rmapM_map. apply rmapM_ext. intros [k vs] Hkv. simpl.
  rewrite rmapM_map.
  rewrite (rmapM_ext _ entry_signature); [done|].
  intros c Hc. apply entry_signature_permute.
  apply Permutation_length in Hperm. rewrite length_seq in Hperm. rewrite Hperm.
  symmetry. apply (get_number_of_examples_Ok t N HN).
  apply filter_In in Hkv as [Hkv _].
  unfold columns. apply in_concat. exists vs. split; [|done].
  apply in_map_iff. by exists (k, vs).
Qed.

Lemma shuffle_keeps_signature_witness :
  get_signature
    (map_cols (permute_col (rev (seq 0 10))) (drop_empty_keys ten_rows)) =
  Ok [("text_features", [(false, [1])]); ("label_ids", [(false, [])])].
Proof.
  rewrite (shuffle_keeps_signature ten_rows _ (Rng (fun _ n => rev (seq 0 n)) 0)
             (Rng (fun _ n => rev (seq 0 n)) 1) 10 eq_refl).
  - reflexivity.
  - intros k n. simpl. symmetry. apply Permutation_rev.
  - reflexivity.
Defined.

Lemma length_concat_perm {A : Type} (l1 l2 : list (list A)) :
  l1 ≡ₚ l2 -> length (concat l1) = length (concat l2).
Proof.
  induction 1; simpl; rewrite ?length_app in *; lia.
Qed.

Lemma size_permute (ids : list nat) (c : column) :
  ids ≡ₚ seq 0 (nrows c) -> size (permute_col ids c) = size c.
Proof.
  intros Hperm. destruct c as [a|m]; simpl in *.
  - unfold rows_at. rewrite length_map.
    apply Permutation_length in Hperm. rewrite length_seq in Hperm. by rewrite Hperm.
  - apply length_concat_perm. by apply rows_at_perm.
Qed.

Lemma entry_last_dim_permute (ids : list nat) (c : column) :
  length ids = nrows c -> entry_last_dim (permute_col ids c) = entry_last_dim c.
Proof.
  destruct c as [a|m]; simpl; unfold rows_at; intros Hlen.
  - destruct ids, (rows a); simpl in *; try done; lia.
  - destruct ids, (sprows m); simpl in *; try done; lia.
Qed.

Lemma feature_dimension_loop_permute (ids : list nat) (cols : list column) (acc : nat) :
  (forall c, In c cols -> ids ≡ₚ seq 0 (nrows c)) ->
  feature_dimension_loop (map (permute_col ids) cols) acc =
    feature_dimension_loop cols acc.
Proof.
  revert acc. induction cols as [|c cols IH]; intros acc H; simpl; [done|].
  pose proof (H c (or_introl eq_refl)) as Hc.
  rewrite (size_permute ids c Hc).
  rewrite entry_last_dim_permute
    by (apply Permutation_length in Hc; by rewrite length_seq in Hc).
  destruct (0 <? size c).
  - destruct (entry_last_dim c); simpl; [|done]. apply IH.
    intros c' Hc'. apply H. by right.
  - apply IH. intros c' Hc'. apply H. by right.
Qed.

Lemma dict_get_drop_empty_none {V : Type} (d : dict (list V)) (k : string) :
  dict_get d k = None -> dict_get (drop_empty_keys d) k = None.
Proof.
  induction d as [|[k' vs] d IH]; simpl; [done|].
  destruct (decide (k' = k)) as [->|Hne]; [discriminate|]. intros H.
  destruct vs; simpl; [by apply IH|]. rewrite decide_False by done. by apply IH.
Qed.

(** X9: shuffling does not change the feature dimension of a key of the
    table.  On a table (a dictionary, so its keys are distinct) whose
    columns are regular and agree on their number of rows, with a random
    source that hands out permutations, [get_feature_dimension] of a key
    of the input gives the same result, or the same error, on the table
    [shuffle] leaves behind as on the input, whatever mapping held the
    input.  [shuffle] leaves a [defaultdict(list)] behind and drops the
    keys bound to an empty list: such a key has dimension 0 before, and
    afterwards reading it yields a new empty list, so the dimension is 0
    again; for the same reason a key that was never in the table has
    dimension 0 after the shuffle instead of raising a KeyError. *)
Theorem shuffle_keeps_feature_dimension
    (kind : mapping) (t t' : table) (g g' : rng) (N : nat) (key : string) :
  List.NoDup (dict_keys t) ->
  get_number_of_examples t = Ok N -> rng_ok g ->
  shuffle t g = Ok (t', g') ->
  (forall cols, dict_get t key = Some cols ->
     snd (get_feature_dimension DefaultDict key t') =
       snd (get_feature_dimension kind key t)) /\
  (dict_get t key = None ->
     snd (get_feature_dimension DefaultDict key t') = Ok 0).
Proof.
  intros Hnd HN Hrng Hrun. destruct (shuffle_run t g N HN Hrng) as [Hperm Hrun'].
  rewrite Hrun' in Hrun. injection Hrun as <- <-.
  unfold get_feature_dimension, getitem. rewrite dict_get_map_cols. split.
  - intros [|c cols] Hget.
    + rewrite (dict_get_drop_empty_nil t key Hnd Hget), Hget. done.
    + rewrite (dict_get_drop_empty_keys t key c cols Hget), Hget. simpl option_map.
      cbn [snd rbind].
      apply (feature_dimension_loop_permute _ (c :: cols) 0). intros c' Hc'.
      rewrite (get_number_of_examples_Ok t N HN c'); [done|].
      by eapply dict_get_In_columns.
  - intros Hget. by rewrite (dict_get_drop_empty_none t key Hget).
Qed.

Lemma shuffle_keeps_feature_dimension_witness :
  snd (get_feature_dimension DefaultDict "text_features"
         (map_cols (permute_col (rev (seq 0 10))) (drop_empty_keys ten_rows))) = Ok 1.
Proof.
  destruct (shuffle_keeps_feature_dimension PlainDict ten_rows
              (map_cols (permute_col (rev (seq 0 10))) (drop_empty_keys ten_rows))
              (Rng (fun _ n => rev (seq 0 n)) 0) (Rng (fun _ n => rev (seq 0 n)) 1)
              10 "text_features") as [H _].
  - constructor; [simpl; intuition discriminate|].
    constructor; [simpl; tauto | constructor].
  - reflexivity.
  - intros k n. simpl. symmetry. apply Permutation_rev.
  - reflexivity.
  - rewrite (H _ eq_refl). reflexivity.
Defined.

Example get_feature_dimension_1d :
  get_feature_dimension PlainDict "label_ids" ten_rows = (ten_rows, Raise IndexError).
Proof. reflexivity. Qed.

(** ** _get_shapes_types *)

Lemma shapes_types_loop_spec (cols : list column)
    (shapes : list tf_shape) (types : list tf_type) :
  match rmapM entry_signature cols with
  | Ok sigs =>
      exists shapes' types',
        shapes_types_loop cols shapes types = Ok (shapes', types') /\
        length shapes' = length shapes + list_sum (map tensors_of sigs) /\
        length types' = length types + list_sum (map tensors_of sigs)
  | Raise _ => shapes_types_loop cols shapes types = Raise IndexError
  end.
Proof.
  revert shapes types. induction cols as [|v cols IH]; intros shapes types; simpl.
  - exists shapes, types. repeat split; lia.
  - destruct v as [a|m]; simpl.
    + destruct (rows a) as [|r rs]; simpl; [done|].
      specialize (IH (shapes ++ match tail a with
                                | [] => [ShapeTuple [None]]
                                | [d] => [ShapeTuple [None; Some d]]
                                | d :: ds => [ShapeTuple [None; None; Some (List.last ds d)]]
                                end) (types ++ [tf_float32])).
      assert (Hshape : exists s,
                match tail a with
                | [] => Ok [ShapeTuple [None]]
                | [d] => Ok [ShapeTuple [None; Some d]]
                | d :: ds => Ok [ShapeTuple [None; None; Some (List.last ds d)]]
                end = Ok [s] /\
                match tail a with
                | [] => [ShapeTuple [None]]
                | [d] => [ShapeTuple [None; Some d]]
                | d :: ds => [ShapeTuple [None; None; Some (List.last ds d)]]
                end = [s]).
      { destruct (tail a) as [|d [|d' ds]]; eauto. }
      destruct Hshape as (s & Hs1 & Hs2). rewrite Hs1. rewrite Hs2 in IH. simpl.
      destruct (rmapM entry_signature cols) as [sigs|e]; simpl; [|done].
      destruct IH as (shapes' & types' & Hrun & Hl1 & Hl2).
      exists shapes', types'. split; [done|].
      rewrite length_app in Hl1, Hl2. cbn [map list_sum length] in *. change (tensors_of (false, tail a)) with 1. lia.
    + destruct (sprows m) as [|r rs]; simpl; [done|].
      specialize (IH (shapes ++ [ShapeTuple [None; Some 3]; ShapeTuple [None]; ShapeNumber 3])
                     (types ++ [tf_int64; tf_float32; tf_int64])).
      destruct (rmapM entry_signature cols) as [sigs|e]; simpl; [|done].
      destruct IH as (shapes' & types' & Hrun & Hl1 & Hl2).
      exists shapes', types'. split; [done|].
      rewrite length_app in Hl1, Hl2. cbn [map list_sum length] in *. change (tensors_of (true, [1; ncols m])) with 3. lia.
Qed.

(** X10: [_get_shapes_types] returns exactly when [get_signature] does, and
    then hands over as many shapes as types: three of each for every
    column the signature marks as sparse and one of each for every other
    column.  When the signature fails, because a column has no rows, it
    raises an IndexError. *)
Theorem shapes_types_match (t : table) :
  (forall sig, get_signature t = Ok sig ->
     exists shapes types,
       _get_shapes_types t = Ok (shapes, types) /\
       length shapes = length types /\
       length types = list_sum (map tensors_of (concat (dict_values sig)))) /\
  (forall e, get_signature t = Raise e -> _get_shapes_types t = Raise IndexError).
Proof.
  pose proof (rmapM_items entry_signature t) as H.
  pose proof (shapes_types_loop_spec (columns t) [] []) as Hloop.
  unfold get_signature, _get_shapes_types, columns in *.
  destruct (rmapM _ t) as [sig|e].
  - destruct H as (Hc & _). rewrite Hc in Hloop.
    destruct Hloop as (shapes & types & Hrun & Hl1 & Hl2).
    split; [|discriminate]. intros sig' E. injection E as <-.
    exists shapes, types. simpl in *. split; [done|]. lia.
  - rewrite H in Hloop. split; [discriminate|]. by intros _ _.
Qed.

Lemma shapes_types_match_witness :
  exists shapes types,
    _get_shapes_types ten_rows = Ok (shapes, types) /\
    length shapes = length types /\ length types = 2.
Proof.
  destruct (shapes_types_match ten_rows) as [H _].
  destruct (H _ eq_refl) as (shapes & types & Hrun & Hl & Hn).
  exists shapes, types. auto.
Defined.

Example get_shapes_types_sparse :
  _get_shapes_types
    [("text_features", [Sparse (SpMatrix 5 [[(0, 1%Z)]; [(3, 2%Z)]])]);
     ("label_ids", [Dense (NdArray [] [[0%Z]; [1%Z]])])] =
    Ok ([ShapeTuple [None; Some 3]; ShapeTuple [None]; ShapeNumber 3; ShapeTuple [None]],
        [tf_int64; tf_float32; tf_int64; tf_float32]).
Proof. reflexivity. Qed.

(** ** add_mask and the number of examples *)

Lemma columns_dict_set_In (t : table) k l c :
  In c (columns (dict_set t k l)) -> In c l \/ In c (columns t).
Proof.
  unfold columns. induction t as [|[k' l'] t IH]; simpl.
  - rewrite app_nil_r. tauto.
  - destruct (decide (k' = k)) as [->|Hne]; simpl; rewrite !in_app_iff; [tauto|].
    intros [H|H]; [tauto|]. apply IH in H. tauto.
Qed.

Lemma rmapM_const_Ok {A B : Type} (m : B) (l : list A) :
  rmapM (fun _ : A => Ok m) l = Ok (repeat m (length l)).
Proof. induction l as [|x l IH]; simpl; [done|]. by rewrite IH. Qed.

Lemma size_pos_nrows (c : column) : (0 <? size c) = true -> 0 < nrows c.
Proof.
  intros H. apply Nat.ltb_lt in H. destruct c as [a|m]; simpl in *.
  - destruct (rows a); simpl in *; lia.
  - destruct (sprows m); simpl in *; lia.
Qed.

Lemma mask_of_run (data : column) :
  0 < nrows data ->
  mask_of data =
    match row_shape0 data with
    | Ok m => Ok (Dense (NdArray [m; 1] (repeat (repeat 1%Z m) (nrows data))))
    | Raise e => Raise IndexError
    end.
Proof.
  intros Hpos. unfold mask_of.
  destruct (row_shape0 data) as [m|e] eqn:Hrow.
  - rewrite rmapM_const_Ok, length_seq. cbn [rbind].
    rewrite map_repeat.
    destruct (nrows data) as [|n]; [lia|]. done.
  - assert (e = IndexError) as ->.
    { destruct data as [a|m]; simpl in Hrow; [|discriminate].
      destruct (head (tail a)); simpl in Hrow; congruence. }
    destruct (nrows data) as [|n]; [lia|]. done.
Qed.

(** X11: for a source key other than the target key, [add_mask] on a
    non-empty source reads the first source column with elements; for a
    column of [m]-row examples ([m = 1] for a sparse matrix) it binds the
    target key to one array of ones of shape (rows of that column, m, 1)
    and returns; for a 1-D column, whose entries have no length, it raises
    an IndexError, and the target key has by then been bound to the empty
    list. *)
Theorem add_mask_builds_mask (key from_key : string) (t : table)
    (cols : list column) (data : column) :
  key <> from_key ->
  dict_get t from_key = Some cols ->
  List.find (fun d => 0 <? size d) cols = Some data ->
  (forall m, row_shape0 data = Ok m ->
     add_mask key from_key t =
       (dict_set t key [Dense (NdArray [m; 1] (repeat (repeat 1%Z m) (nrows data)))],
        Ok tt)) /\
  (forall e, row_shape0 data = Raise e ->
     add_mask key from_key t = (dict_set t key [], Raise IndexError)).
Proof.
  intros Hne Hget Hfind.
  destruct (find_some _ _ Hfind) as [Hin Hsize].
  pose proof (mask_of_run data (size_pos_nrows _ Hsize)) as Hmask.
  unfold add_mask. rewrite Hget.
  destruct cols as [|c0 cs]; [done|].
  rewrite dict_get_set_ne by done. rewrite Hget, Hfind, Hmask.
  split.
  - intros m ->. by rewrite dict_append_set.
  - by intros e ->.
Qed.

Lemma add_mask_builds_mask_witness :
  add_mask "text_mask" "text_features" sample_table =
    ([("text_features", [sample_dense]);
      ("text_mask", [Dense (NdArray [2; 1] [[1; 1]; [1; 1]; [1; 1]]%Z)])], Ok tt).
Proof.
  destruct (add_mask_builds_mask "text_mask" "text_features" sample_table
              [sample_dense] sample_dense) as [H _];
    [discriminate | reflexivity | reflexivity |].
  exact (H 2 eq_refl).
Defined.

(** X12: [add_mask] keeps the table consistent.  If the columns agree on
    [N] examples and the call returns, for a target key other than the
    source key, then the columns of the table it leaves behind, the mask
    included, still agree on [N] examples. *)
Theorem add_mask_keeps_examples (key from_key : string) (t t' : table) (N : nat) :
  key <> from_key ->
  get_number_of_examples t = Ok N ->
  add_mask key from_key t = (t', Ok tt) ->
  get_number_of_examples t' = Ok N.
Proof.
  intros Hne HN Hrun.
  pose proof (get_number_of_examples_Ok t N HN) as Hall.
  unfold add_mask in Hrun.
  destruct (dict_get t from_key) as [[|c0 cs]|] eqn:Hget;
    [by injection Hrun as <- | | by injection Hrun as <-].
  rewrite dict_get_set_ne in Hrun by done. rewrite Hget in Hrun.
  assert (Hc0 : forall l, In c0 (columns (dict_set t key l))).
  { intros l. apply (dict_get_In_columns _ from_key (c0 :: cs)); [|by left].
    by rewrite dict_get_set_ne. }
  destruct (List.find _ (c0 :: cs)) as [data|] eqn:Hfind.
  - destruct (find_some _ _ Hfind) as [Hin Hsize].
    rewrite (mask_of_run data (size_pos_nrows _ Hsize)) in Hrun.
    destruct (row_shape0 data) as [m|e]; [|discriminate Hrun].
    rewrite dict_append_set in Hrun. cbn [app] in Hrun. injection Hrun as <-.
    apply get_number_of_examples_intro.
    + intros E. specialize (Hc0 [Dense (NdArray [m; 1]
                                 (repeat (repeat 1%Z m) (nrows data)))]).
      rewrite E in Hc0. destruct Hc0.
    + intros c Hc. apply columns_dict_set_In in Hc as [[<-|[]]|Hc]; [|by apply Hall].
      simpl. rewrite repeat_length.
      apply Hall. by apply (dict_get_In_columns _ from_key (c0 :: cs)).
  - injection Hrun as <-. apply get_number_of_examples_intro.
    + intros E. specialize (Hc0 []). rewrite E in Hc0. destruct Hc0.
    + intros c Hc. apply columns_dict_set_In in Hc as [[]|Hc]. by apply Hall.
Qed.

Lemma add_mask_keeps_examples_witness :
  get_number_of_examples (fst (add_mask "text_mask" "text_features" ten_rows)) = Ok 10.
Proof.
  apply (add_mask_keeps_examples "text_mask" "text_features" ten_rows);
    [discriminate | reflexivity | reflexivity].
Defined.

(** ** balance runs to completion on arrays *)

Lemma data_for_ids_mask_run (mask : list bool) (t : table) :
  (forall c, In c (columns t) -> nrows c = length mask) ->
  _data_for_ids (Mask mask) t =
    Ok (map_cols (map_rows (mask_filter mask)) (drop_empty_keys t)).
Proof.
  intros Hfit. unfold _data_for_ids.
  rewrite (rmapM_total _ (fun kv => (fst kv, map (map_rows (mask_filter mask)) (snd kv)))).
  - cbn [rbind]. f_equal. apply (drop_empty_keys_map_cols (map_rows (mask_filter mask)) t).
  - intros kv Hkv. rewrite (rmapM_total _ (map_rows (mask_filter mask))); [done|].
    intros c Hc. simpl. unfold col_mask. rewrite decide_True; [done|].
    symmetry. apply Hfit. unfold columns. apply in_concat.
    exists (snd kv). split; [|done]. apply in_map_iff. eauto.
Qed.

Lemma split_by_label_ids_run (ids : list label) (t : table) :
  (forall c, In c (columns t) -> nrows c = length ids) ->
  exists classes, _split_by_label_ids ids (unique_labels ids) t = Ok classes.
Proof.
  intros Hfit. unfold _split_by_label_ids. eexists.
  apply (rmapM_total _
           (fun u => map_cols (map_rows (mask_filter (map (fun l => bool_decide (l = u)) ids)))
                              (drop_empty_keys t))).
  intros u _. apply data_for_ids_mask_run.
  intros c Hc. rewrite length_map. by apply Hfit.
Qed.

Section BalanceProgress.

Variable ids : list label.
Variable t0 : table.
Variable env : bal_env.

Hypothesis Hnodup : List.NoDup (dict_keys t0).
Hypothesis Hnonempty : no_empty_keys t0.
Hypothesis Henv : env_ok env.
Hypothesis Hclasses : forall i ct,
  label_data env !! i = Some ct ->
  ct = map_cols (map_rows (mask_filter (class_mask ids i))) t0.
Hypothesis Hdata : length (label_data env) = length (counts_label_ids env).

Lemma visit_progress (index : nat) (st : bal_state) (steps : list step) :
  rows_inv ids t0 env st steps ->
  length (data_idx st) = length (counts_label_ids env) ->
  length (skipped st) = length (counts_label_ids env) ->
  index < length (counts_label_ids env) ->
  exists st' brk,
    visit env index st = Ok (st', brk) /\
    length (data_idx st') = length (counts_label_ids env) /\
    length (skipped st') = length (counts_label_ids env).
Proof.
  intros (Hnd & Hcov & Hcur & Hlen) Hdi Hsk Hindex. unfold visit.
  destruct (lookup_lt_is_Some_2 (num_data_cycles st) index) as [cycles Hc]; [lia|].
  destruct (lookup_lt_is_Some_2 (skipped st) index) as [skip Hs]; [lia|].
  destruct (lookup_lt_is_Some_2 (counts_label_ids env) index) as [count Hcount]; [lia|].
  destruct (lookup_lt_is_Some_2 (label_data env) index) as [ct Hct]; [lia|].
  destruct (lookup_lt_is_Some_2 (data_idx st) index) as [idx Hidx]; [lia|].
  rewrite Hc, Hs. cbn [of_option rbind].
  destruct ((0 <? cycles) && negb skip).
  - eexists _, _. split; [done|]. cbn [data_idx skipped]. by rewrite length_insert.
  - rewrite Hcount, Hct, Hidx. cbn [of_option rbind].
    rewrite (Hclasses _ _ Hct), Hnd.
    rewrite (append_slices_stacked ids t0 Hnodup Hnonempty). cbn [rbind].
    destruct (min_cycles_run
                (if (idx + (scale env count (num_examples env) (batch_size env) + 1)
                     >=? Z.of_nat count)%Z
                 then <[index := S cycles]> (num_data_cycles st)
                 else num_data_cycles st)) as [m Hm].
    { destruct (_ >=? _)%Z; rewrite ?length_insert; lia. }
    rewrite Hm. cbn [rbind]. eexists _, _. split; [done|].
    cbn [data_idx skipped]. rewrite length_insert.
    split; [|done]. destruct (_ >=? _)%Z; by rewrite length_insert.
Qed.

Lemma for_indices_progress (order : list nat) (st : bal_state) (steps : list step) :
  rows_inv ids t0 env st steps ->
  length (data_idx st) = length (counts_label_ids env) ->
  length (skipped st) = length (counts_label_ids env) ->
  (forall i, In i order -> i < length (counts_label_ids env)) ->
  exists st' steps',
    for_indices env order st = Ok st' /\
    rows_inv ids t0 env st' steps' /\
    length (data_idx st') = length (counts_label_ids env) /\
    length (skipped st') = length (counts_label_ids env).
Proof.
  revert st steps. induction order as [|j order IH]; intros st steps Hinv Hdi Hsk Hord; simpl.
  - eauto 6.
  - destruct (visit_progress j st steps Hinv Hdi Hsk) as (st1 & brk & Hvisit & Hdi1 & Hsk1).
    { apply Hord. by left. }
    rewrite Hvisit. cbn [rbind fst snd].
    destruct (visit_rows_inv ids t0 env Hnodup Hnonempty Henv Hclasses _ _ _ _ _ Hinv Hvisit)
      as (steps1 & Hinv1 & _).
    destruct brk; [eauto 6|].
    apply (IH st1 steps1); try done. intros i Hi. apply Hord. by right.
Qed.

Lemma while_rounds_progress (fuel : nat) (st : bal_state) (g : rng) (steps : list step) :
  rows_inv ids t0 env st steps ->
  length (data_idx st) = length (counts_label_ids env) ->
  length (skipped st) = length (counts_label_ids env) ->
  0 < length (counts_label_ids env) ->
  (do_shuffle env = true -> rng_ok g) ->
  forall e, while_rounds fuel env st g <> Some (Raise e).
Proof.
  intros Hinv Hdi Hsk Hpos Hrng e.
  revert st g steps Hinv Hdi Hsk Hrng.
  induction fuel as [|fuel IH]; intros st g steps Hinv Hdi Hsk Hrng; simpl.
  - destruct (min_cycles_run (num_data_cycles st)) as [m ->].
    { destruct Hinv as (_ & _ & _ & ->). done. }
    by destruct (m =? 0).
  - destruct (min_cycles_run (num_data_cycles st)) as [m ->].
    { destruct Hinv as (_ & _ & _ & ->). done. }
    destruct (m =? 0); [|done].
    destruct (if do_shuffle env then _ else _) as [order g1] eqn:Horder.
    assert (Hord : (forall i, In i order -> i < length (counts_label_ids env)) /\
                   (do_shuffle env = true -> rng_ok g1)).
    { destruct (do_shuffle env).
      - unfold permutation in Horder. injection Horder as <- <-. split.
        + intros i Hi. apply list_elem_of_In in Hi.
          rewrite (Hrng eq_refl (used g) _) in Hi.
          apply list_elem_of_In, in_seq in Hi. lia.
        + intros _ k n. apply (Hrng eq_refl).
      - injection Horder as <- <-. split; [|done].
        intros i Hi. apply in_seq in Hi. lia. }
    destruct Hord as [Hord Hrng1].
    destruct (for_indices_progress order st steps Hinv Hdi Hsk Hord)
      as (st1 & steps1 & -> & Hinv1 & Hdi1 & Hsk1).
    by apply (IH st1 g1 steps1).
Qed.

End BalanceProgress.

Lemma final_data_dense (ids : list label) (t0 : table) (steps : list step) :
  steps <> [] ->
  (forall c, In c (columns t0) -> is_dense c = true) ->
  exists t', final_data (stacked ids t0 steps) = Ok t'.
Proof.
  intros Hsteps Hdense. unfold final_data.
  set (G := fun c : column =>
              match c with
              | Dense a =>
                  Dense (NdArray (tail a)
                           (concat (map (fun s => apply_step ids s _ (rows a)) steps)))
              | Sparse _ => c
              end).
  assert (Hrun : rmapM (fun kv : string * list (list column) =>
                          let* vs := rmapM col_concat (snd kv) in Ok (fst kv, vs))
                       (stacked ids t0 steps) = Ok (map_cols G t0)).
  { assert (Hst : stacked ids t0 steps =
                    map_cols (fun c => map (fun s => step_col ids s c) steps) t0)
      by (by destruct steps).
    rewrite Hst. unfold map_cols at 1. rewrite rmapM_map.
    apply (rmapM_total _ (fun kv : string * list column => (fst kv, map G (snd kv)))).
    intros kv Hkv. cbn [fst snd]. rewrite rmapM_map.
    rewrite (rmapM_total _ G); [done|].
    intros c Hc.
    assert (Hin : In c (columns t0)).
    { unfold columns. apply in_concat. exists (snd kv). split; [|done].
      apply in_map_iff. eauto. }
    specialize (Hdense c Hin). destruct c as [a|m]; [|discriminate].
    by apply (col_concat_dense (tail a) (fun s => apply_step ids s _ (rows a)) steps). }
  rewrite Hrun. cbn [rbind]. eauto.
Qed.

(** X13: [balance] runs to completion on well-formed arrays.  For a table
    (a dictionary, so its keys are distinct) whose columns are all arrays
    that agree on [N > 0] examples, with the label key bound to exactly one
    array of a shape [_create_label_ids] supports, a batch size that is not
    negative and, when shuffling, a random source that hands out
    permutations, the call ends without raising and leaves a table
    behind. *)
Theorem balance_returns
    (scale : nat -> nat -> Z -> Z) (bs : Z) (sh : bool) (label_key : string)
    (t : table) (g : rng) (a : ndarray) (ids : list label) (N : nat) :
  List.NoDup (dict_keys t) ->
  forallb is_dense (columns t) = true ->
  dict_get t label_key = Some [Dense a] ->
  _create_label_ids a = Ok ids ->
  get_number_of_examples t = Ok N ->
  0 < N ->
  (0 <= bs)%Z ->
  (forall c n b, 0 < n -> (0 <= b)%Z -> (0 <= scale c n b)%Z) ->
  (sh = true -> rng_ok g) ->
  exists fuel, forall fuel', fuel <= fuel' ->
    exists t' g', balance fuel' scale bs sh label_key t g = Some (Ok (t', g')).
Proof.
  intros Hnodup Hdense Hget Hcreate HN Hpos Hbs Hscale Hrng.
  assert (Hkey : _check_label_key label_key t = Ok tt).
  { unfold _check_label_key. by rewrite Hget. }
  assert (Hids : label_ids_of label_key t = Ok ids).
  { unfold label_ids_of. by rewrite Hget. }
  pose proof (label_ids_length _ _ _ _ Hkey Hids HN) as HlenN.
  pose proof (get_number_of_examples_Ok t N HN) as Hrows.
  destruct (split_by_label_ids_run ids t) as [classes Hsplit].
  { intros c Hc. rewrite HlenN. by apply Hrows. }
  destruct (split_by_label_ids_classes _ _ _ Hsplit) as [Hlen Hclasses].
  unfold balance. rewrite Hkey, Hids. unfold np_unique. rewrite Hsplit, HN.
  set (env := BalEnv scale bs sh (map (count_label ids) (unique_labels ids)) classes N).
  assert (Hn : length (unique_labels ids) = length (counts_label_ids env))
    by (simpl; by rewrite length_map).
  rewrite Hn. fold (initial_state (length (counts_label_ids env))).
  assert (Hsome : 0 < length (counts_label_ids env)).
  { rewrite <- Hn. destruct (unique_labels ids) eqn:Hus; [|simpl; lia].
    apply unique_labels_nil in Hus. subst ids. simpl in HlenN. lia. }
  assert (Henv : env_ok env).
  { split.
    - intros c. apply Hscale; [simpl; lia | done].
    - intros i count Hc. by apply (counts_positive ids i). }
  set (t0 := drop_empty_keys t).
  assert (Hcl : forall i ct, label_data env !! i = Some ct ->
                  ct = map_cols (map_rows (mask_filter (class_mask ids i))) t0).
  { intros i ct H. exact (proj2 (Hclasses i ct H)). }
  pose proof (initial_rows_inv ids t0 env Henv) as Hinit.
  exists (S (total_owed env (initial_state (length (counts_label_ids env))))).
  intros fuel' Hfuel.
  destruct (while_rounds_terminates env fuel' Henv
              (initial_state (length (counts_label_ids env))) g) as [r Hr].
  { by apply initial_cursors_ok. }
  { simpl. by rewrite length_replicate. }
  { done. }
  { lia. }
  destruct r as [[st g1]|e].
  - rewrite Hr.
    destruct (while_rounds_rows_inv ids t0 env (NoDup_keys_drop t Hnodup)
                (no_empty_keys_drop t) Henv Hcl fuel' _ _ _ _ [] Hinit Hr)
      as [[steps (Hnd & Hcov & Hcur & Hlens)] Hdone].
    assert (Hsteps : steps <> []).
    { intros ->.
      assert (Hin : In 0 (selection ids [] (length ids))); [|by destruct Hin].
      apply (selection_complete ids env st [] 0); try done. lia. }
    destruct (final_data_dense ids t0 steps Hsteps) as [t' Hfinal].
    { intros c Hc. subst t0. rewrite columns_drop_empty_keys in Hc.
      rewrite forallb_forall in Hdense. by apply Hdense. }
    rewrite Hnd, Hfinal. cbn [rbind]. eauto.
  - exfalso.
    apply (while_rounds_progress ids t0 env (NoDup_keys_drop t Hnodup)
             (no_empty_keys_drop t) Henv Hcl
             ltac:(simpl; by rewrite Hlen, length_map)
             fuel' _ g [] Hinit
             ltac:(simpl; by rewrite length_replicate)
             ltac:(simpl; by rewrite length_replicate)
             Hsome Hrng e Hr).
Qed.

Lemma balance_returns_witness :
  exists fuel, forall fuel', fuel <= fuel' ->
    exists t' g',
      balance fuel' exact_scale 4 true "label_ids" ten_rows identity_rng = Some (Ok (t', g')).
Proof.
  apply (balance_returns exact_scale 4 true "label_ids" ten_rows identity_rng
           (NdArray [] (map (fun i => [Z.of_nat (i mod 3)]) (seq 0 10)))
           (map (fun i => LNum (Z.of_nat (i mod 3))) (seq 0 10)) 10).
  - constructor; [simpl; intuition discriminate|].
    constructor; [simpl; tauto | constructor].
  - reflexivity.
  - reflexivity.
  - reflexivity.
  - reflexivity.
  - lia.
  - lia.
  - apply exact_scale_nonneg.
  - intros _. apply identity_rng_ok.
Defined.

(** ** split returns when the checks pass *)

Lemma train_columns_run n index out solo :
  (forall j, index <= j < index + n ->
     exists o s c, out !! (j * 2) = Some o /\ solo !! j = Some s /\
                   _combine_features o s = Ok c) ->
  exists cs, train_columns n index out solo = Ok cs.
Proof.
  revert index. induction n as [|n IH]; intros index H; simpl; [eauto|].
  destruct (H index) as (o & s & c & -> & -> & Hc); [lia|].
  cbn [of_option rbind]. rewrite Hc. cbn [rbind].
  destruct (IH (S index)) as [cs ->]; [intros j Hj; apply H; lia|].
  cbn [rbind]. eauto.
Qed.

Lemma val_columns_run n index out :
  (forall j, index <= j < index + n -> exists o, out !! (j * 2 + 1) = Some o) ->
  exists cs, val_columns n index out = Ok cs.
Proof.
  revert index. induction n as [|n IH]; intros index H; simpl; [eauto|].
  destruct (H index) as (o & ->); [lia|]. cbn [of_option rbind].
  destruct (IH (S index)) as [cs ->]; [intros j Hj; apply H; lia|].
  cbn [rbind]. eauto.
Qed.

Lemma convert_items_run (per_key : nat -> nat -> result (list column))
    (items : table) (index : nat) :
  (forall n i, index <= i -> i + n <= index + length (columns items) ->
     exists cs, per_key n i = Ok cs) ->
  exists r, convert_items per_key items index = Ok r.
Proof.
  revert index. induction items as [|[k vs] items IH]; intros index H; simpl; [eauto|].
  assert (Hlen : length (columns ((k, vs) :: items)) = length vs + length (columns items)).
  { unfold columns. simpl. by rewrite length_app. }
  destruct (H (length vs) index) as [cs ->]; [lia | lia |]. cbn [rbind].
  destruct (IH (index + length vs)) as [r ->].
  { intros n i Hi Hn. apply H; lia. }
  cbn [rbind]. eauto.
Qed.

Lemma concat_pairs_run {A B : Type} (f g : A -> B) (l : list A) (j : nat) :
  concat (map (fun a => [f a; g a]) l) !! (j * 2) = option_map f (l !! j) /\
  concat (map (fun a => [f a; g a]) l) !! (j * 2 + 1) = option_map g (l !! j).
Proof.
  revert j. induction l as [|x l IH]; intros j; [done|].
  destruct j as [|j]; [done|]. simpl. apply IH.
Qed.

Lemma train_test_split_run sk arrays n seed strat M trI teI :
  arrays <> [] ->
  (forall a, In a arrays -> nrows a = M) ->
  stratified_indices sk M n seed strat = Some (trI, teI) ->
  (forall j, In j (trI ++ teI) -> j < M) ->
  train_test_split sk arrays n seed strat =
    Ok (concat (map (fun a => [permute_col trI a; permute_col teI a]) arrays)).
Proof.
  intros Hne Hrows Hsk Hrange. unfold train_test_split.
  destruct arrays as [|a0 rest] eqn:Harr; [done|]. rewrite <- Harr in *.
  assert (Ha0 : nrows a0 = M) by (apply Hrows; rewrite Harr; by left).
  assert (Hall : forallb (fun a => nrows a =? nrows a0) arrays = true).
  { apply forallb_forall. intros a Ha. apply Nat.eqb_eq. rewrite Ha0. by apply Hrows. }
  rewrite Hall, Ha0, Hsk. cbn [of_option rbind fst snd].
  rewrite (rmapM_total _ (fun a => [permute_col trI a; permute_col teI a])); [done|].
  intros a Ha.
  rewrite !col_take_in_range; [done | |].
  - intros j Hj. rewrite (Hrows a Ha). apply Hrange, in_app_iff. by right.
  - intros j Hj. rewrite (Hrows a Ha). apply Hrange, in_app_iff. by left.
Qed.

Lemma combine_features_same (ids1 : list nat) (F G : forall A : Type, list A -> list A)
    (c : column) :
  exists c', _combine_features (permute_col ids1 (map_rows F c)) (map_rows G c) = Ok c'.
Proof.
  destruct c as [a|m]; simpl.
  - rewrite decide_True by done. eauto.
  - destruct (_ =? 0); [eauto|]. destruct (_ =? 0); [eauto|].
    rewrite decide_True by done. eauto.
Qed.

(** X14: [split] returns when its checks pass.  With the label key bound
    to exactly one array of a supported shape, columns that agree on [N]
    examples, a test size [n] with [C <= n < N - C] for the [C] distinct
    label ids, and a sampler that answers with row indices inside the
    rows whose label occurs more than once, the call returns a train and a
    test table: no mask, index, lookup or concatenation on the way
    raises. *)
Theorem split_returns
    (sk : sklearn) (n seed : Z) (label_key : string) (t : table)
    (a : ndarray) (ids : list label) (N : nat) (trI teI : list nat) :
  dict_get t label_key = Some [Dense a] ->
  _create_label_ids a = Ok ids ->
  get_number_of_examples t = Ok N ->
  (Z.of_nat (length (remove_dups ids)) <= n
     < Z.of_nat N - Z.of_nat (length (remove_dups ids)))%Z ->
  stratified_indices sk (length (List.filter (is_multi ids) ids)) n seed
    (List.filter (is_multi ids) ids) = Some (trI, teI) ->
  (forall j, In j (trI ++ teI) -> j < length (List.filter (is_multi ids) ids)) ->
  exists train test, split sk n seed label_key t = Ok (train, test).
Proof.
  intros Hget Hcreate HN Hsize Hsk Hrange.
  assert (Hkey : _check_label_key label_key t = Ok tt).
  { unfold _check_label_key. by rewrite Hget. }
  assert (Hids : label_ids_of label_key t = Ok ids).
  { unfold label_ids_of. by rewrite Hget. }
  pose proof (label_ids_length _ _ _ _ Hkey Hids HN) as HlenN.
  pose proof (get_number_of_examples_Ok t N HN) as Hrows.
  unfold split. rewrite Hkey, Hids. cbn [rbind].
  unfold _check_train_test_sizes. rewrite HN. cbn [rbind].
  rewrite label_counts_of_length.
  destruct (Z.geb_spec n (Z.of_nat N - Z.of_nat (length (remove_dups ids)))); [lia|].
  destruct (Z.ltb_spec n (Z.of_nat (length (remove_dups ids)))); [lia|]. cbn [rbind].
  rewrite (rmapM_total _ (count_label ids))
    by (intros l Hl; by rewrite label_counts_get_of).
  cbn [rbind]. rewrite !map_map.
  change (map (fun x => 1 <? count_label ids x) ids) with (map (is_multi ids) ids).
  change (map (fun x => count_label ids x =? 1) ids) with (map (is_solo ids) ids).
  assert (Hmask : forall p : label -> bool, forall c, In c (columns t) ->
            col_mask (map p ids) c = Ok (map_rows (mask_filter (map p ids)) c)).
  { intros p c Hc. unfold col_mask. rewrite decide_True; [done|].
    rewrite length_map, HlenN. symmetry. by apply Hrows. }
  rewrite (rmapM_total _ (map_rows (mask_filter (map (is_multi ids) ids))))
    by (intros c Hc; by apply Hmask).
  cbn [rbind].
  rewrite (rmapM_total _ (map_rows (mask_filter (map (is_solo ids) ids))))
    by (intros c Hc; by apply Hmask).
  cbn [rbind]. rewrite mask_filter_self.
  set (multi := map_rows (mask_filter (map (is_multi ids) ids))).
  set (solo := map_rows (mask_filter (map (is_solo ids) ids))).
  assert (Hcols : columns t <> []).
  { intros E. pose proof (dict_get_In_columns t _ _ (Dense a) Hget (or_introl eq_refl)) as Hin.
    by rewrite E in Hin. }
  rewrite (train_test_split_run sk (map multi (columns t)) n seed _
             (length (List.filter (is_multi ids) ids)) trI teI); try done.
  2: { destruct (columns t); [done | discriminate]. }
  2: { intros c' Hc'. apply in_map_iff in Hc' as (c & <- & Hc).
       by apply (nrows_col_mask (is_multi ids) ids c), Hmask. }
  cbn [rbind]. unfold _convert_train_test_split. rewrite map_map.
  set (out := concat (map (fun c => [permute_col trI (multi c); permute_col teI (multi c)])
                          (columns t))).
  destruct (convert_items_run
              (fun n i => train_columns n i out (map solo (columns t))) t 0) as [tr ->].
  { intros m i _ Hm. apply train_columns_run. intros j Hj.
    destruct (lookup_lt_is_Some_2 (columns t) j) as [c Hc]; [lia|].
    destruct (combine_features_same trI (mask_filter (map (is_multi ids) ids))
                (mask_filter (map (is_solo ids) ids)) c) as [c' Hc'].
    exists (permute_col trI (multi c)), (solo c), c'.
    split; [|split; [|done]].
    - subst out.
      rewrite (proj1 (concat_pairs_run (fun c => permute_col trI (multi c))
                        (fun c => permute_col teI (multi c)) (columns t) j)).
      by rewrite Hc.
    - by rewrite lookup_map, Hc. }
  cbn [rbind].
  destruct (convert_items_run (fun n i => val_columns n i out) t 0) as [te ->].
  { intros m i _ Hm. apply val_columns_run. intros j Hj.
    destruct (lookup_lt_is_Some_2 (columns t) j) as [c Hc]; [lia|].
    exists (permute_col teI (multi c)). subst out.
    rewrite (proj2 (concat_pairs_run (fun c => permute_col trI (multi c))
                      (fun c => permute_col teI (multi c)) (columns t) j)).
    by rewrite Hc. }
  cbn [rbind]. eauto.
Qed.

Lemma split_returns_witness :
  exists train test, split first_rows_sampler 3 0 "label_ids" ten_rows = Ok (train, test).
Proof.
  apply (split_returns first_rows_sampler 3 0 "label_ids" ten_rows
           (NdArray [] (map (fun i => [Z.of_nat (i mod 3)]) (seq 0 10)))
           (map (fun i => LNum (Z.of_nat (i mod 3))) (seq 0 10)) 10
           (seq 3 7) (seq 0 3)).
  - reflexivity.
  - reflexivity.
  - reflexivity.
  - change (length (remove_dups _)) with 3. lia.
  - reflexivity.
  - intros j Hj.
    change (length (List.filter _ _)) with 10.
    apply in_app_iff in Hj as [Hj|Hj]; apply in_seq in Hj; lia.
Defined.

(** ** Edge cases of balance and of the batch generator *)

(** X15: [balance] cannot handle a table without examples.  When the
    columns agree on zero rows there is no label id, the per-class lists
    are empty, and the loop condition [min(num_data_cycles)] raises on the
    empty list before the first round, whatever the batch size. *)
Theorem balance_no_examples
    (fuel : nat) (scale : nat -> nat -> Z -> Z) (bs : Z) (sh : bool)
    (label_key : string) (t : table) (g : rng) (a : ndarray) (ids : list label) :
  dict_get t label_key = Some [Dense a] ->
  _create_label_ids a = Ok ids ->
  get_number_of_examples t = Ok 0 ->
  balance fuel scale bs sh label_key t g = Some (Raise EmptySequenceError).
Proof.
  intros Hget Hcreate HN.
  assert (Hkey : _check_label_key label_key t = Ok tt).
  { unfold _check_label_key. by rewrite Hget. }
  assert (Hids : label_ids_of label_key t = Ok ids).
  { unfold label_ids_of. by rewrite Hget. }
  pose proof (label_ids_length _ _ _ _ Hkey Hids HN) as HlenN.
  destruct ids; [|discriminate HlenN].
  unfold balance. rewrite Hkey, Hids. unfold np_unique.
  change (unique_labels []) with (@nil label).
  cbn [_split_by_label_ids rmapM map length]. rewrite HN.
  by destruct fuel.
Qed.

Lemma balance_no_examples_witness :
  balance 5 exact_scale 4 false "label_ids" (labelled []) identity_rng =
    Some (Raise EmptySequenceError).
Proof.
  apply (balance_no_examples 5 exact_scale 4 false "label_ids" (labelled []) identity_rng
           (NdArray [] []) []); reflexivity.
Defined.

(** X16: [_gen_batch] with a batch size that is not positive.  In the
    plain sequence mode without shuffling, on a table whose columns agree
    on their row count, a batch size of zero makes the computation of the
    number of batches divide by zero, and a negative batch size yields no
    batch at all: the floor quotient is not positive and the remainder,
    which takes the sign of the divisor, is never above zero.  The table
    is left as it was. *)
Theorem gen_batch_nonpositive_size
    (fuel : nat) (scale : nat -> nat -> Z -> Z) (bs : Z) (label_key strategy : string)
    (t : table) (g : rng) (N : nat) :
  strategy <> "balanced" ->
  get_number_of_examples t = Ok N ->
  (bs = 0%Z ->
     _gen_batch fuel scale bs label_key strategy false t g =
       Some (Raise ZeroDivisionError)) /\
  ((bs < 0)%Z ->
     _gen_batch fuel scale bs label_key strategy false t g = Some (Ok ([], t, g))).
Proof.
  intros Hstrat HN. unfold _gen_batch. rewrite decide_False by done.
  rewrite HN. cbn [rbind]. split.
  - by intros ->.
  - intros Hneg. destruct (Z.eqb_spec bs 0); [lia|].
    pose proof (Z.mod_neg_bound (Z.of_nat N) bs Hneg) as Hmod.
    destruct (Z.ltb_spec 0 (Z.of_nat N mod bs)); [lia|].
    assert (Hdiv : (Z.of_nat N / bs <= 0)%Z).
    { pose proof (Z.div_mod (Z.of_nat N) bs ltac:(lia)). nia. }
    replace (Z.to_nat (Z.of_nat N / bs + 0)) with 0 by lia. done.
Qed.

Lemma gen_batch_nonpositive_size_witness :
  _gen_batch 0 exact_scale 0 "label_ids" "sequence" false ten_rows identity_rng =
    Some (Raise ZeroDivisionError) /\
  _gen_batch 0 exact_scale (-4) "label_ids" "sequence" false ten_rows identity_rng =
    Some (Ok ([], ten_rows, identity_rng)).
Proof.
  destruct (gen_batch_nonpositive_size 0 exact_scale 0 "label_ids" "sequence"
              ten_rows identity_rng 10) as [H0 _]; [discriminate | reflexivity |].
  destruct (gen_batch_nonpositive_size 0 exact_scale (-4) "label_ids" "sequence"
              ten_rows identity_rng 10) as [_ Hneg]; [discriminate | reflexivity |].
  split; [by apply H0 | apply Hneg; lia].
Defined.

(** ** The tables split returns are consistent *)

Lemma multi_solo_length (ids : list label) :
  length (List.filter (is_multi ids) ids) + length (List.filter (is_solo ids) ids)
    = length ids.
Proof.
  pose proof (mask_filter_complement (is_multi ids) (is_solo ids) ids ids eq_refl
                (fun x Hx => is_multi_not_solo ids x Hx)) as H.
  apply Permutation_length in H. by rewrite length_app, !mask_filter_self in H.
Qed.

Lemma Forall2_In_l {A B : Type} (P : A -> B -> Prop) (l : list A) (k : list B) (x : A) :
  Forall2 P l k -> In x l -> exists y, In y k /\ P x y.
Proof.
  induction 1 as [|a b l k Hab _ IH]; simpl; [done|].
  intros [<-|Hx]; [eauto|]. destruct (IH Hx) as (y & Hy & HP). eauto.
Qed.

(** X17: the two tables [split] returns are consistent tables.  With a
    sampler that partitions the row indices it is given, whenever [split]
    returns, [get_number_of_examples] succeeds on the input, on the train
    and on the test table, and the example counts of the two parts add up
    to the example count of the input. *)
Theorem split_keeps_examples
    (sk : sklearn) (n seed : Z) (label_key : string) (t train test : table) :
  (forall m strat trI teI,
     stratified_indices sk m n seed strat = Some (trI, teI) -> trI ++ teI ≡ₚ seq 0 m) ->
  split sk n seed label_key t = Ok (train, test) ->
  exists N a b,
    get_number_of_examples t = Ok N /\
    get_number_of_examples train = Ok a /\
    get_number_of_examples test = Ok b /\
    a + b = N.
Proof.
  intros Hperm Hsplit.
  destruct (split_Ok_sampler _ _ _ _ _ _ _ Hsplit)
    as (ids & trI & teI & vs_tr & vs_te & strat & Hids & Hsk & -> & -> & Htr & Hte).
  apply Hperm, Permutation_length in Hsk. rewrite length_app, length_seq in Hsk.
  pose proof (Forall2_length _ _ _ Htr) as Hlen_tr.
  pose proof (Forall2_length _ _ _ Hte) as Hlen_te.
  pose proof (multi_solo_length ids) as Hparts.
  assert (Hcols : columns t <> []).
  { unfold label_ids_of in Hids.
    destruct (dict_get t label_key) as [[|c0 cols]|] eqn:Hget; try discriminate Hids.
    intros E. pose proof (dict_get_In_columns t _ _ c0 Hget (or_introl eq_refl)) as Hin.
    by rewrite E in Hin. }
  exists (length ids), (length trI + length (List.filter (is_solo ids) ids)), (length teI).
  split; [|split; [|split; [|lia]]].
  - apply get_number_of_examples_intro; [done|].
    intros c Hc. destruct (Forall2_In_l _ _ _ _ Hte Hc) as (c' & _ & m & Hm & _).
    apply col_mask_Ok in Hm as [Hlen _]. by rewrite length_map in Hlen.
  - apply get_number_of_examples_intro;
      rewrite columns_drop_empty_keys, columns_regroup by done.
    + intros E. rewrite E in Hlen_tr. destruct (columns t); [done | discriminate].
    + intros c' Hc'. destruct (Forall2_In_r _ _ _ _ Htr Hc')
        as (c & _ & m & s & tr & Hm & Hs & Htake & Hcomb).
      rewrite (nrows_combine _ _ _ Hcomb), (nrows_col_take _ _ _ Htake).
      by rewrite (nrows_col_mask _ _ _ _ Hs).
  - apply get_number_of_examples_intro;
      rewrite columns_drop_empty_keys, columns_regroup by done.
    + intros E. rewrite E in Hlen_te. destruct (columns t); [done | discriminate].
    + intros c' Hc'. destruct (Forall2_In_r _ _ _ _ Hte Hc') as (c & _ & m & Hm & Htake).
      by rewrite (nrows_col_take _ _ _ Htake).
Qed.

Lemma split_keeps_examples_witness :
  exists N a b,
    get_number_of_examples (labelled [1; 1; 1; 2; 2; 2; 3]%Z) = Ok N /\
    get_number_of_examples (labelled [2; 2; 2; 3]%Z) = Ok a /\
    get_number_of_examples (labelled [1; 1; 1]%Z) = Ok b /\
    a + b = N.
Proof.
  apply (split_keeps_examples first_rows_sampler 3 42 "label_ids"
           (labelled [1; 1; 1; 2; 2; 2; 3]%Z)
           (labelled [2; 2; 2; 3]%Z) (labelled [1; 1; 1]%Z)
           (fun m strat => first_rows_sampler_partition m 3 42 strat)
           eq_refl).
Defined.

(** ** Without shuffling nothing is drawn *)

Lemma while_rounds_no_shuffle (fuel : nat) (env : bal_env) (st : bal_state) (g g0 : rng) :
  do_shuffle env = false ->
  while_rounds fuel env st g = with_source g (while_rounds fuel env st g0).
Proof.
  intros Hsh. revert st. induction fuel as [|fuel IH]; intros st; simpl.
  - destruct (min_cycles (num_data_cycles st)) as [m|e]; [|done]. by destruct (m =? 0).
  - destruct (min_cycles (num_data_cycles st)) as [m|e]; [|done].
    destruct (m =? 0); [|done]. rewrite Hsh.
    destruct (for_indices env _ st) as [st1|e]; [apply IH | done].
Qed.

Lemma balance_no_shuffle fuel scale bs label_key (t : table) (g g0 : rng) :
  balance fuel scale bs false label_key t g =
    with_source g (balance fuel scale bs false label_key t g0).
Proof.
  unfold balance.
  destruct (_check_label_key label_key t) as [[]|e]; [|done].
  destruct (label_ids_of label_key t) as [ids|e]; [|done].
  unfold np_unique.
  destruct (_split_by_label_ids ids (unique_labels ids) t) as [classes|e]; [|done].
  destruct (get_number_of_examples t) as [N|e]; [|done].
  rewrite (while_rounds_no_shuffle fuel _ _ g g0) by done.
  destruct (while_rounds fuel _ _ g0) as [[[st g1]|e]|]; simpl; [|done|done].
  by destruct (final_data (new_data st)).
Qed.

(** X18: without shuffling nothing is drawn from [np.random].  With
    [shuffle = False], [balance] and the batch generator (in either mode)
    hand the random source back untouched, and their outcome, a table, the
    batches, an exception, or a loop still running, is the same whatever
    the state of the random source. *)
Theorem no_shuffle_no_draw
    (fuel : nat) (scale : nat -> nat -> Z -> Z) (bs : Z) (label_key strategy : string)
    (t : table) (g g0 : rng) :
  balance fuel scale bs false label_key t g =
    with_source g (balance fuel scale bs false label_key t g0) /\
  _gen_batch fuel scale bs label_key strategy false t g =
    with_source g (_gen_batch fuel scale bs label_key strategy false t g0).
Proof.
  split; [apply balance_no_shuffle|].
  unfold _gen_batch. destruct (decide (strategy = "balanced")) as [_|_].
  - rewrite (balance_no_shuffle fuel scale bs label_key t g g0).
    destruct (balance fuel scale bs false label_key t g0) as [[[t2 g2]|e]|]; simpl; [|done|done].
    destruct (get_number_of_examples t2) as [N|e]; simpl; [|done].
    by destruct (bs =? 0)%Z.
  - destruct (get_number_of_examples t) as [N|e]; simpl; [|done].
    by destruct (bs =? 0)%Z.
Qed.

(** ** add_features, the number of examples and the feature dimension *)

Lemma get_number_of_examples_disagree (t : table) (c1 c2 : column) :
  In c1 (columns t) -> In c2 (columns t) -> nrows c1 <> nrows c2 ->
  get_number_of_examples t = Raise InconsistentSizeError.
Proof.
  intros H1 H2 Hne. unfold get_number_of_examples, example_lengths.
  destruct (forallb _ _) eqn:Hf; [|done]. exfalso. apply Hne.
  apply (proj1 (forallb_eq_hd _) Hf); by apply in_map.
Qed.

Lemma columns_snoc (t : table) (key : string) (cols : list column) :
  columns (t ++ [(key, cols)]) = columns t ++ cols.
Proof.
  unfold columns, dict_values. rewrite map_app, concat_app. simpl. by rewrite app_nil_r.
Qed.

Lemma add_features_columns (key : string) (features : list column) (t : table) :
  dict_contains t key = false ->
  columns (fst (add_features key features t)) =
    columns t ++ List.filter (fun data => 0 <? size data) features /\
  dict_get (fst (add_features key features t)) key =
    match List.filter (fun data => 0 <? size data) features with
    | [] => None
    | kept => Some kept
    end.
Proof.
  intros Hfresh. pose proof (proj1 (dict_contains_false t key) Hfresh) as Hnotin.
  unfold add_features. destruct features as [|c cs].
  { simpl. rewrite app_nil_r. split; [done | by apply dict_get_notin]. }
  rewrite Hfresh. rewrite (add_features_loop key (c :: cs) [] t). cbn [app].
  generalize (List.filter (fun data => 0 <? size data) (c :: cs)). intros kept.
  rewrite dict_get_set_eq. destruct kept as [|k ks]; cbn [fst].
  - rewrite dict_set_notin by done. rewrite dict_del_snoc by done.
    rewrite app_nil_r. split; [done | by apply dict_get_notin].
  - rewrite dict_set_notin by done. rewrite columns_snoc. split; [done|].
    rewrite dict_get_app_notin by done. simpl. by rewrite decide_True.
Qed.

(** X19: [add_features] does not look at the number of rows.  On a table
    whose columns agree on [N] examples and a key that is not in it, the
    table stays consistent, still with [N] examples, when every added
    column that has elements has [N] rows; and as soon as one such column
    has another number of rows the call still returns normally, and it is
    [get_number_of_examples] on the table left behind that raises. *)
Theorem add_features_unchecked_rows
    (key : string) (features : list column) (t : table) (N : nat) :
  dict_contains t key = false ->
  get_number_of_examples t = Ok N ->
  snd (add_features key features t) = Ok tt /\
  ((forall c, In c features -> 0 < size c -> nrows c = N) ->
     get_number_of_examples (fst (add_features key features t)) = Ok N) /\
  ((exists c, In c features /\ 0 < size c /\ nrows c <> N) ->
     get_number_of_examples (fst (add_features key features t))
       = Raise InconsistentSizeError).
Proof.
  intros Hfresh HN.
  destruct (add_features_columns key features t Hfresh) as [Hcols _].
  pose proof (get_number_of_examples_Ok t N HN) as Hrows.
  assert (Hhead : exists c0, In c0 (columns t)).
  { unfold get_number_of_examples, example_lengths in HN.
    destruct (columns t) as [|c0 cs]; [|by exists c0; left].
    simpl in HN. discriminate HN. }
  split; [|split].
  - unfold add_features. destruct features as [|c cs]; [done|]. rewrite Hfresh.
    by destruct (dict_get _ key) as [[|]|].
  - intros Hall. apply get_number_of_examples_intro; rewrite Hcols.
    + destruct Hhead as [c0 Hc0]. intros E. apply app_eq_nil in E as [E _].
      by rewrite E in Hc0.
    + intros c Hc. apply in_app_iff in Hc as [Hc|Hc]; [by apply Hrows|].
      apply filter_In in Hc as [Hc Hsize]. apply Hall; [done|]. by apply Nat.ltb_lt.
  - intros (c & Hc & Hsize & Hne). destruct Hhead as [c0 Hc0].
    apply (get_number_of_examples_disagree _ c c0); rewrite ?Hcols.
    + apply in_app_iff. right. apply filter_In. split; [done|]. by apply Nat.ltb_lt.
    + apply in_app_iff. by left.
    + by rewrite (Hrows c0 Hc0).
Qed.

Lemma add_features_unchecked_rows_witness :
  get_number_of_examples
    (fst (add_features "mask" [Dense (NdArray [1] [[7]; [8]]%Z)] sample_table))
    = Raise InconsistentSizeError.
Proof.
  destruct (add_features_unchecked_rows "mask" [Dense (NdArray [1] [[7]; [8]]%Z)]
              sample_table 3 eq_refl eq_refl) as (_ & _ & H).
  apply H. exists (Dense (NdArray [1] [[7]; [8]]%Z)).
  split; [by left|]. split; [simpl; lia | simpl; lia].
Defined.

Lemma feature_dimension_loop_sum (cols : list column) (dims : list nat) (acc : nat) :
  (forall c, In c cols -> (0 <? size c) = true) ->
  Forall2 (fun c d => entry_last_dim c = Ok d) cols dims ->
  feature_dimension_loop cols acc = Ok (acc + list_sum dims).
Proof.
  intros Hsize H. revert acc. induction H as [|c d cols dims Hd _ IH]; intros acc; simpl.
  - f_equal. lia.
  - rewrite (Hsize c) by (by left). rewrite Hd. cbn [rbind].
    rewrite IH by (intros c' Hc'; apply Hsize; by right). f_equal. lia.
Qed.

(** X20: the feature dimension of a key just added.  After [add_features]
    on a key that was not in the table, [get_feature_dimension] of that
    key is the sum of the last dimensions of the first entries of the
    added columns that have elements, and the table is not touched.  When
    no added column has elements the key was not created: in a plain
    dictionary the query raises a KeyError; in a [defaultdict(list)], such
    as [shuffle], [balance] and [split] leave behind, the query returns 0
    and binds the key to an empty list. *)
Theorem add_features_feature_dimension
    (kind : mapping) (key : string) (features : list column) (t : table) :
  dict_contains t key = false ->
  (forall dims,
     List.filter (fun data => 0 <? size data) features <> [] ->
     Forall2 (fun c d => entry_last_dim c = Ok d)
             (List.filter (fun data => 0 <? size data) features) dims ->
     get_feature_dimension kind key (fst (add_features key features t))
       = (fst (add_features key features t), Ok (list_sum dims))) /\
  (List.filter (fun data => 0 <? size data) features = [] ->
     fst (add_features key features t) = t /\
     get_feature_dimension PlainDict key (fst (add_features key features t))
       = (t, Raise KeyError) /\
     get_feature_dimension DefaultDict key (fst (add_features key features t))
       = (t ++ [(key, [])], Ok 0)).
Proof.
  intros Hfresh.
  destruct (add_features_columns key features t Hfresh) as [_ Hget].
  pose proof (proj1 (dict_contains_false t key) Hfresh) as Hnotin.
  split.
  - intros dims Hne Hdims. unfold get_feature_dimension, getitem. rewrite Hget.
    destruct (List.filter _ features) as [|k ks] eqn:Hkept; [done|].
    cbn [rbind]. f_equal.
    rewrite (feature_dimension_loop_sum (k :: ks) dims 0); [done | | done].
    intros c Hc. rewrite <- Hkept in Hc. by apply filter_In in Hc as [_ Hc].
  - intros Hkept.
    assert (Ht : fst (add_features key features t) = t).
    { unfold add_features. destruct features as [|c cs]; [done|].
      rewrite Hfresh. rewrite (add_features_loop key (c :: cs) [] t). cbn [app].
      rewrite Hkept, dict_get_set_eq. cbn [fst].
      rewrite dict_set_notin by done. by rewrite dict_del_snoc. }
    split; [done|]. rewrite Ht.
    unfold get_feature_dimension, getitem. rewrite (dict_get_notin t key Hnotin).
    split; [done|]. by rewrite dict_set_notin.
Qed.

Lemma add_features_feature_dimension_witness :
  get_feature_dimension DefaultDict "mask"
    (fst (add_features "mask" [empty_dense; sample_dense; sample_dense] sample_table))
    = (sample_table ++ [("mask", [sample_dense; sample_dense])], Ok 4).
Proof.
  destruct (add_features_feature_dimension DefaultDict "mask"
              [empty_dense; sample_dense; sample_dense] sample_table eq_refl) as [H _].
  rewrite (H [2; 2]); [reflexivity | discriminate | repeat constructor].
Defined.

(** ** balance on a single class *)

Lemma mask_filter_all_true {A B : Type} (xs : list B) (l : list A) :
  length xs = length l -> mask_filter (map (fun _ => true) xs) A l = l.
Proof.
  revert l. induction xs as [|x xs IH]; intros [|y l] H; simpl in *; try done.
  f_equal. apply IH. lia.
Qed.

Lemma slice_seq (i : nat) (k : Z) (N : nat) :
  i < N -> (1 <= k)%Z ->
  slice_list (Z.of_nat i) (Z.of_nat i + k) nat (seq 0 N) =
    seq i (Nat.min (Z.to_nat k) (N - i)).
Proof.
  intros Hi Hk. unfold slice_list, slice_bound. rewrite length_seq.
  destruct (Z.ltb_spec (Z.of_nat i) 0); [lia|].
  destruct (Z.ltb_spec (Z.of_nat i + k) 0); [lia|].
  rewrite drop_seq, take_seq. f_equal; lia.
Qed.

Lemma unique_labels_single (ids : list label) (u : label) :
  ids <> [] -> (forall l, In l ids -> l = u) -> unique_labels ids = [u].
Proof.
  intros Hne Hall.
  pose proof (unique_labels_NoDup ids) as Hnd.
  assert (Hin : forall l, l ∈ unique_labels ids -> l = u).
  { intros l Hl. by apply Hall, list_elem_of_In, elem_of_unique_labels. }
  destruct (unique_labels ids) as [|a [|b r]] eqn:Hus.
  - by apply unique_labels_nil in Hus.
  - f_equal. apply Hin. constructor.
  - exfalso. assert (a = u) as -> by (apply Hin; constructor).
    assert (b = u) as -> by (apply Hin; do 2 constructor).
    apply NoDup_cons in Hnd as [Hnotin _]. apply Hnotin. constructor.
Qed.

Lemma count_label_all (ids : list label) (u : label) :
  (forall l, In l ids -> l = u) -> count_label ids u = length ids.
Proof.
  unfold count_label. induction ids as [|l ids IH]; intros Hall; [done|].
  rewrite filter_cons, decide_True by (apply Hall; by left).
  simpl. f_equal. apply IH. intros l' Hl'. apply Hall. by right.
Qed.

Lemma col_take_all (c : column) : col_take (seq 0 (nrows c)) c = Ok c.
Proof.
  rewrite col_take_in_range by (intros j Hj; apply in_seq in Hj; lia).
  f_equal. destruct c as [[tl rs]|[nc rs]]; simpl; unfold rows_at; by rewrite map_nth_seq.
Qed.

Lemma final_data_identity (ids : list label) (t0 t' : table) (steps : list step) (N : nat) :
  no_empty_keys t0 -> steps <> [] ->
  (forall c, In c (columns t0) -> nrows c = N) ->
  selection ids steps N = seq 0 N ->
  final_data (stacked ids t0 steps) = Ok t' ->
  t' = t0.
Proof.
  intros Hne Hsteps Hrows Hsel.
  assert (Hst : stacked ids t0 steps =
                  map_cols (fun c => map (fun s => step_col ids s c) steps) t0)
    by (by destruct steps).
  rewrite Hst. unfold final_data.
  destruct (rmapM _ _) as [entries|] eqn:Hentries; cbn [rbind]; [|discriminate].
  intros E. injection E as <-.
  assert (Hcat : forall kv c, In kv t0 -> In c (snd kv) ->
                   col_concat (map (fun s => step_col ids s c) steps) = Ok c).
  { intros kv c Hkv Hc.
    assert (Hin : In c (columns t0)).
    { unfold columns. apply in_concat. exists (snd kv). split; [|done].
      apply in_map_iff. eauto. }
    unfold map_cols in Hentries. rewrite rmapM_map in Hentries.
    destruct (rmapM_Ok_In _ _ _ _ Hentries Hkv) as [y Hy]. cbn [fst snd] in Hy.
    destruct (rmapM col_concat _) as [vs|] eqn:Hvs; [|discriminate Hy].
    rewrite rmapM_map in Hvs.
    destruct (rmapM_Ok_In _ _ _ _ Hvs Hc) as [c' Hc']. rewrite Hc'. f_equal.
    apply col_concat_selection in Hc'. rewrite (Hrows c Hin), Hsel in Hc'.
    rewrite <- (Hrows c Hin), col_take_all in Hc'. by injection Hc' as <-. }
  assert (Hrun : rmapM (fun kv : string * list (list column) =>
                          let* vs := rmapM col_concat (snd kv) in Ok (fst kv, vs))
                       (map_cols (fun c => map (fun s => step_col ids s c) steps) t0)
                 = Ok t0).
  { unfold map_cols. rewrite rmapM_map.
    rewrite (rmapM_total _ (fun kv : string * list column => kv)); [by rewrite map_id|].
    intros [k vs] Hkv. cbn [fst snd]. rewrite rmapM_map.
    rewrite (rmapM_total _ (fun c : column => c)); [by rewrite map_id|].
    intros c Hc. by apply (Hcat (k, vs)). }
  rewrite Hrun in Hentries. injection Hentries as <-.
  by apply drop_empty_keys_id.
Qed.

Section SingleClass.

Variable ids : list label.
Variable t0 : table.
Variable env : bal_env.

Hypothesis Hnodup : List.NoDup (dict_keys t0).
Hypothesis Hnonempty : no_empty_keys t0.
Hypothesis Henv : env_ok env.
Hypothesis Hclasses : forall i ct,
  label_data env !! i = Some ct ->
  ct = map_cols (map_rows (mask_filter (class_mask ids i))) t0.
Hypothesis Hone : counts_label_ids env = [length ids].
Hypothesis Hmask : class_mask ids 0 = map (fun _ => true) ids.

Lemma selection_snoc (steps : list step) (idx : nat) (k : Z) :
  idx < length ids -> (1 <= k)%Z ->
  selection ids (steps ++ [Step 0 (Z.of_nat idx) (Z.of_nat idx + k)]) (length ids) =
    selection ids steps (length ids) ++ seq idx (Nat.min (Z.to_nat k) (length ids - idx)).
Proof.
  intros Hidx Hk. unfold selection. rewrite map_app, concat_app. simpl.
  rewrite app_nil_r. f_equal. unfold apply_step. simpl.
  rewrite Hmask, mask_filter_all_true by (by rewrite length_seq).
  by apply slice_seq.
Qed.

Lemma visit_first_pass (index : nat) (st st' : bal_state) (brk : bool) (steps : list step) :
  in_first_pass ids t0 st steps ->
  visit env index st = Ok (st', brk) ->
  exists steps',
    (brk = false /\ in_first_pass ids t0 st' steps') \/
    (brk = true /\ pass_done ids t0 st' steps').
Proof.
  intros (Hnd & Hcyc & idx & Hidx & Hlt & Hsel) Hvisit.
  destruct (visit_Ok _ _ _ _ _ Hvisit)
    as (cycles & skip & Hc & Hs & [(Hpos & _) | (_ & Hadv)]).
  - rewrite Hcyc in Hc. destruct index as [|i]; simpl in Hc; [|by destruct i].
    injection Hc as <-. lia.
  - destruct Hadv as (count & ct & idx0 & nd & m & Hcount & Hct & Hidx0 & Happ & -> & Hm & ->).
    assert (index = 0 /\ cycles = 0) as [-> ->].
    { rewrite Hcyc in Hc. destruct index as [|i]; simpl in Hc; [|by destruct i].
      by injection Hc as <-. }
    rewrite Hone in Hcount. simpl in Hcount. injection Hcount as <-.
    rewrite Hidx in Hidx0. simpl in Hidx0. injection Hidx0 as <-.
    pose proof (index_batch_size_pos env (length ids) Henv) as Hk.
    rewrite (Hclasses _ _ Hct), Hnd, (append_slices_stacked ids t0 Hnodup Hnonempty) in Happ.
    injection Happ as <-.
    exists (steps ++ [Step 0 (Z.of_nat idx) (Z.of_nat idx + index_batch_size env (length ids))]).
    unfold advance_state in *. cbn [num_data_cycles data_idx new_data] in *.
    rewrite Hcyc in *. rewrite Hidx.
    destruct (Z.geb_spec (Z.of_nat idx + index_batch_size env (length ids))
                         (Z.of_nat (length ids))) as [Hwrap|Hin].
    + simpl in Hm. injection Hm as <-. right. split; [done|]. split; [done|]. split; [done|].
      rewrite selection_snoc, Hsel by done. rewrite Nat.min_r by lia.
      etrans; [symmetry; apply (seq_app idx (length ids - idx) 0)|]. f_equal. lia.
    + simpl in Hm. injection Hm as <-. left. split; [done|]. split; [done|]. split; [done|].
      exists (idx + Z.to_nat (index_batch_size env (length ids))).
      split; [simpl; f_equal; lia|]. split; [lia|].
      rewrite selection_snoc, Hsel by done. rewrite Nat.min_l by lia.
      symmetry. apply (seq_app idx _ 0).
Qed.

Lemma for_indices_first_pass (order : list nat) (st st' : bal_state) (steps : list step) :
  in_first_pass ids t0 st steps ->
  for_indices env order st = Ok st' ->
  exists steps', in_first_pass ids t0 st' steps' \/ pass_done ids t0 st' steps'.
Proof.
  revert st steps. induction order as [|j order IH]; intros st steps Hinv; simpl.
  - intros E. injection E as <-. eauto.
  - destruct (visit env j st) as [[st1 brk]|] eqn:Hvisit; cbn [rbind fst snd]; [|discriminate].
    destruct (visit_first_pass _ _ _ _ _ Hinv Hvisit)
      as (steps1 & [(-> & Hinv1) | (-> & Hdone)]).
    + intros Hrest. by eapply IH.
    + intros E. injection E as <-. eauto.
Qed.

Lemma while_rounds_single (fuel : nat) (st st' : bal_state) (g g' : rng)
    (steps : list step) :
  in_first_pass ids t0 st steps ->
  while_rounds fuel env st g = Some (Ok (st', g')) ->
  exists steps', pass_done ids t0 st' steps'.
Proof.
  revert st g steps. induction fuel as [|fuel IH]; intros st g steps Hinv; simpl.
  - destruct Hinv as (_ & -> & _). simpl. discriminate.
  - pose proof Hinv as (_ & Hcyc & _). rewrite Hcyc. simpl.
    destruct (if do_shuffle env then _ else _) as [order g1].
    destruct (for_indices env order st) as [st1|] eqn:Hround; [|discriminate].
    destruct (for_indices_first_pass _ _ _ _ Hinv Hround) as (steps1 & [Hinv1 | Hdone]).
    + by apply (IH st1 g1 steps1).
    + intros Hrun. pose proof Hdone as (_ & Hc1 & _).
      destruct fuel; simpl in Hrun; rewrite Hc1 in Hrun; simpl in Hrun;
        injection Hrun as <- <-; eauto.
Qed.

End SingleClass.

(** X21: [balance] leaves a table with a single class as it is.  When
    every example carries the same label id, the one class is cut into
    consecutive slices until its end is reached, so the table left behind
    has every column with exactly its rows in their order: it is the input
    table, without the keys bound to an empty list of columns. *)
Theorem balance_single_class
    (fuel : nat) (scale : nat -> nat -> Z -> Z) (bs : Z) (sh : bool)
    (label_key : string) (t t' : table) (g g' : rng) (ids : list label) (u : label) :
  List.NoDup (dict_keys t) ->
  (0 <= bs)%Z ->
  (forall c n b, 0 < n -> (0 <= b)%Z -> (0 <= scale c n b)%Z) ->
  label_ids_of label_key t = Ok ids ->
  (forall l, In l ids -> l = u) ->
  balance fuel scale bs sh label_key t g = Some (Ok (t', g')) ->
  t' = drop_empty_keys t.
Proof.
  intros Hnodup Hbs Hscale Hids Hall Hrun. unfold balance in Hrun.
  destruct (_check_label_key label_key t) as [[]|] eqn:Hkey; [|discriminate].
  rewrite Hids in Hrun. unfold np_unique in Hrun.
  destruct (_split_by_label_ids ids (unique_labels ids) t) as [classes|] eqn:Hsplit;
    [|discriminate].
  destruct (get_number_of_examples t) as [N|] eqn:HN; [|discriminate].
  pose proof (label_ids_length _ _ _ _ Hkey Hids HN) as HlenN.
  destruct (split_by_label_ids_classes _ _ _ Hsplit) as [_ Hclasses].
  assert (Hne : ids <> []).
  { intros ->. destruct fuel; vm_compute in Hrun; discriminate Hrun. }
  pose proof (unique_labels_single ids u Hne Hall) as Hus.
  assert (Hmask : class_mask ids 0 = map (fun _ => true) ids).
  { unfold class_mask. rewrite Hus. simpl. apply map_ext_in. intros l Hl.
    apply bool_decide_eq_true_2. by apply Hall. }
  rewrite Hus in Hrun. cbn [map length replicate] in Hrun.
  rewrite (count_label_all ids u Hall) in Hrun.
  set (env := BalEnv scale bs sh [length ids] classes N) in Hrun.
  assert (Hpos : 0 < length ids) by (destruct ids; [done | simpl; lia]).
  assert (Henv : env_ok env).
  { split.
    - intros c. apply Hscale; [simpl; lia | done].
    - intros i count Hc. destruct i as [|i]; simpl in Hc; [|by destruct i].
      injection Hc as <-. done. }
  set (t0 := drop_empty_keys t).
  assert (Hcl : forall i ct, label_data env !! i = Some ct ->
                  ct = map_cols (map_rows (mask_filter (class_mask ids i))) t0).
  { intros i ct H. exact (proj2 (Hclasses i ct H)). }
  destruct (while_rounds fuel env _ g) as [[[st g1]|]|] eqn:Hloop; try discriminate.
  destruct (final_data (new_data st)) as [t''|] eqn:Hfinal; simpl in Hrun; [|discriminate].
  injection Hrun as -> ->.
  assert (Hdone : exists steps, pass_done ids t0 st steps).
  { eapply (while_rounds_single ids t0 env (NoDup_keys_drop t Hnodup)
              (no_empty_keys_drop t) Henv Hcl eq_refl Hmask fuel _ _ _ _ []);
      [|exact Hloop].
    split; [done|]. split; [done|]. exists 0. by repeat split. }
  destruct Hdone as (steps & Hnd & Hcyc & Hsel).
  rewrite Hnd in Hfinal.
  apply (final_data_identity ids t0 t' steps (length ids)); try done.
  - apply no_empty_keys_drop.
  - intros ->. unfold selection in Hsel. simpl in Hsel.
    destruct (length ids); [lia | discriminate].
  - intros c Hc. subst t0. rewrite columns_drop_empty_keys in Hc.
    rewrite HlenN. by apply (get_number_of_examples_Ok t N HN).
Qed.

Lemma balance_single_class_witness :
  balance 10 exact_scale 2 true "label_ids" (labelled [7; 7; 7; 7; 7]%Z) identity_rng =
    Some (Ok (labelled [7; 7; 7; 7; 7]%Z, Rng (draw identity_rng) 2)) /\
  labelled [7; 7; 7; 7; 7]%Z = drop_empty_keys (labelled [7; 7; 7; 7; 7]%Z).
Proof.
  split; [reflexivity|].
  apply (balance_single_class 10 exact_scale 2 true "label_ids"
           (labelled [7; 7; 7; 7; 7]%Z) (labelled [7; 7; 7; 7; 7]%Z)
           identity_rng (Rng (draw identity_rng) 2)
           (map LNum [7; 7; 7; 7; 7]%Z) (LNum 7)).
  - constructor; [simpl; tauto | constructor].
  - lia.
  - apply exact_scale_nonneg.
  - reflexivity.
  - intros l Hl. simpl in Hl. intuition congruence.
  - reflexivity.
Defined.
